(** * MindControl (mindctrl.py): operand encoders, motion commands,
    NXT mailbox handshake and the step planner.

    Python floats are IEEE-754 binary64 values; they are modelled with the
    Standard Library's [spec_float] at precision 53 and maximal exponent
    1024, whose operations ([SFadd], [SFdiv], [binary_normalize]) round to
    nearest, ties to even, as the hardware does.  Python ints are [Z].
    Bytes are lists of [Z]; [py_bytes] performs the range check of the
    [bytes(...)] constructor. *)

From Stdlib Require Import ZArith List Bool Lia SpecFloat.
From Stdlib Require Strings.String Strings.Ascii.
Import (notations) Stdlib.Strings.String.
Import ListNotations.
Open Scope Z_scope.

(** ** Python values and exceptions *)

Inductive exn :=
  | ValueError
  | IndexError
  | ZeroDivisionError
  | OverflowError
  | TypeError            (* e.g. [None[0:3]] *)
  | KeyError             (* missing dict key *)
  | StructError          (* [struct.error] of [struct.unpack] *)
  | PortNotOpenError.    (* pyserial's [write] or [read] on a closed port *)

Inductive pyres (A : Type) :=
  | Ok (a : A)
  | Exc (e : exn).
Arguments Ok {A} a.
Arguments Exc {A} e.

Definition pybind {A B} (r : pyres A) (k : A -> pyres B) : pyres B :=
  match r with
  | Ok a => k a
  | Exc e => Exc e
  end.

Notation "x <-? c ;; k" := (pybind c (fun x => k))
  (at level 61, c at next level, right associativity).

(** A number as received by the encoders: a Python int or a Python float. *)
Inductive pynum :=
  | PInt (z : Z)
  | PFloat (f : spec_float).

(** binary64 parameters. *)
Definition prec64 : Z := 53.
Definition emax64 : Z := 1024.

(** The double nearest to [m * 2^e] (how a literal such as [2.5] is read). *)
Definition f64 (m e : Z) : spec_float := binary_normalize prec64 emax64 m e false.

(** [float(z)] for a Python int: correctly rounded conversion. *)
Definition float_of_Z (z : Z) : spec_float := f64 z 0.

(** Nearest integer to [m / d] ([m >= 0], [d > 0]), ties to the even one. *)
Definition round_half_even_div (m d : Z) : Z :=
  let q := m / d in
  let r := m mod d in
  match Z.compare (2 * r) d with
  | Lt => q
  | Gt => q + 1
  | Eq => if Z.even q then q else q + 1
  end.

(** Python's built-in [round(x)] on a float (no ndigits): the nearest
    integer, ties to even; [round(inf)] raises OverflowError and
    [round(nan)] raises ValueError. *)
Definition pyround_float (f : spec_float) : pyres Z :=
  match f with
  | S754_zero _ => Ok 0
  | S754_infinity _ => Exc OverflowError
  | S754_nan => Exc ValueError
  | S754_finite s m e =>
      let v := if 0 <=? e then Zpos m * 2 ^ e
               else round_half_even_div (Zpos m) (2 ^ (- e)) in
      Ok (if s then - v else v)
  end.

(** [round(value)]: an int is returned unchanged. *)
Definition pyround (v : pynum) : pyres Z :=
  match v with
  | PInt z => Ok z
  | PFloat f => pyround_float f
  end.

(** [a / b] for two ints ([long_true_divide]): ZeroDivisionError for
    [b = 0], OverflowError when the quotient does not fit, otherwise the
    quotient rounded once to nearest even.  [m * 2^(-k-1)] with a sticky
    last bit lies strictly between the same two rounding boundaries of
    binary64 as [a / b] (these are multiples of [2^-1075]), so
    [binary_normalize] rounds it as it would round [a / b]. *)
Definition py_int_truediv (a b : Z) : pyres spec_float :=
  if b =? 0 then Exc ZeroDivisionError
  else
    let k := 1100 in
    let n := Z.abs a * 2 ^ k in
    let q := n / Z.abs b in
    let m := 2 * q + (if n mod Z.abs b =? 0 then 0 else 1) in
    let neg := xorb (a <? 0) (b <? 0) in
    match binary_normalize prec64 emax64 (if neg then - m else m) (- k - 1) neg with
    | S754_infinity _ => Exc OverflowError
    | f => Ok f
    end.

(** [float(n)] as [float / int] converts its int operand: OverflowError
    when the int is too large. *)
Definition py_float_of_int (z : Z) : pyres spec_float :=
  match float_of_Z z with
  | S754_infinity _ => Exc OverflowError
  | f => Ok f
  end.

(** [bytes(seq)]: every element must lie in [range(0, 256)]. *)
Definition py_bytes (l : list Z) : pyres (list Z) :=
  if forallb (fun b => (0 <=? b) && (b <? 256)) l then Ok l else Exc ValueError.

(** ** ValueEncoder: [pack1b], [pack2b], [pack3b], [pack5b] *)

Definition pack1b (value : pynum) : pyres (list Z) :=
  r <-? pyround value ;; py_bytes [r].

Definition pack2b (value : pynum) : pyres (list Z) :=
  v <-? pyround value ;;
  py_bytes [129; Z.land v 255].

Definition pack3b (value : pynum) : pyres (list Z) :=
  v <-? pyround value ;;
  py_bytes [130; Z.land v 255; Z.land (Z.shiftr v 8) 255].

Definition pack5b (value : pynum) : pyres (list Z) :=
  v <-? pyround value ;;
  py_bytes [131; Z.land v 255; Z.land (Z.shiftr v 8) 255;
            Z.land (Z.shiftr v 16) 255; Z.land (Z.shiftr v 24) 255].

(** Signed value of a finite float's mantissa. *)
Definition signed_mant (s : bool) (m : positive) : Z := if s then - Zpos m else Zpos m.

(** ** Session state and transport effects *)

(** Error lines written by [addlog] on the paths that give up
    ("... ERROR: ..."); the informational log lines carry no behaviour and
    are not recorded. *)
Inductive errline :=
  | EV3MaxAngles        (* 'EV3 ERROR: Maximum 4 angle parameters for rotate instruction' *)
  | EV3MaxPositions     (* 'EV3 ERROR: Maximum 4 position parameters for rotateto instruction' *)
  | EV3PortNotOpen      (* 'EV3 ERROR: Port is not open (command cancelled)' *)
  | NXTMaxAngles        (* 'NXT ERROR: Maximum 3 angle parameters for rotate instruction' *)
  | NXTMaxPositions     (* 'NXT ERROR: Maximum 3 position parameters for rotateto instruction' *)
  | NXTNotStarted       (* 'NXT ERROR: MindCtrl not started on the device:...' *)
  | EV3SpinMax.         (* 'EV3 ERROR: Maximum 4 position parameters for spin instruction' *)

Inductive event :=
  | Written (b : list Z)   (* [self.port.write(b)] *)
  | Logged (l : errline).

(** One device object with its serial port.  [rx] holds the bytes the
    device sends back before the read timeout: [port.read(n)] returns at
    most [n] of them, fewer (possibly none) when they run out. *)
Record world := mkWorld {
  port_open : bool;
  rx : list Z;
  out : list event;
  relposition : list Z;
  relscale : list Z }.

Definition M (A : Type) := world -> pyres A * world.

Definition ret {A} (a : A) : M A := fun w => (Ok a, w).

Definition bind {A B} (c : M A) (k : A -> M B) : M B :=
  fun w => match c w with
           | (Ok a, w') => k a w'
           | (Exc e, w') => (Exc e, w')
           end.

Notation "x <- c ;; k" := (bind c (fun x => k))
  (at level 61, c at next level, right associativity).
Notation "c ;;; k" := (bind c (fun _ => k))
  (at level 61, right associativity).

Definition lift {A} (r : pyres A) : M A := fun w => (r, w).

Definition emit (e : event) : M unit :=
  fun w => (Ok tt, mkWorld (port_open w) (rx w) (out w ++ [e]) (relposition w) (relscale w)).

Definition write (b : list Z) : M unit := emit (Written b).
Definition addlog (l : errline) : M unit := emit (Logged l).

Definition read (n : Z) : M (list Z) :=
  fun w => (Ok (firstn (Z.to_nat n) (rx w)),
            mkWorld (port_open w) (skipn (Z.to_nat n) (rx w)) (out w) (relposition w) (relscale w)).

Definition isOpen : M bool := fun w => (Ok (port_open w), w).

(** pyserial's [port.write(b)] and [port.read(n)]: both raise
    PortNotOpenError on a closed port. *)
Definition serial_write (b : list Z) : M unit :=
  op <- isOpen ;; if op then write b else lift (Exc PortNotOpenError).

Definition serial_read (n : Z) : M (list Z) :=
  op <- isOpen ;; if op then read n else lift (Exc PortNotOpenError).

(** [l[i]] for a non-negative index. *)
Definition py_index {A} (l : list A) (i : nat) : pyres A :=
  match nth_error l i with Some a => Ok a | None => Exc IndexError end.

Fixpoint py_setitem {A} (l : list A) (i : nat) (v : A) : pyres (list A) :=
  match l, i with
  | [], _ => Exc IndexError
  | _ :: t, O => Ok (v :: t)
  | h :: t, S i' => r <-? py_setitem t i' v ;; Ok (h :: r)
  end.

Definition get_relposition : M (list Z) := fun w => (Ok (relposition w), w).
Definition get_relscale : M (list Z) := fun w => (Ok (relscale w), w).
Definition set_relposition (p : list Z) : M unit :=
  fun w => (Ok tt, mkWorld (port_open w) (rx w) (out w) p (relscale w)).

(** [delaymove()]: [betweendelay] is 0, so it neither sleeps nor logs. *)
Definition delaymove : M unit := ret tt.

(** Normalisation [None -> 0] of an argument tuple. *)
Definition none_to_0 (o : option Z) : Z := match o with Some a => a | None => 0 end.

(** [bytes((2 ** i,))] for the motor index [i]. *)
Definition motorbit (i : nat) : Z := 2 ^ Z.of_nat i.

(** ** EV3 (class A) *)

(** "Get reply" of [EV3.send]: two LSB-first length bytes, then the
    payload; [reply or None] is [None] for an empty reply. *)
Definition ev3_get_reply : M (option (list Z)) :=
  replen <- read 2 ;;
  b0 <- lift (py_index replen 0) ;;
  b1 <- lift (py_index replen 1) ;;
  reply <- read (b0 + b1 * 256) ;;
  ret (match reply with [] => None | _ => Some reply end).

(** [EV3.send]: length-prefixed write, then the reply. *)
Definition ev3_send (message : list Z) : M (option (list Z)) :=
  msglen <- lift (py_bytes [Z.of_nat (length message) mod 256;
                            Z.of_nat (length message) / 256]) ;;
  let fullmessage := msglen ++ message in
  op <- isOpen ;;
  if op then write fullmessage ;;; ev3_get_reply
  else
    addlog EV3PortNotOpen ;;; ret None.

Definition ev3_header : list Z := [0; 0; 0; 0; 0].
Definition ev3_wait : list Z := [170; 0; 15].

Definition polarity (mask a : Z) : list Z :=
  if a <? 0 then [167; 0; mask; 63] else [167; 0; mask; 1].

(** [round(abs(speed * move[1] / maxangle)) or 1]: the two ints are
    divided into a double (OverflowError when the quotient does not fit),
    its absolute value is rounded (ties to even), and 0 becomes 1. *)
Definition move_speed (speed a maxangle : Z) : pyres Z :=
  q <-? py_int_truediv (speed * a) maxangle ;;
  r <-? pyround_float (SFabs q) ;;
  Ok (if r =? 0 then 1 else r).

(** The list [moves] of triplets [motor byte, angle, speed]; the first
    failing speed computation raises. *)
Fixpoint simult_moves (i : nat) (ms : list Z) (speed maxangle : Z) : pyres (list (Z * Z * Z)) :=
  match ms with
  | [] => Ok []
  | a :: ms' =>
      if a =? 0 then simult_moves (S i) ms' speed maxangle
      else sp <-? move_speed speed a maxangle ;;
           rest <-? simult_moves (S i) ms' speed maxangle ;;
           Ok ((motorbit i, a, sp) :: rest)
  end.

(** The speed operand as the spec states it: the exact quotient
    [|speed * a| / maxangle] rounded to the nearest integer (ties to even),
    and 0 replaced by 1; and the moves built with it. *)
Definition spec_move_speed (speed a maxangle : Z) : Z :=
  let r := round_half_even_div (Z.abs (speed * a)) maxangle in
  if r =? 0 then 1 else r.

Fixpoint spec_simult_moves (i : nat) (ms : list Z) (speed maxangle : Z) : list (Z * Z * Z) :=
  match ms with
  | [] => []
  | a :: ms' =>
      if a =? 0 then spec_simult_moves (S i) ms' speed maxangle
      else (motorbit i, a, spec_move_speed speed a maxangle) :: spec_simult_moves (S i) ms' speed maxangle
  end.

(** Polarity and run-to-angle instruction of one move. *)
Definition simult_group (mv : Z * Z * Z) : pyres (list Z) :=
  let '(mask, a, sp) := mv in
  s <-? pack2b (PInt sp) ;;
  z <-? pack5b (PInt 0) ;;
  t <-? pack5b (PInt a) ;;
  Ok (polarity mask a ++ ([174; 0; mask] ++ s ++ z ++ t ++ z ++ [1])).

Fixpoint simult_body (moves : list (Z * Z * Z)) : pyres (list Z) :=
  match moves with
  | [] => Ok []
  | mv :: rest => g <-? simult_group mv ;; b <-? simult_body rest ;; Ok (g ++ b)
  end.

(** Message of one motor in sequential mode. *)
Definition seq_message (i : nat) (a speed : Z) : pyres (list Z) :=
  let motorhex := motorbit i in
  s <-? pack2b (PInt speed) ;;
  z <-? pack5b (PInt 0) ;;
  t <-? pack5b (PInt a) ;;
  let body := [174; 0; motorhex] ++ s ++ z ++ t ++ z ++ [1] in
  Ok (ev3_header ++ polarity motorhex a ++ body ++ [166; 0; motorhex] ++ ev3_wait).

Fixpoint seq_rotate (i : nat) (ms : list Z) (speed : Z) : M unit :=
  match ms with
  | [] => ret tt
  | a :: ms' =>
      if a =? 0 then seq_rotate (S i) ms' speed
      else message <- lift (seq_message i a speed) ;;
           ev3_send message ;;; delaymove ;;; seq_rotate (S i) ms' speed
  end.

(** [motors + [0] * (n - len(motors))] after [None -> 0]. *)
Definition normalize (n : nat) (motors : list (option Z)) : list Z :=
  map none_to_0 motors ++ repeat 0 (n - length motors).

(** [max([abs(val) for val in motors])] over the (non-empty) list. *)
Definition max_abs (ms : list Z) : Z := fold_right Z.max 0 (map Z.abs ms).

(** [EV3.rotate( *motors, speed, simult)] *)
Definition ev3_rotate (motors : list (option Z)) (speed : Z) (simult : bool) : M unit :=
  if (4 <? length motors)%nat then addlog EV3MaxAngles ;;; ret tt
  else
    let ms := normalize 4 motors in
    if simult then
      let maxangle := max_abs ms in
      moves <- lift (simult_moves 0 ms speed maxangle) ;;
      body <- lift (simult_body moves) ;;
      ev3_send (ev3_header ++ body ++ ev3_wait) ;;;
      delaymove
    else seq_rotate 0 ms speed.

(** One pass of the [rotateto] loop over [enumerate(relpos)]: returns
    [deltas] and updates [self.relposition] in place. *)
Fixpoint rotateto_deltas (i : nat) (ps : list (option Z)) : M (list Z) :=
  match ps with
  | [] => ret []
  | None :: ps' => rest <- rotateto_deltas (S i) ps' ;; ret (0 :: rest)
  | Some t :: ps' =>
      rp <- get_relposition ;;
      p <- lift (py_index rp i) ;;
      rs <- get_relscale ;;
      sc <- lift (py_index rs i) ;;
      let delta := (t - p) * sc in
      rp' <- get_relposition ;;
      newrp <- lift (py_setitem rp' i t) ;;
      set_relposition newrp ;;;
      rest <- rotateto_deltas (S i) ps' ;;
      ret (delta :: rest)
  end.

(** [EV3.rotateto( *relpos, speed, simult)] *)
Definition ev3_rotateto (relpos : list (option Z)) (speed : Z) (simult : bool) : M unit :=
  if (4 <? length relpos)%nat then addlog EV3MaxPositions ;;; ret tt
  else
    let ps := relpos ++ repeat None (4 - length relpos) in
    deltas <- rotateto_deltas 0 ps ;;
    ev3_rotate (map Some deltas) speed simult.

(** ** NXT (class B) *)

(** [struct.pack('f', n)] for an int [n]: [float(n)] (OverflowError when
    too large), then the C cast to single precision (round to nearest even,
    OverflowError when it overflows), little-endian IEEE-754 binary32. *)
Definition f32_bits (s : bool) (m : positive) (e : Z) : Z :=
  (if s then 2 ^ 31 else 0) +
  (if Zpos m >=? 2 ^ 23 then (e + 150) * 2 ^ 23 + (Zpos m - 2 ^ 23) else Zpos m).

Definition le32 (b : Z) : list Z :=
  [Z.land b 255; Z.land (Z.shiftr b 8) 255; Z.land (Z.shiftr b 16) 255; Z.land (Z.shiftr b 24) 255].

Definition pack_f (n : Z) : pyres (list Z) :=
  match float_of_Z n with
  | S754_zero _ => Ok [0; 0; 0; 0]
  | S754_infinity _ => Exc OverflowError
  | S754_nan => Exc ValueError
  | S754_finite s m e =>
      match binary_normalize 24 128 (signed_mant s m) e false with
      | S754_finite s' m' e' => Ok (le32 (f32_bits s' m' e'))
      | S754_zero s' => Ok (le32 (if s' then 2 ^ 31 else 0))
      | _ => Exc OverflowError
      end
  end.

Definition nxt_frame (payload : list Z) : list Z := [9; 0; 128; 9; 0; 5] ++ payload ++ [0].

(** Motor number, angle and speed frames of one motor. *)
Definition nxt_message (i : nat) (a speed : Z) : pyres (list Z) :=
  p1 <-? pack_f (Z.of_nat i + 1) ;;
  p2 <-? pack_f a ;;
  p3 <-? pack_f speed ;;
  Ok (nxt_frame p1 ++ nxt_frame p2 ++ nxt_frame p3).

Definition checkmailbox : list Z := [5; 0; 0; 19; 10; 0; 1].
Definition reject_sig : list Z := [2; 19; 236].
(** [b'ACKNOWLEDGED'] *)
Definition ack_token : list Z := [65; 67; 75; 78; 79; 87; 76; 69; 68; 71; 69; 68].

Definition bytes_eqb (a b : list Z) : bool :=
  if list_eq_dec Z.eq_dec a b then true else false.

(** [pat in s] for bytes. *)
Fixpoint contains (pat s : list Z) : bool :=
  bytes_eqb (firstn (length pat) s) pat ||
  match s with
  | [] => false
  | _ :: s' => contains pat s'
  end.

(** State of the mailbox handshake after one rotate sub-message, with the
    counter [replywaits] of mailbox checks. *)
Inductive ackstate :=
  | Polling
  | Acknowledged (replywaits : Z)
  | Rejected (replywaits : Z).

(** The [while True] loop.  Every round that goes on has read the two
    length bytes, so [fuel = 1 + length rx] rounds never run out
    ([nxt_poll_never_polling] below): [Polling] is not a reachable result. *)
Fixpoint nxt_poll (fuel : nat) (replywaits : Z) : M ackstate :=
  match fuel with
  | O => ret Polling
  | S fuel' =>
      serial_write checkmailbox ;;;
      replysize <- serial_read 2 ;;
      b0 <- lift (py_index replysize 0) ;;
      b1 <- lift (py_index replysize 1) ;;
      reply <- serial_read (b0 + b1 * 256) ;;
      let rw := replywaits + 1 in
      if bytes_eqb (firstn 3 reply) reject_sig then
        addlog NXTNotStarted ;;; ret (Rejected rw)
      else if contains ack_token reply then ret (Acknowledged rw)
      else nxt_poll fuel' rw
  end.

Definition rx_length : M nat := fun w => (Ok (length (rx w)), w).

(** Handshake as run by [NXT.rotate]. *)
Definition nxt_ack : M ackstate :=
  n <- rx_length ;; nxt_poll (S n) 0.

Fixpoint nxt_rotate_loop (i : nat) (ms : list Z) (speed : Z) : M unit :=
  match ms with
  | [] => ret tt
  | a :: ms' =>
      if a =? 0 then nxt_rotate_loop (S i) ms' speed
      else
        message <- lift (nxt_message i a speed) ;;
        serial_write message ;;;
        st <- nxt_ack ;;
        match st with
        | Acknowledged _ => delaymove ;;; nxt_rotate_loop (S i) ms' speed
        | Rejected _ => ret tt
        | Polling => ret tt
        end
  end.

(** [NXT.rotate( *motors, speed)]; the code pads to 4 values. *)
Definition nxt_rotate (motors : list (option Z)) (speed : Z) : M unit :=
  if (3 <? length motors)%nat then addlog NXTMaxAngles ;;; ret tt
  else nxt_rotate_loop 0 (normalize 4 motors) speed.

(** [NXT.rotateto( *relpos, speed)] *)
Definition nxt_rotateto (relpos : list (option Z)) (speed : Z) : M unit :=
  if (3 <? length relpos)%nat then addlog NXTMaxPositions ;;; ret tt
  else
    let ps := relpos ++ repeat None (3 - length relpos) in
    deltas <- rotateto_deltas 0 ps ;;
    nxt_rotate (map Some deltas) speed.

(** ** StepPlanner: [getstepper] *)

(** The literal [1e-10]: the double nearest to [1 / 10^10]. *)
Definition stepper_eps : spec_float :=
  SFdiv prec64 emax64 (float_of_Z 1) (float_of_Z (10 ^ 10)).

Fixpoint py_mapM {A B} (f : A -> pyres B) (l : list A) : pyres (list B) :=
  match l with
  | [] => Ok []
  | x :: l' => y <-? f x ;; ys <-? py_mapM f l' ;; Ok (y :: ys)
  end.

(** [for step in range(steps)]: [start] becomes the float list
    [start + increment] and [[round(v + 1e-10) for v in start]] is
    appended; [start] enters as floats (see [getstepper]). *)
Fixpoint stepper_iter (n : nat) (start increment : list spec_float) : pyres (list (list Z)) :=
  match n with
  | O => Ok []
  | S n' =>
      let start' := map (fun '(s, inc) => SFadd prec64 emax64 s inc) (combine start increment) in
      row <-? py_mapM (fun v => pyround_float (SFadd prec64 emax64 v stepper_eps)) start' ;;
      rest <-? stepper_iter n' start' increment ;;
      Ok (row :: rest)
  end.

(** [start] resized to [end]: [None -> 0], truncated, padded with zeros. *)
Definition resize_start (start end_ : list (option Z)) : list Z :=
  let s1 := map none_to_0 start in
  let s2 := firstn (length end_) s1 in
  s2 ++ repeat 0 (length end_ - length s2).

(** [getstepper( *lists)] *)
Definition getstepper (lists : list (list (option Z))) : pyres (list (list Z)) :=
  se <-? (if (length lists =? 2)%nat then Ok (nth 0 lists [], nth 1 lists [])
          else e <-? py_index lists 0 ;; Ok ([Some 0], e)) ;;
  let '(start0, end0) := se in
  let start := resize_start start0 end0 in
  let end_ := map none_to_0 end0 in
  let delta := map (fun '(e, s) => e - s) (combine end_ start) in
  steps <-? (match delta with [] => Exc ValueError | _ => Ok (max_abs delta) end) ;;
  increment <-? py_mapM (fun d => py_int_truediv d steps) delta ;;
  (* the first round adds [float(start[m])] and a float, after [steps > 0] *)
  startf <-? py_mapM py_float_of_int start ;;
  rows <-? stepper_iter (Z.to_nat steps) startf increment ;;
  Ok (start :: rows).

(** [interpolate(start, end)] of the spec is [getstepper(start, end)]. *)
Definition interpolate (start end_ : list Z) : pyres (list (list Z)) :=
  getstepper [map Some start; map Some end_].

(** Number of steps [max(abs(end_i - start_i))] after resizing. *)
Definition stepper_steps (start end_ : list Z) : Z :=
  let s := resize_start (map Some start) (map Some end_) in
  max_abs (map (fun '(e, s) => e - s) (combine end_ s)).

(** ** The rotateTo table update as the spec states it *)

(** For each index [i]: [delta_i = (target_i - position_i) * scale_i] when a
    target is present, [0] when it is absent. *)
Definition rotateto_spec_deltas (ps : list (option Z)) (pos scale : list Z) : list Z :=
  map (fun '(o, (p, sc)) => match o with None => 0 | Some t => (t - p) * sc end)
      (combine ps (combine pos scale)).

(** For each index [i]: the new position is the target when present, the
    old position otherwise. *)
Definition rotateto_spec_positions (ps : list (option Z)) (pos : list Z) : list Z :=
  map (fun '(o, p) => match o with None => p | Some t => t end) (combine ps pos).


(** ** Other EV3 and NXT commands *)



(** The state [EV3.__init__] leaves: zero positions and unit scales. *)
Definition ev3_session (open : bool) (incoming : list Z) : world :=
  mkWorld open incoming [] [0; 0; 0; 0] [1; 1; 1; 1].

(** [NXT.__init__]: three motors. *)
Definition nxt_session (open : bool) (incoming : list Z) : world :=
  mkWorld open incoming [] [0; 0; 0] [1; 1; 1].

(** One entry of [EV3.spin]: a stop instruction for speed 0, otherwise
    polarity, power [pack2b(abs(speed))] and start. *)
Definition spin_sub (i : nat) (s : Z) : pyres (list Z) :=
  let m := motorbit i in
  if s =? 0 then Ok [163; 0; m; 1]
  else
    let pol := if s <? 0 then [167; 0; m; 63] else [167; 0; m; 1] in
    p <-? pack2b (PInt (Z.abs s)) ;;
    Ok (pol ++ [165; 0; m] ++ p ++ [166; 0; m]).

Fixpoint spin_body (i : nat) (ss : list (option Z)) : pyres (list Z) :=
  match ss with
  | [] => Ok []
  | None :: ss' => spin_body (S i) ss'
  | Some s :: ss' => sub <-? spin_sub i s ;; rest <-? spin_body (S i) ss' ;; Ok (sub ++ rest)
  end.

(** [EV3.spin( *speeds)] (int speeds). *)
Definition ev3_spin (speeds : list (option Z)) : M unit :=
  if (4 <? length speeds)%nat then addlog EV3SpinMax ;;; ret tt
  else
    let ss := speeds ++ repeat None (4 - length speeds) in
    body <- lift (spin_body 0 ss) ;;
    ev3_send (ev3_header ++ body) ;;; ret tt.

(** [EV3.stop()] *)
Definition ev3_stop : M unit := ev3_spin [Some 0; Some 0; Some 0; Some 0].

(** [EV3.tone(frequency, volume, duration)] *)
Definition ev3_tone (frequency volume duration : pynum) : M unit :=
  v <- lift (pack2b volume) ;;
  f <- lift (pack3b frequency) ;;
  d <- lift (pack3b duration) ;;
  ev3_send ([0; 0; 0; 0; 0; 148; 1] ++ v ++ f ++ d ++ [150]) ;;; ret tt.

(** Little-endian unsigned value of a byte string. *)
Fixpoint le_bytes (l : list Z) : Z :=
  match l with [] => 0 | b :: l' => b + 256 * le_bytes l' end.

(** [struct.unpack('f', b)[0]] on the 32 bits [b] (little-endian host): the
    binary32 value, widened exactly to a double. *)
Definition f32_decode (b : Z) : spec_float :=
  let s := Z.testbit b 31 in
  let e := (b / 2 ^ 23) mod 256 in
  let m := b mod 2 ^ 23 in
  let sg x := if s then - x else x in
  if e =? 255 then (if m =? 0 then S754_infinity s else S754_nan)
  else if e =? 0 then
    (if m =? 0 then S754_zero s else binary_normalize prec64 emax64 (sg m) (-149) false)
  else binary_normalize prec64 emax64 (sg (m + 2 ^ 23)) (e - 150) false.

(** [EV3.sensor(portnum)]; [send] returns [None] for a closed port or an
    empty reply, and [None[0:3]] raises TypeError. *)
Definition ev3_sensor (portnum : Z) : M (option spec_float) :=
  message <- lift (py_bytes [0; 0; 0; 4; 0; 153; 29; 0; portnum - 1; 0; 0; 1; 96]) ;;
  reply <- ev3_send message ;;
  match reply with
  | None => lift (Exc TypeError)
  | Some r =>
      if negb (bytes_eqb (firstn 3 r) [0; 0; 2]) then ret None
      else if negb (length r =? 7)%nat then ret None
      else ret (Some (f32_decode (le_bytes (skipn 3 r))))
  end.

(** The dict [ev3colorsensor]. *)
Definition ev3colorsensor (k : Z) : pyres String.string :=
  match k with
  | 0 => Ok "NONE"%string
  | 1 => Ok "BLACK"%string
  | 2 => Ok "BLUE"%string
  | 3 => Ok "GREEN"%string
  | 4 => Ok "YELLOW"%string
  | 5 => Ok "RED"%string
  | 6 => Ok "WHITE"%string
  | 7 => Ok "BROWN"%string
  | _ => Exc KeyError
  end.

(** Result of [sensor_light]: the float, or [(code, name)] in mode 2. *)
Inductive light_reading :=
  | Light (f : spec_float)
  | Color (code : Z) (name : String.string).

(** [EV3.sensor_light(portnum, mode)] for an int [mode] (the string
    aliases are not modelled). *)
Definition ev3_sensor_light (portnum mode : Z) : M light_reading :=
  message <- lift (py_bytes [0; 0; 0; 4; 0; 153; 29; 0; portnum - 1; 0; mode; 1; 96]) ;;
  reply <- ev3_send message ;;
  match reply with
  | None => lift (Exc TypeError)
  | Some r =>
      let last4 := skipn (length r - 4) r in
      if negb (length last4 =? 4)%nat then lift (Exc StructError)
      else
        let f := f32_decode (le_bytes last4) in
        if mode =? 2 then
          code <- lift (pyround_float f) ;;
          name <- lift (ev3colorsensor code) ;;
          ret (Color code name)
        else ret (Light f)
  end.

(** The value of an [n]-bit two's-complement field holding [u]. *)
Definition signed_of (n u : Z) : Z := if u <? 2 ^ (n - 1) then u else u - 2 ^ n.

(** [NXT.start(rxe)]: the start-program command, written without reading
    any reply; [bytes((len(message), 0))] needs [len(message) < 256]. *)
Definition nxt_start (rxe : list Z) : M unit :=
  let message := [128; 0] ++ rxe ++ [0] in
  pre <- lift (py_bytes [Z.of_nat (length message); 0]) ;;
  serial_write (pre ++ message).

(** ** MusicGenerator: [melody] *)

(** Python strings are lists of Unicode code points; [cps] reads an ASCII
    literal. *)
Definition cps (s : String.string) : list Z :=
  map (fun a => Z.of_nat (Ascii.nat_of_ascii a)) (String.list_ascii_of_string s).

(** [a == b] on strings. *)
Fixpoint zs_eqb (a b : list Z) : bool :=
  match a, b with
  | [], [] => true
  | x :: a', y :: b' => (x =? y) && zs_eqb a' b'
  | _, _ => false
  end.

(** [s.startswith(p)] *)
Definition startswith (s p : list Z) : bool := zs_eqb (firstn (length p) s) p.

(** [d[k]] on a dict with string keys, given as its list of items. *)
Fixpoint str_lookup {V} (k : list Z) (d : list (list Z * V)) : option V :=
  match d with
  | [] => None
  | (k', v) :: d' => if zs_eqb k k' then Some v else str_lookup k d'
  end.

(** *** [int(s)] and [str(n)] (CPython 3.11, Unicode 14.0) *)

(** [Py_ISSPACE] on an ASCII character. *)
Definition py_isspace_ascii (c : Z) : bool := ((9 <=? c) && (c <=? 13)) || (c =? 32).

(** The code points from 127 on for which [str.isspace] holds. *)
Definition unicode_spaces : list Z :=
  [133; 160; 5760; 8192; 8193; 8194; 8195; 8196; 8197; 8198; 8199; 8200; 8201; 8202;
   8232; 8233; 8239; 8287; 12288].

(** The digit zeros of the 66 runs of ten decimal digits (category Nd). *)
Definition decimal_zeros : list Z :=
  [48; 1632; 1776; 1984; 2406; 2534; 2662; 2790; 2918; 3046; 3174; 3302; 3430; 3558;
   3664; 3792; 3872; 4160; 4240; 6112; 6160; 6470; 6608; 6784; 6800; 6992; 7088; 7232;
   7248; 42528; 43216; 43264; 43472; 43504; 43600; 44016; 65296; 66720; 68912; 69734;
   69872; 69942; 70096; 70384; 70736; 70864; 71248; 71360; 71472; 71904; 72016; 72784;
   73040; 73120; 92768; 92864; 93008; 120782; 120792; 120802; 120812; 120822; 123200;
   123632; 125264; 130032].

(** [_PyUnicode_TransformDecimalAndSpaceToASCII] on one code point: ASCII
    is kept, Unicode white space becomes a space, a decimal digit its ASCII
    digit, anything else ['?'] (where CPython also cuts the string; the
    parse fails there either way). *)
Definition to_ascii (c : Z) : Z :=
  if c <? 127 then c
  else if existsb (Z.eqb c) unicode_spaces then 32
  else match find (fun z => (z <=? c) && (c <? z + 10)) decimal_zeros with
       | Some z => 48 + (c - z)
       | None => 63
       end.

Fixpoint skip_spaces (s : list Z) : list Z :=
  match s with
  | c :: s' => if py_isspace_ascii c then skip_spaces s' else s
  | [] => []
  end.

Definition is_ascii_digit (c : Z) : bool := (48 <=? c) && (c <=? 57).

(** The run of digits and underscores the scanner of [PyLong_FromString]
    consumes, and what follows it. *)
Fixpoint digit_run (s : list Z) : list Z * list Z :=
  match s with
  | c :: s' =>
      if is_ascii_digit c || (c =? 95) then let '(r, t) := digit_run s' in (c :: r, t)
      else ([], s)
  | [] => ([], [])
  end.

(** At least one digit, and single underscores between digits only. *)
Fixpoint underscores_ok (prev_digit : bool) (r : list Z) : bool :=
  match r with
  | [] => prev_digit
  | c :: r' => if c =? 95 then prev_digit && underscores_ok false r' else underscores_ok true r'
  end.

(** [sys.get_int_max_str_digits()] by default. *)
Definition max_str_digits : nat := 4300.

Definition decimal_value (ds : list Z) : Z := fold_left (fun acc d => 10 * acc + (d - 48)) ds 0.

(** [int(s)] for a str [s]: white space around, an optional sign, decimal
    digits with single underscores between them, at most 4300 digits;
    ValueError otherwise. *)
Definition py_int (s : list Z) : pyres Z :=
  let t := skip_spaces (map to_ascii s) in
  let '(sign, t1) := match t with
                     | c :: t' => if c =? 43 then (1, t') else if c =? 45 then (-1, t') else (1, t)
                     | [] => (1, t)
                     end in
  let '(run, rest) := digit_run t1 in
  let ds := filter is_ascii_digit run in
  if negb (underscores_ok false run) then Exc ValueError
  else if (max_str_digits <? length ds)%nat then Exc ValueError
  else if negb (forallb py_isspace_ascii rest) then Exc ValueError
  else Ok (sign * decimal_value ds).

Fixpoint digits_rev (fuel : nat) (n : Z) : list Z :=
  match fuel with
  | O => []
  | S f => (48 + n mod 10) :: (if n <? 10 then [] else digits_rev f (n / 10))
  end.

(** [str(n)] for an int (the ints it is applied to here have at most
    4300 digits, within the limit of [str]). *)
Definition py_str_int (z : Z) : list Z :=
  let ds := rev (digits_rev (S (Z.to_nat (Z.log2 (Z.abs z)))) (Z.abs z)) in
  if z <? 0 then 45 :: ds else ds.

(** *** Float arithmetic of [melody] *)


(** [x / y] on doubles ([float_div]): ZeroDivisionError for a zero divisor. *)
Definition py_float_div (x y : spec_float) : pyres spec_float :=
  match y with
  | S754_zero _ => Exc ZeroDivisionError
  | _ => Ok (SFdiv prec64 emax64 x y)
  end.

(** [(120 / tempo) / length] *)
Definition note_duration (tempo len : Z) : pyres spec_float :=
  q <-? py_int_truediv 120 tempo ;;
  l <-? py_float_of_int len ;;
  py_float_div q l.

(** *** Strings of [melody] *)

(** [notes.replace('  ', ' ')]: left to right, non-overlapping. *)
Fixpoint replace_double_space (s : list Z) : list Z :=
  match s with
  | [] => []
  | c :: s' =>
      if c =? 32 then
        match s' with
        | d :: s'' => if d =? 32 then 32 :: replace_double_space s'' else 32 :: replace_double_space s'
        | [] => [32]
        end
      else c :: replace_double_space s'
  end.

(** [while '  ' in notes: notes = notes.replace('  ', ' ')]; each round
    shortens the string, so [length notes] rounds are enough. *)
Fixpoint collapse_spaces (fuel : nat) (s : list Z) : list Z :=
  match fuel with
  | O => s
  | S f => if contains [32; 32] s then collapse_spaces f (replace_double_space s) else s
  end.

Fixpoint split_space_aux (cur s : list Z) : list (list Z) :=
  match s with
  | [] => [rev cur]
  | c :: s' => if c =? 32 then rev cur :: split_space_aux [] s' else split_space_aux (c :: cur) s'
  end.

(** [s.split(' ')] *)
Definition split_space (s : list Z) : list (list Z) := split_space_aux [] s.

(** [s.partition('/')[0]] and [s.partition('/')[2]]. *)
Fixpoint partition_slash (s : list Z) : list Z * list Z :=
  match s with
  | [] => ([], [])
  | c :: s' => if c =? 47 then ([], s') else let '(a, b) := partition_slash s' in (c :: a, b)
  end.

(** *** The melody loop *)

Definition names : list (list Z) :=
  map cps ["c#"; "c"; "d#"; "d"; "e"; "f#"; "f"; "g#"; "g"; "a"; "b"; "h"]%string.

Definition volumes : list (list Z * Z) :=
  [(cps "PPP", 12); (cps "PP", 24); (cps "P", 37); (cps "MP", 50);
   (cps "MF", 62); (cps "F", 75); (cps "FF", 87); (cps "FFF", 100)].

(** One entry of the result: frequency (a float, or the int 440 of a
    rest), duration, volume. *)
Definition note_entry : Type := pynum * spec_float * Z.

(** The variables [volume], [tempo], [currentoctave], [currentlength] and
    [aggregator] of the loop. *)
Record mstate := mkMState {
  volume : Z;
  tempo : Z;
  currentoctave : Z;
  currentlength : Z;
  aggregator : list note_entry
}.

Definition melody_init : mstate := mkMState 50 120 4 4 [].

(** [1 / 12] *)
Definition one_twelfth : spec_float := SFdiv prec64 emax64 (float_of_Z 1) (float_of_Z 12).

Section Melody.

(** [x ** y] on two doubles: CPython's [float_pow], which calls the C
    library's [pow] (no error arises for the positive bases and the
    exponents [-57 .. 39] used here). *)
Variable py_pow : spec_float -> spec_float -> spec_float.

(** [halftone = 2 ** (1 / 12)] *)
Definition halftone : spec_float := py_pow (float_of_Z 2) one_twelfth.

(** [440 * (halftone ** (tone - 57))] *)
Definition note_freq (tone : Z) : spec_float :=
  SFmul prec64 emax64 (float_of_Z 440) (py_pow halftone (float_of_Z (tone - 57))).

(** The dict [freqs]: key [names[tone % 12] + str(tone // 12)] for
    [tone in range(97)]. *)
Definition freqs : list (list Z * spec_float) :=
  map (fun tone => (nth (Z.to_nat (tone mod 12)) names [] ++ py_str_int (tone / 12), note_freq tone))
      (map Z.of_nat (seq 0 97)).

(** [for cn in names: if note.startswith(cn): ... break] *)
Fixpoint note_names (cns : list (list Z)) (note : list Z) (st : mstate) : pyres mstate :=
  match cns with
  | [] => Ok st
  | cn :: cns' =>
      if startswith note cn then
        let specs := skipn (length cn) note in
        let poct := fst (partition_slash specs) in
        let nlen := snd (partition_slash specs) in
        oct <-? (match poct with [] => Ok (currentoctave st) | _ => py_int poct end) ;;
        len <-? (match nlen with [] => Ok (currentlength st) | _ => py_int nlen end) ;;
        d <-? note_duration (tempo st) len ;;
        f <-? (match str_lookup (cn ++ py_str_int oct) freqs with
               | Some f => Ok f
               | None => Exc KeyError
               end) ;;
        Ok (mkMState (volume st) (tempo st) oct len (aggregator st ++ [(PFloat f, d, volume st)]))
      else note_names cns' note st
  end.

(** The body of [for note in notes]. *)
Definition melody_step (st : mstate) (note : list Z) : pyres mstate :=
  let st1 := match str_lookup note volumes with
             | Some v => mkMState v (tempo st) (currentoctave st) (currentlength st) (aggregator st)
             | None => st
             end in
  c0 <-? py_index note 0 ;;
  st2 <-? (if c0 =? 84 then
             t <-? py_int (skipn 1 note) ;;
             Ok (mkMState (volume st1) t (currentoctave st1) (currentlength st1) (aggregator st1))
           else Ok st1) ;;
  st3 <-? note_names names note st2 ;;
  if c0 =? 114 then
    let nlen := snd (partition_slash note) in
    rd <-? (match nlen with [] => Ok (currentlength st3) | _ => py_int nlen end) ;;
    d <-? note_duration (tempo st3) rd ;;
    Ok (mkMState (volume st3) (tempo st3) (currentoctave st3) (currentlength st3)
                 (aggregator st3 ++ [(PInt 440, d, 0)]))
  else Ok st3.

Fixpoint melody_run (st : mstate) (notes : list (list Z)) : pyres mstate :=
  match notes with
  | [] => Ok st
  | note :: notes' => st' <-? melody_step st note ;; melody_run st' notes'
  end.

(** [melody(notes)]; [1 / 12] is [py_int_truediv 1 12], which is
    [one_twelfth]. *)
Definition melody (notes : list Z) : pyres (list note_entry) :=
  let notes' := split_space (collapse_spaces (length notes) notes) in
  st <-? melody_run melody_init notes' ;;
  Ok (aggregator st).

End Melody.

(** *** Helpers of the properties of [melody] *)

(** Runs of spaces squeezed to one space; [b]: a space precedes. *)
Fixpoint squeeze (b : bool) (s : list Z) : list Z :=
  match s with
  | [] => []
  | c :: s' =>
      if c =? 32 then (if b then squeeze true s' else 32 :: squeeze true s')
      else c :: squeeze false s'
  end.

(** The space flag [squeeze] carries past a prefix. *)
Fixpoint squeeze_flag (b : bool) (s : list Z) : bool :=
  match s with
  | [] => b
  | c :: s' => squeeze_flag (c =? 32) s'
  end.

(** An entry [melody] can produce: a rest [[440, d, 0]], or a tone of
    the table at one of the eight volume levels. *)
Definition good_entry (py_pow : spec_float -> spec_float -> spec_float) (e : note_entry) : Prop :=
  (exists d, e = (PInt 440, d, 0)) \/
  (exists k d v, 0 <= k <= 96 /\ In v [12; 24; 37; 50; 62; 75; 87; 100] /\
                 e = (PFloat (note_freq py_pow k), d, v)).

Definition mstate_good (py_pow : spec_float -> spec_float -> spec_float) (st : mstate) : Prop :=
  In (volume st) [12; 24; 37; 50; 62; 75; 87; 100] /\ Forall (good_entry py_pow) (aggregator st).

(** *** Rounding of [binary_round] in closed form

    Used by the proofs: for a mantissa [m] at exponent [e], [br_f] is the
    exponent of the result's last digit, [br_R] the integer [m * 2^e]
    rounded to a multiple of [2^(br_f)] (in units of [2^(br_f)]), and
    [br_result] the float [binary_round] returns ([binary_round_spec]). *)
Definition br_f (m : positive) (e : Z) : Z := Z.max (Zpos (digits2_pos m) + e - 53) (-1074).

Definition br_R (m : positive) (e : Z) : Z :=
  let f := Z.max (Zpos (digits2_pos m) + e - 53) (-1074) in
  if f <=? e then Zpos m * 2 ^ (e - f) else round_half_even_div (Zpos m) (2 ^ (f - e)).

Definition br_result (sx : bool) (R f : Z) : spec_float :=
  if R =? 0 then S754_zero sx
  else if R <? 2 ^ 53 then (if f <=? 971 then S754_finite sx (Z.to_pos R) f else S754_infinity sx)
  else (if f + 1 <=? 971 then S754_finite sx (Z.to_pos (2 ^ 52)) (f + 1) else S754_infinity sx).

(** *** Values of floats as integers

    [fval] is the value of a float in units of [2^-1101] (the floats met
    here are finite multiples of it, [fgood]); [step_inv] bounds the error
    of the [k]-th float waypoint of an actuator moving by [d] from [s] in
    [n] steps, [comp_ok] the data of that actuator. *)
Definition fval (f : spec_float) : Z :=
  match f with
  | S754_finite s m e => cond_Zopp s (Zpos m * 2 ^ (e + 1101))
  | _ => 0
  end.

Definition fgood (f : spec_float) : Prop :=
  match f with
  | S754_zero _ => True
  | S754_finite _ _ e => -1101 <= e
  | _ => False
  end.

Definition step_inv (n k s d : Z) (x : spec_float) : Prop :=
  fgood x /\ Z.abs (n * fval x - (n * s + k * d) * 2 ^ 1101) <= (k + 1) * n * 2 ^ 1074.

Definition comp_ok (n s d : Z) (inc : spec_float) : Prop :=
  Z.abs s <= 2 ^ 24 /\ Z.abs (s + d) <= 2 ^ 24 /\ Z.abs d <= n /\
  fgood inc /\ Z.abs (n * fval inc - d * 2 ^ 1101) <= n * 2 ^ 1049.

(** * Properties *)

(** ** Rounding *)

Lemma round_half_even_div_nearest (m d : Z) :
  0 <= m -> 0 < d ->
  let r := round_half_even_div m d in
  2 * Z.abs (m - r * d) <= d /\ (2 * Z.abs (m - r * d) = d -> Z.even r = true).
Proof.
  intros Hm Hd r. subst r. unfold round_half_even_div.
  pose proof (Z.div_mod m d ltac:(lia)) as Hdm.
  pose proof (Z.mod_pos_bound m d Hd) as Hb.
  set (q := m / d) in *. set (rr := m mod d) in *.
  destruct (Z.compare_spec (2 * rr) d) as [Heq | Hlt | Hgt].
  - destruct (Z.even q) eqn:Ev.
    + split; [|intros _; exact Ev].
      replace (m - q * d) with rr by lia. rewrite Z.abs_eq by lia. lia.
    + split.
      * replace (m - (q + 1) * d) with (rr - d) by lia. rewrite Z.abs_neq by lia. lia.
      * intros _. rewrite Z.even_add, Ev. reflexivity.
  - replace (m - q * d) with rr by lia. rewrite Z.abs_eq by lia. split; lia.
  - replace (m - (q + 1) * d) with (rr - d) by lia. rewrite Z.abs_neq by lia. split; lia.
Qed.

Lemma round_half_even_div_nonneg (m d : Z) :
  0 <= m -> 0 < d -> 0 <= round_half_even_div m d.
Proof.
  intros Hm Hd. unfold round_half_even_div.
  pose proof (Z.div_pos m d Hm Hd).
  destruct (Z.compare (2 * (m mod d)) d); [destruct (Z.even (m / d))|..]; lia.
Qed.

(** ** [binary_round] and Python's int division *)

Lemma digits2_pos_spec (p : positive) :
  2 ^ (Zpos (digits2_pos p) - 1) <= Zpos p < 2 ^ Zpos (digits2_pos p).
Proof.
  induction p as [p IH|p IH|]; cbn [digits2_pos]; [| |cbn; lia];
    rewrite Pos2Z.inj_succ; set (D := Zpos (digits2_pos p)) in *;
    replace (Z.succ D - 1) with D by lia; rewrite Z.pow_succ_r by lia;
    assert (E : 2 ^ D = 2 * 2 ^ (D - 1)) by (rewrite <- Z.pow_succ_r by lia; f_equal; lia);
    pose proof (Pos2Z.is_pos p); [rewrite (Pos2Z.inj_xI p)|rewrite (Pos2Z.inj_xO p)]; lia.
Qed.

Lemma iter_pos_nat {A} (f : A -> A) (p : positive) :
  forall x, iter_pos f p x = Nat.iter (Pos.to_nat p) f x.
Proof.
  induction p as [p IH|p IH|]; intros x; cbn [iter_pos].
  - rewrite Pos2Nat.inj_xI, !IH.
    replace (S (2 * Pos.to_nat p)) with ((Pos.to_nat p + Pos.to_nat p) + 1)%nat by lia.
    rewrite !Nat.iter_add. reflexivity.
  - rewrite Pos2Nat.inj_xO, !IH.
    replace (2 * Pos.to_nat p)%nat with (Pos.to_nat p + Pos.to_nat p)%nat by lia.
    rewrite Nat.iter_add. reflexivity.
  - reflexivity.
Qed.

Lemma shr_1_spec (m : Z) (r s : bool) :
  0 <= m -> shr_1 (Build_shr_record m r s) = Build_shr_record (m / 2) (Z.odd m) (r || s).
Proof.
  intros Hm. destruct m as [|p|p]; [reflexivity| |lia].
  destruct p as [p|p|]; cbn [shr_1].
  - f_equal. rewrite (Pos2Z.inj_xI p), Z.add_comm, Z.mul_comm, Z.div_add by lia. reflexivity.
  - f_equal. rewrite (Pos2Z.inj_xO p), Z.mul_comm, Z.div_mul by lia. reflexivity.
  - reflexivity.
Qed.

Lemma pow2_S (n : nat) : 2 ^ Z.of_nat (S n) = 2 ^ Z.of_nat n * 2.
Proof. rewrite Nat2Z.inj_succ, Z.pow_succ_r by lia. lia. Qed.

Lemma shr_iter_spec (M : Z) (k : nat) :
  0 <= M ->
  Nat.iter (S k) shr_1 (Build_shr_record M false false) =
  Build_shr_record (M / 2 ^ Z.of_nat (S k)) (Z.odd (M / 2 ^ Z.of_nat k))
                   (negb (M mod 2 ^ Z.of_nat k =? 0)).
Proof.
  intros HM. induction k as [|k IH].
  - cbn [Nat.iter]. rewrite shr_1_spec by lia.
    change (2 ^ Z.of_nat 1) with 2. change (2 ^ Z.of_nat 0) with 1. rewrite Z.div_1_r, Z.mod_1_r. reflexivity.
  - rewrite Nat.iter_succ, IH.
    assert (P : 0 < 2 ^ Z.of_nat k) by (apply Z.pow_pos_nonneg; lia).
    rewrite shr_1_spec by (apply Z.div_pos; lia).
    rewrite !pow2_S, !Z.div_div by lia.
    f_equal.
    rewrite Z.rem_mul_r by lia.
    rewrite Zmod_odd. pose proof (Z.mod_pos_bound M (2 ^ Z.of_nat k) P).
    destruct (Z.odd (M / 2 ^ Z.of_nat k));
      destruct (Z.eqb_spec (M mod 2 ^ Z.of_nat k) 0);
      destruct (Z.eqb_spec (M mod 2 ^ Z.of_nat k + 2 ^ Z.of_nat k * 1) 0);
      destruct (Z.eqb_spec (M mod 2 ^ Z.of_nat k + 2 ^ Z.of_nat k * 0) 0);
      cbn [orb negb]; try reflexivity; lia.
Qed.

Lemma rne_shr (M : Z) (k : nat) : 0 <= M ->
  let r := Nat.iter (S k) shr_1 (Build_shr_record M false false) in
  round_nearest_even (shr_m r) (loc_of_shr_record r) = round_half_even_div M (2 ^ Z.of_nat (S k)).
Proof.
  intros HM r. subst r. rewrite shr_iter_spec by exact HM. cbn [shr_m].
  assert (P : 0 < 2 ^ Z.of_nat k) by (apply Z.pow_pos_nonneg; lia).
  unfold round_half_even_div. rewrite pow2_S. cbv zeta.
  rewrite Z.rem_mul_r by lia. rewrite Zmod_odd.
  pose proof (Z.mod_pos_bound M (2 ^ Z.of_nat k) P).
  destruct (Z.odd (M / 2 ^ Z.of_nat k)); destruct (Z.eqb_spec (M mod 2 ^ Z.of_nat k) 0) as [E|E];
    cbn [negb loc_of_shr_record round_nearest_even];
    destruct (Z.compare_spec (2 * (M mod 2 ^ Z.of_nat k + 2 ^ Z.of_nat k * 1)) (2 ^ Z.of_nat k * 2));
    destruct (Z.compare_spec (2 * (M mod 2 ^ Z.of_nat k + 2 ^ Z.of_nat k * 0)) (2 ^ Z.of_nat k * 2));
    try reflexivity; lia.
Qed.

Lemma rhe_unique (m d k : Z) :
  0 <= m -> 0 < d -> 2 * Z.abs (m - k * d) <= d ->
  (2 * Z.abs (m - k * d) = d -> Z.even k = true) ->
  round_half_even_div m d = k.
Proof.
  intros Hm Hd H1 H2.
  destruct (round_half_even_div_nearest m d Hm Hd) as [G1 G2].
  set (r := round_half_even_div m d) in *.
  assert (B : Z.abs ((r - k) * d) <= d) by
    (replace ((r - k) * d) with ((m - k * d) - (m - r * d)) by ring; lia).
  rewrite Z.abs_mul, (Z.abs_eq d) in B by lia.
  assert (Z.abs (r - k) <= 1) by nia.
  destruct (Z.eq_dec r k) as [|Hne]; [assumption|].
  assert (T : 2 * Z.abs (m - k * d) = d /\ 2 * Z.abs (m - r * d) = d).
  { destruct (Z.le_gt_cases r k);
      [replace r with (k - 1) in * by lia | replace r with (k + 1) in * by lia];
      split; lia. }
  destruct T as [T1 T2]. specialize (H2 T1). specialize (G2 T2).
  destruct (Z.le_gt_cases r k);
    [replace r with (k - 1) in G2 by lia | replace r with (k + 1) in G2 by lia];
    rewrite ?Z.even_sub, ?Z.even_add, H2 in G2; discriminate.
Qed.

Lemma rhe_le (m d K : Z) : 0 <= m -> 0 < d -> m < K * d -> round_half_even_div m d <= K.
Proof.
  intros Hm Hd HK.
  destruct (round_half_even_div_nearest m d Hm Hd) as [G _].
  set (r := round_half_even_div m d) in *.
  assert (r * d < K * d + d) by lia.
  assert (r < K + 1) by nia. lia.
Qed.

Lemma digits_le_53 (x : positive) : Zpos x < 2 ^ 53 -> Zpos (digits2_pos x) <= 53.
Proof.
  intros H. pose proof (digits2_pos_spec x) as [D _].
  destruct (Z.le_gt_cases (Zpos (digits2_pos x)) 53) as [|G]; [assumption|].
  assert (2 ^ 53 <= 2 ^ (Zpos (digits2_pos x) - 1)) by (apply Z.pow_le_mono_r; lia). lia.
Qed.

Lemma pos_iter_xO (m p : positive) : Zpos (Pos.iter xO m p) = Zpos m * 2 ^ Zpos p.
Proof.
  induction p using Pos.peano_ind.
  - cbn [Pos.iter]. rewrite Pos2Z.inj_xO. lia.
  - rewrite Pos.iter_succ, Pos2Z.inj_succ, Z.pow_succ_r by lia.
    rewrite (Pos2Z.inj_xO (Pos.iter xO m p)), IHp. ring.
Qed.

Lemma fexp64 (e : Z) : fexp prec64 emax64 e = Z.max (e - 53) (-1074).
Proof. reflexivity. Qed.

Lemma shr_fexp_noshift (x ex : Z) :
  fexp prec64 emax64 (Zdigits2 x + ex) - ex <= 0 ->
  shr_fexp prec64 emax64 x ex loc_Exact = (Build_shr_record x false false, ex).
Proof.
  intros H. unfold shr_fexp, shr. cbn [shr_record_of_loc].
  destruct (fexp prec64 emax64 (Zdigits2 x + ex) - ex) eqn:E; try reflexivity. lia.
Qed.

Lemma bra_small (sx : bool) (x : positive) (ex : Z) :
  Zpos x < 2 ^ 53 -> -1074 <= ex ->
  binary_round_aux prec64 emax64 sx (Zpos x) ex loc_Exact =
  if ex <=? 971 then S754_finite sx x ex else S754_infinity sx.
Proof.
  intros Hx He. pose proof (digits_le_53 x Hx).
  unfold binary_round_aux.
  rewrite shr_fexp_noshift by (rewrite fexp64; cbn [Zdigits2]; lia).
  cbn [shr_m loc_of_shr_record round_nearest_even].
  rewrite shr_fexp_noshift by (rewrite fexp64; cbn [Zdigits2]; lia).
  reflexivity.
Qed.

Lemma br_R_bounds (m : positive) (e : Z) : 0 <= br_R m e <= 2 ^ 53 /\ (br_f m e <= e -> 0 < br_R m e < 2 ^ 53).
Proof.
  unfold br_R, br_f. pose proof (digits2_pos_spec m) as [D1 D2].
  set (d := Zpos (digits2_pos m)) in *. set (f := Z.max (d + e - 53) (-1074)).
  destruct (Z.leb_spec f e).
  - assert (2 ^ d * 2 ^ (e - f) <= 2 ^ 53) by
      (rewrite <- Z.pow_add_r by lia; apply Z.pow_le_mono_r; lia).
    assert (0 < 2 ^ (e - f)) by (apply Z.pow_pos_nonneg; lia).
    split; [split|intros]; nia.
  - assert (P : 0 < 2 ^ (f - e)) by (apply Z.pow_pos_nonneg; lia).
    split; [split|intros; lia].
    + apply round_half_even_div_nonneg; lia.
    + apply rhe_le; [lia|lia|].
      assert (2 ^ d <= 2 ^ 53 * 2 ^ (f - e)) by
        (rewrite <- Z.pow_add_r by lia; apply Z.pow_le_mono_r; lia). lia.
Qed.

Lemma binary_round_spec (sx : bool) (m : positive) (e : Z) :
  binary_round prec64 emax64 sx m e = br_result sx (br_R m e) (br_f m e).
Proof.
  pose proof (br_R_bounds m e) as [RB RB2].
  unfold binary_round. rewrite fexp64.
  pose proof (digits2_pos_spec m) as [D1 D2].
  unfold br_R, br_f in *.
  set (d := Zpos (digits2_pos m)) in *. set (f := Z.max (d + e - 53) (-1074)) in *.
  assert (Hf : -1074 <= f) by lia.
  unfold shl_align.
  destruct (f - e) as [|p|p] eqn:Efe.
  - (* f = e *)
    replace (f <=? e) with true in * by (symmetry; apply Z.leb_le; lia).
    specialize (RB2 ltac:(lia)).
    replace (e - f) with 0 in * by lia. rewrite Z.pow_0_r, Z.mul_1_r in *.
    rewrite bra_small by lia.
    unfold br_result. replace (Zpos m =? 0) with false by reflexivity.
    replace (Zpos m <? 2 ^ 53) with true by (symmetry; apply Z.ltb_lt; lia).
    replace f with e by lia. reflexivity.
  - (* f > e: rounding *)
    replace (f <=? e) with false in * by (symmetry; apply Z.leb_gt; lia).
    try rewrite Efe in *. clear RB2.
    unfold binary_round_aux, shr_fexp at 1. cbn [shr_record_of_loc Zdigits2].
    fold d. rewrite fexp64. fold f. rewrite Efe. unfold shr.
    rewrite iter_pos_nat. destruct (Pos2Nat.is_succ p) as [k Hk]. rewrite Hk.
    rewrite rne_shr by lia.
    replace (Z.of_nat (S k)) with (Zpos p) by (rewrite <- Hk; symmetry; apply positive_nat_Z).
    replace (e + Zpos p) with f by lia.
    set (R := round_half_even_div (Zpos m) (2 ^ Zpos p)) in *.
    unfold br_result.
    destruct (Z.eqb_spec R 0) as [R0|R0].
    + rewrite R0. rewrite shr_fexp_noshift by (rewrite fexp64; cbn [Zdigits2]; lia). reflexivity.
    + destruct (Z.ltb_spec R (2 ^ 53)) as [Rl|Rl].
      * destruct R as [|r|r]; [lia| |lia].
        pose proof (digits_le_53 r Rl).
        rewrite shr_fexp_noshift by (rewrite fexp64; cbn [Zdigits2]; lia). reflexivity.
      * assert (R2 : R = 2 ^ 53) by lia. rewrite R2.
        unfold shr_fexp. rewrite fexp64. cbn [shr_record_of_loc].
        replace (Z.max (Zdigits2 (2 ^ 53) + f - 53) (-1074) - f) with 1
          by (change (Zdigits2 (2 ^ 53)) with 54; lia).
        reflexivity.
  - (* f < e: shift left *)
    replace (f <=? e) with true in * by (symmetry; apply Z.leb_le; lia).
    specialize (RB2 ltac:(lia)).
    replace (e - f) with (Zpos p) in * by lia.
    rewrite <- pos_iter_xO in RB2 |- *.
    rewrite bra_small by lia.
    unfold br_result.
    replace (Zpos (Pos.iter xO m p) =? 0) with false by reflexivity.
    replace (Zpos (Pos.iter xO m p) <? 2 ^ 53) with true by (symmetry; apply Z.ltb_lt; lia).
    reflexivity.
Qed.

Lemma rhe_scale (a b c : Z) : 0 <= a -> 0 < b -> 0 < c ->
  round_half_even_div (a * c) (b * c) = round_half_even_div a b.
Proof.
  intros Ha Hb Hc.
  destruct (round_half_even_div_nearest a b Ha Hb) as [G1 G2].
  apply rhe_unique; [nia|nia| |].
  - replace (a * c - round_half_even_div a b * (b * c)) with ((a - round_half_even_div a b * b) * c) by ring.
    rewrite Z.abs_mul, (Z.abs_eq c) by lia. nia.
  - replace (a * c - round_half_even_div a b * (b * c)) with ((a - round_half_even_div a b * b) * c) by ring.
    rewrite Z.abs_mul, (Z.abs_eq c) by lia. intros E. apply G2. nia.
Qed.

Lemma rhe_exact (x L : Z) : 0 <= x -> 0 <= L -> round_half_even_div (x * 2 ^ L) (2 ^ L) = x.
Proof.
  intros Hx HL. assert (0 < 2 ^ L) by (apply Z.pow_pos_nonneg; lia).
  apply rhe_unique; [nia|lia| |]; rewrite Z.sub_diag; cbn; lia.
Qed.

Lemma pyround_scaled (M : positive) (E L : Z) : 0 <= L -> 0 <= E + L ->
  pyround_float (S754_finite false M E) = Ok (round_half_even_div (Zpos M * 2 ^ (E + L)) (2 ^ L)).
Proof.
  intros HL HEL. unfold pyround_float. f_equal.
  destruct (Z.leb_spec 0 E).
  - rewrite Z.pow_add_r, Z.mul_assoc, rhe_exact by (try apply Z.mul_nonneg_nonneg; try apply Z.pow_nonneg; lia).
    reflexivity.
  - rewrite <- (rhe_scale (Zpos M) (2 ^ (- E)) (2 ^ (E + L))) by (try apply Z.pow_pos_nonneg; lia).
    rewrite <- Z.pow_add_r by lia. replace (- E + (E + L)) with L by lia. reflexivity.
Qed.

Lemma SFabs_br_result (sx : bool) (R f : Z) : SFabs (br_result sx R f) = br_result false R f.
Proof.
  unfold br_result. destruct (R =? 0); [reflexivity|].
  destruct (R <? 2 ^ 53); [destruct (f <=? 971)|destruct (f + 1 <=? 971)]; reflexivity.
Qed.

Lemma pyround_br_result (R f : Z) : 0 <= R <= 2 ^ 53 -> -1101 <= f ->
  pyround_float (br_result false R f) = Ok (round_half_even_div (R * 2 ^ (f + 1101)) (2 ^ 1101)) \/
  br_result false R f = S754_infinity false.
Proof.
  intros HR Hf. unfold br_result.
  destruct (Z.eqb_spec R 0) as [R0|R0].
  - left. subst R. cbn [pyround_float]. rewrite Z.mul_0_l. unfold round_half_even_div. reflexivity.
  - destruct (Z.ltb_spec R (2 ^ 53)).
    + destruct (f <=? 971); [left|right; reflexivity].
      rewrite (pyround_scaled (Z.to_pos R) f 1101) by lia. rewrite Z2Pos.id by lia. reflexivity.
    + destruct (f + 1 <=? 971); [left|right; reflexivity].
      rewrite (pyround_scaled (Z.to_pos (2 ^ 52)) (f + 1) 1101) by lia.
      replace R with (2 ^ 53) by lia. change (Zpos (Z.to_pos (2 ^ 52))) with (2 ^ 52).
      replace (f + 1 + 1101) with (1 + (f + 1101)) by lia.
      rewrite Z.pow_add_r by lia. f_equal. f_equal. ring.
Qed.

Lemma quotient_round_core (N D P q r m S X : Z) :
  0 < N < 2 ^ 52 -> 0 < D -> 2 ^ 1080 <= P -> P mod 2 = 0 ->
  N * P = q * D + r -> 0 <= r < D ->
  m = 2 * q + (if r =? 0 then 0 else 1) ->
  0 < S -> 0 <= X -> 2 * Z.abs (m - X) <= S ->
  (2 ^ 52 * S <= m \/ S = 2 ^ 27) ->
  P mod S = 0 -> (m mod S = 0 -> X = m) ->
  round_half_even_div X (2 * P) = round_half_even_div N D.
Proof.
  intros HN HD HP Pev Hq Hr Hm HS HX HXm HSm PS Hex.
  destruct (round_half_even_div_nearest N D ltac:(lia) HD) as [G1 G2].
  set (k := round_half_even_div N D) in *.
  assert (Hq0 : 0 <= q) by nia.
  assert (Main : 2 * Z.abs (X - k * (2 * P)) < 2 * P \/
                 (2 * Z.abs (N - k * D) = D /\ 2 * Z.abs (X - k * (2 * P)) = 2 * P)).
  { destruct (Z.eq_dec (2 * Z.abs (N - k * D)) D) as [Tie|NT].
    - (* the exact quotient is a half-integer: no rounding error *)
      right. split; [exact Tie|].
      assert (Hj : exists j, 2 * N = j * D /\ (j = 2 * k + 1 \/ j = 2 * k - 1)).
      { destruct (Z.abs_spec (N - k * D)) as [[_ A]|[_ A]]; rewrite A in Tie;
          [exists (2 * k + 1)|exists (2 * k - 1)]; split; lia. }
      destruct Hj as [j [Hj Hjk]].
      assert (HP2' : exists P', P = 2 * P') by (exists (P / 2); pose proof (Z.div_mod P 2); lia).
      destruct HP2' as [P' HP2].
      assert (Hqr : q = j * P' /\ r = 0).
      { assert (E1 : N * P = j * D * P') by
          (rewrite HP2; replace (N * (2 * P')) with ((2 * N) * P') by ring; rewrite Hj; ring).
        assert (E2 : (q - j * P') * D = - r) by
          (replace ((q - j * P') * D) with (q * D - j * D * P') by ring; lia).
        assert (E3 : q - j * P' = 0).
        { destruct (Z.lt_total (q - j * P') 0) as [L|[L|L]];
            [assert ((q - j * P') * D <= -1 * D) by (apply Z.mul_le_mono_nonneg_r; lia)
            |exact L
            |assert (1 * D <= (q - j * P') * D) by (apply Z.mul_le_mono_nonneg_r; lia)]; lia. }
        rewrite E3 in E2. split; lia. }
      destruct Hqr as [-> ->]. rewrite Z.eqb_refl in Hm.
      assert (Em : m = j * P) by (rewrite Hm, HP2; ring).
      assert (X = m) as -> by (apply Hex; rewrite Em, Z.mul_comm, <- Zmult_mod_idemp_l, PS; reflexivity).
      rewrite Em. destruct Hjk as [->| ->];
        [replace ((2 * k + 1) * P - k * (2 * P)) with P by ring
        |replace ((2 * k - 1) * P - k * (2 * P)) with (- P) by ring]; lia.
    - left.
      assert (NT' : 2 * Z.abs (N - k * D) <= D - 1) by lia.
      set (st := if r =? 0 then 0 else 1) in *.
      assert (Hst1 : 0 <= st <= 1) by (subst st; destruct (r =? 0); lia).
      assert (Hst : Z.abs (st * D - 2 * r) <= D) by
        (subst st; destruct (Z.eqb_spec r 0); [subst r; rewrite Z.mul_0_l; cbn; lia|
         rewrite Z.mul_1_l; apply Z.abs_le; lia]).
      assert (HmD : D * m <= 2 * (N * P) + D).
      { assert (D * st <= D * 1) by (apply Z.mul_le_mono_nonneg_l; lia).
        rewrite Hm. lia. }
      assert (Hm0 : 0 <= m) by lia.
      assert (HNP : N * P <= (2 ^ 52 - 1) * P) by (apply Z.mul_le_mono_nonneg_r; lia).
      destruct (Z.le_gt_cases D (2 * N)) as [Dsmall|Dlarge].
      + set (A := m - k * (2 * P)).
        assert (HA : A * D = 2 * (N - k * D) * P - (2 * r - st * D)) by (subst A; rewrite Hm; ring_simplify; lia).
        assert (HAD : Z.abs A * D <= (D - 1) * P + D).
        { rewrite <- (Z.abs_eq D) at 1 by lia. rewrite <- Z.abs_mul, HA.
          assert (Z.abs (2 * (N - k * D) * P) <= (D - 1) * P).
          { rewrite !Z.abs_mul, (Z.abs_eq P) by lia. apply Z.mul_le_mono_nonneg_r; lia. }
          assert (Z.abs (2 * r - st * D) <= D) by (rewrite <- Z.abs_opp; replace (- (2 * r - st * D)) with (st * D - 2 * r) by ring; exact Hst).
          lia. }
        set (B := Z.abs (m - X)).
        assert (Tri : Z.abs (X - k * (2 * P)) <= B + Z.abs A) by (subst A B; lia).
        assert (HBD : D * (2 * B) <= D * S) by (apply Z.mul_le_mono_nonneg_l; lia).
        assert (B + Z.abs A < P); [|lia].
        destruct (Z.lt_ge_cases (B + Z.abs A) P) as [|Hc]; [assumption|exfalso].
        assert (HPD : P * D <= (B + Z.abs A) * D) by (apply Z.mul_le_mono_nonneg_r; lia).
        destruct HSm as [HSm|HSm].
        * assert (2 ^ 52 * S * D <= m * D) by (apply Z.mul_le_mono_nonneg_r; lia).
          lia.
        * rewrite HSm in HBD. lia.
      + assert (Hk : k = 0).
        { destruct (Z.lt_total k 0) as [L|[L|L]]; [|exact L|].
          - assert (k * D <= -1 * D) by (apply Z.mul_le_mono_nonneg_r; lia). lia.
          - assert (1 * D <= k * D) by (apply Z.mul_le_mono_nonneg_r; lia). lia. }
        rewrite Hk, Z.mul_0_l, Z.sub_0_r, Z.abs_eq by lia.
        assert (Hm1 : (m - 1) * (2 * N + 1) <= 2 * (N * P)).
        { destruct (Z.le_gt_cases 1 m).
          - assert ((m - 1) * (2 * N + 1) <= (m - 1) * D) by (apply Z.mul_le_mono_nonneg_l; lia). lia.
          - assert (m = 0) as -> by lia. lia. }
        assert (X < P); [|lia].
        destruct (Z.lt_ge_cases X P) as [|Hc]; [assumption|exfalso].
        assert (HPN : P * (2 * N + 1) <= X * (2 * N + 1)) by (apply Z.mul_le_mono_nonneg_r; lia).
        destruct HSm as [HSm|HSm].
        * assert (H53 : 2 ^ 53 * X <= (2 ^ 53 + 1) * m) by lia.
          assert (2 ^ 53 * X * (2 * N + 1) <= (2 ^ 53 + 1) * m * (2 * N + 1))
            by (apply Z.mul_le_mono_nonneg_r; lia).
          lia.
        * assert (X <= m + 2 ^ 26) by lia.
          assert (X * (2 * N + 1) <= (m + 2 ^ 26) * (2 * N + 1))
            by (apply Z.mul_le_mono_nonneg_r; lia).
          lia. }
  apply rhe_unique; [lia|lia| |]; destruct Main as [Main|[T1 T2]]; try lia.
  intros _. apply G2. exact T1.
Qed.

Lemma br_result_finite_or_zero (sx : bool) (R f : Z) :
  f + 1 <= 971 ->
  match br_result sx R f with S754_infinity _ => Exc OverflowError | x => Ok x end = Ok (br_result sx R f).
Proof.
  intros Hf. unfold br_result.
  destruct (R =? 0); [reflexivity|].
  destruct (R <? 2 ^ 53);
    [replace (f <=? 971) with true by (symmetry; apply Z.leb_le; lia)
    |replace (f + 1 <=? 971) with true by (symmetry; apply Z.leb_le; lia)]; reflexivity.
Qed.

Lemma py_int_truediv_round (a D : Z) : 0 < D -> Z.abs a < 2 ^ 52 ->
  exists fl, py_int_truediv a D = Ok fl /\
             pyround_float (SFabs fl) = Ok (round_half_even_div (Z.abs a) D).
Proof.
  intros HD Ha. unfold py_int_truediv.
  replace (D =? 0) with false by (symmetry; apply Z.eqb_neq; lia).
  rewrite (Z.abs_eq D) by lia. cbv zeta.
  set (P := 2 ^ 1100).
  assert (HP : 2 ^ 1080 <= P) by (apply Z.pow_le_mono_r; lia).
  assert (Pev : P mod 2 = 0) by reflexivity.
  set (neg := xorb (a <? 0) (D <? 0)).
  destruct (Z.eq_dec a 0) as [->|Ha0].
  - cbn [Z.abs]. rewrite Z.mul_0_l, Z.div_0_l, Z.mod_0_l by lia.
    assert (R0 : round_half_even_div 0 D = 0) by (apply rhe_unique; lia).
    rewrite R0. destruct neg; eexists; (split; [reflexivity|reflexivity]).
  - set (N := Z.abs a) in *.
    assert (HN : 0 < N) by lia.
    pose proof (Z.div_mod (N * P) D ltac:(lia)) as Hdm.
    pose proof (Z.mod_pos_bound (N * P) D HD) as Hr.
    set (q := N * P / D) in *. set (r := N * P mod D) in *.
    set (st := if r =? 0 then 0 else 1).
    assert (Hst : 0 <= st <= 1) by (subst st; destruct (r =? 0); lia).
    assert (Hq : 0 <= q <= N * P).
    { split; [apply Z.div_pos; lia|]. apply Z.div_le_upper_bound; [lia|].
      assert (1 * (N * P) <= D * (N * P)) by (apply Z.mul_le_mono_nonneg_r; lia). lia. }
    set (m := 2 * q + st).
    assert (Hm0 : 0 < m).
    { subst m st. destruct (Z.eqb_spec r 0); [|lia].
      assert (0 < N * P) by (apply Z.mul_pos_pos; lia). lia. }
    assert (HNP : N * P <= (2 ^ 52 - 1) * P) by (apply Z.mul_le_mono_nonneg_r; lia).
    assert (Hm1 : m < 2 ^ 53 * P) by lia.
    destruct m as [|mp|mp] eqn:Em; [lia| |lia].
    assert (Hnorm : binary_normalize prec64 emax64 (if neg then - Zpos mp else Zpos mp) (Z.opp 1100 - 1) neg
                    = br_result neg (br_R mp (-1101)) (br_f mp (-1101))).
    { rewrite <- binary_round_spec. destruct neg; reflexivity. }
    rewrite Hnorm.
    pose proof (digits2_pos_spec mp) as [D1 D2].
    set (d := Zpos (digits2_pos mp)) in *.
    assert (Hd : d <= 1153).
    { destruct (Z.le_gt_cases d 1153) as [|G]; [assumption|].
      assert (2 ^ 1153 <= 2 ^ (d - 1)) by (apply Z.pow_le_mono_r; lia).
      assert (2 ^ 1153 = 2 ^ 53 * P) by (subst P; rewrite <- Z.pow_add_r by lia; reflexivity). lia. }
    assert (Hf : br_f mp (-1101) = Z.max (d - 1154) (-1074)) by (unfold br_f; fold d; f_equal; lia).
    rewrite br_result_finite_or_zero by lia.
    eexists; split; [reflexivity|].
    rewrite SFabs_br_result.
    pose proof (br_R_bounds mp (-1101)) as [RB _].
    destruct (pyround_br_result (br_R mp (-1101)) (br_f mp (-1101)) RB ltac:(lia)) as [->|Hinf].
    2:{ exfalso. revert Hinf. unfold br_result.
        destruct (br_R mp (-1101) =? 0); [intros Hc; discriminate Hc|].
        destruct (br_R mp (-1101) <? 2 ^ 53);
          [replace (br_f mp (-1101) <=? 971) with true by (symmetry; apply Z.leb_le; lia)
          |replace (br_f mp (-1101) + 1 <=? 971) with true by (symmetry; apply Z.leb_le; lia)];
          intros Hc; discriminate Hc. }
    f_equal.
    set (s := br_f mp (-1101) + 1101).
    assert (Hs : 27 <= s <= 1100) by lia.
    assert (HS : 0 < 2 ^ s) by (apply Z.pow_pos_nonneg; lia).
    assert (HR : br_R mp (-1101) = round_half_even_div (Zpos mp) (2 ^ s)).
    { unfold br_R. fold (br_f mp (-1101)). fold d.
      replace (Z.max (d + -1101 - 53) (-1074)) with (br_f mp (-1101)) by (rewrite Hf; lia).
      replace (br_f mp (-1101) <=? -1101) with false by (symmetry; apply Z.leb_gt; lia).
      replace (br_f mp (-1101) - -1101) with s by (subst s; lia). reflexivity. }
    rewrite HR.
    change (2 ^ 1101) with (2 * P).
    destruct (round_half_even_div_nearest (Zpos mp) (2 ^ s) ltac:(lia) HS) as [G1 _].
    assert (F1 : 0 <= round_half_even_div (Zpos mp) (2 ^ s) * 2 ^ s)
      by (apply Z.mul_nonneg_nonneg; [apply round_half_even_div_nonneg; lia|lia]).
    assert (F2 : 2 ^ 52 * 2 ^ s <= Zpos mp \/ 2 ^ s = 2 ^ 27).
    { destruct (Z.le_gt_cases (-1074) (d - 1154)).
      - left. replace s with (d - 53) by (subst s; lia).
        rewrite <- Z.pow_add_r by lia. replace (52 + (d - 53)) with (d - 1) by lia. lia.
      - right. replace s with 27 by (subst s; lia). reflexivity. }
    assert (F3 : P mod 2 ^ s = 0).
    { subst P. replace 1100 with ((1100 - s) + s) by lia.
      rewrite Z.pow_add_r by lia. apply Z.mod_mul. lia. }
    assert (F4 : Zpos mp mod 2 ^ s = 0 -> round_half_even_div (Zpos mp) (2 ^ s) * 2 ^ s = Zpos mp).
    { intros Hmod.
      assert (Em' : Zpos mp = (Zpos mp / 2 ^ s) * 2 ^ s) by (pose proof (Z.div_mod (Zpos mp) (2 ^ s)); lia).
      rewrite Em' at 1. rewrite rhe_exact by (try apply Z.div_pos; lia). lia. }
    apply (quotient_round_core N D P q r (Zpos mp) (2 ^ s)); try assumption; try lia.
Qed.
(** ** Rounding errors in units of [2^-1101] *)

Lemma cond_Zopp_abs (s : bool) (a b : Z) : Z.abs (cond_Zopp s a - cond_Zopp s b) = Z.abs (a - b).
Proof. destruct s; cbn [cond_Zopp]; lia. Qed.

Lemma br_result_err (sx : bool) (m : positive) (E K : Z) :
  -1101 <= E -> -1021 <= K <= 970 -> Zpos m * 2 ^ (E + 1101) < 2 ^ (K + 1101) ->
  fgood (br_result sx (br_R m E) (br_f m E)) /\
  2 * Z.abs (fval (br_result sx (br_R m E) (br_f m E)) - cond_Zopp sx (Zpos m * 2 ^ (E + 1101)))
    <= 2 ^ (K + 1048).
Proof.
  intros HE HK Hm.
  pose proof (br_R_bounds m E) as [RB RB2].
  pose proof (digits2_pos_spec m) as [D1 D2].
  unfold br_R, br_f in *.
  set (d := Zpos (digits2_pos m)) in *. set (f := Z.max (d + E - 53) (-1074)) in *.
  assert (Hd : d - 1 + E < K).
  { assert (2 ^ (d - 1 + E + 1101) < 2 ^ (K + 1101)).
    { replace (d - 1 + E + 1101) with ((d - 1) + (E + 1101)) by lia.
      rewrite Z.pow_add_r by lia.
      assert (2 ^ (d - 1) * 2 ^ (E + 1101) <= Zpos m * 2 ^ (E + 1101))
        by (apply Z.mul_le_mono_nonneg_r; [apply Z.pow_nonneg|]; lia). lia. }
    apply Z.pow_lt_mono_r_iff in H; lia. }
  assert (Hf : -1074 <= f <= K - 53) by lia.
  set (R := if f <=? E then Zpos m * 2 ^ (E - f) else round_half_even_div (Zpos m) (2 ^ (f - E))) in *.
  (* the rounded value, before the sign *)
  assert (Herr : 2 * Z.abs (R * 2 ^ (f + 1101) - Zpos m * 2 ^ (E + 1101)) <= 2 ^ (f + 1101)).
  { subst R. destruct (Z.leb_spec f E).
    - rewrite <- Z.mul_assoc, <- Z.pow_add_r by lia.
      replace (E - f + (f + 1101)) with (E + 1101) by lia. rewrite Z.sub_diag.
      cbn. apply Z.pow_nonneg; lia.
    - assert (P : 0 < 2 ^ (f - E)) by (apply Z.pow_pos_nonneg; lia).
      destruct (round_half_even_div_nearest (Zpos m) (2 ^ (f - E)) ltac:(lia) P) as [G _].
      set (r := round_half_even_div (Zpos m) (2 ^ (f - E))) in *.
      replace (2 ^ (f + 1101)) with (2 ^ (f - E) * 2 ^ (E + 1101)) by (rewrite <- Z.pow_add_r by lia; f_equal; lia).
      replace (r * (2 ^ (f - E) * 2 ^ (E + 1101)) - Zpos m * 2 ^ (E + 1101))
        with ((r * 2 ^ (f - E) - Zpos m) * 2 ^ (E + 1101)) by ring.
      rewrite Z.abs_mul, (Z.abs_eq (2 ^ (E + 1101))) by (apply Z.pow_nonneg; lia).
      rewrite Z.mul_assoc. apply Z.mul_le_mono_nonneg_r; [apply Z.pow_nonneg; lia|].
      rewrite <- Z.abs_opp. replace (- (r * 2 ^ (f - E) - Zpos m)) with (Zpos m - r * 2 ^ (f - E)) by ring.
      exact G. }
  assert (Hfk : 2 ^ (f + 1101) <= 2 ^ (K + 1048)) by (apply Z.pow_le_mono_r; lia).
  assert (Hval : fgood (br_result sx R f) /\ fval (br_result sx R f) = cond_Zopp sx (R * 2 ^ (f + 1101))).
  { unfold br_result. destruct (Z.eqb_spec R 0) as [R0|R0].
    - rewrite R0. split; [exact I|]. destruct sx; reflexivity.
    - destruct (Z.ltb_spec R (2 ^ 53)).
      + replace (f <=? 971) with true by (symmetry; apply Z.leb_le; lia).
        cbn [fgood fval]. rewrite Z2Pos.id by lia. split; [lia|reflexivity].
      + replace (f + 1 <=? 971) with true by (symmetry; apply Z.leb_le; lia).
        cbn [fgood fval]. split; [lia|]. f_equal.
        replace R with (2 ^ 53) by lia. change (Zpos (Z.to_pos (2 ^ 52))) with (2 ^ 52).
        replace (f + 1 + 1101) with (1 + (f + 1101)) by lia.
        rewrite Z.pow_add_r by lia. ring. }
  destruct Hval as [G V]. split; [exact G|]. rewrite V, cond_Zopp_abs. lia.
Qed.

Lemma binary_normalize_err (M E K : Z) (sz : bool) :
  -1101 <= E -> -1021 <= K <= 970 -> Z.abs M * 2 ^ (E + 1101) < 2 ^ (K + 1101) ->
  fgood (binary_normalize prec64 emax64 M E sz) /\
  2 * Z.abs (fval (binary_normalize prec64 emax64 M E sz) - M * 2 ^ (E + 1101)) <= 2 ^ (K + 1048).
Proof.
  intros HE HK HM. destruct M as [|m|m]; cbn [binary_normalize].
  - split; [exact I|]. cbn. apply Z.pow_nonneg; lia.
  - rewrite binary_round_spec. apply (br_result_err false m E K); assumption.
  - rewrite binary_round_spec. cbn [Z.abs] in HM.
    replace (Zneg m * 2 ^ (E + 1101)) with (cond_Zopp true (Zpos m * 2 ^ (E + 1101))) by (cbn [cond_Zopp]; change (Zneg m) with (- Zpos m); ring).
    apply br_result_err; assumption.
Qed.

Lemma shl_align_val (m : positive) (e e' : Z) : -1101 <= e' <= e ->
  Zpos (fst (shl_align m e e')) * 2 ^ (e' + 1101) = Zpos m * 2 ^ (e + 1101) /\ snd (shl_align m e e') = e'.
Proof.
  intros H. unfold shl_align. destruct (e' - e) as [|p|p] eqn:Ep.
  - split; [cbn [fst]; f_equal; f_equal; lia|cbn; lia].
  - lia.
  - rewrite <- Pos2Z.opp_pos in Ep. cbn [fst snd]. rewrite pos_iter_xO. split; [|reflexivity].
    rewrite <- Z.mul_assoc, <- Z.pow_add_r by lia. f_equal. f_equal. lia.
Qed.

Lemma SFadd_err (x y : spec_float) (K : Z) :
  fgood x -> fgood y -> -1021 <= K <= 970 -> Z.abs (fval x + fval y) < 2 ^ (K + 1101) ->
  fgood (SFadd prec64 emax64 x y) /\
  2 * Z.abs (fval (SFadd prec64 emax64 x y) - (fval x + fval y)) <= 2 ^ (K + 1048).
Proof.
  intros Gx Gy HK Hs.
  assert (P : 0 <= 2 ^ (K + 1048)) by (apply Z.pow_nonneg; lia).
  destruct x as [sx|sx| |sx mx ex]; try contradiction;
  destruct y as [sy|sy| |sy my ey]; try contradiction; cbn [SFadd].
  - destruct sx, sy; cbn; split; (exact I || lia).
  - cbn [fval] in *. split; [exact Gy|]. rewrite Z.add_0_l, Z.sub_diag. cbn. lia.
  - cbn [fval] in *. split; [exact Gx|]. rewrite Z.add_0_r, Z.sub_diag. cbn. lia.
  - cbn [fgood fval] in *.
    set (ez := Z.min ex ey).
    destruct (shl_align_val mx ex ez ltac:(lia)) as [Ax _].
    destruct (shl_align_val my ey ez ltac:(lia)) as [Ay _].
    set (M := cond_Zopp sx (Zpos (fst (shl_align mx ex ez))) + cond_Zopp sy (Zpos (fst (shl_align my ey ez)))).
    assert (HM : M * 2 ^ (ez + 1101) = cond_Zopp sx (Zpos mx * 2 ^ (ex + 1101)) + cond_Zopp sy (Zpos my * 2 ^ (ey + 1101))).
    { subst M. rewrite <- Ax, <- Ay. destruct sx, sy; cbn [cond_Zopp]; ring. }
    assert (Hez : -1101 <= ez) by lia.
    destruct (binary_normalize_err M ez K false Hez HK) as [G E].
    + assert (0 <= 2 ^ (ez + 1101)) by (apply Z.pow_nonneg; lia).
      rewrite <- (Z.abs_eq (2 ^ (ez + 1101))) by assumption. rewrite <- Z.abs_mul, HM. exact Hs.
    + split; [exact G|]. rewrite <- HM. exact E.
Qed.

Lemma py_int_truediv_err (a n : Z) : 0 < n -> Z.abs a <= n ->
  exists fl, py_int_truediv a n = Ok fl /\ fgood fl /\
             Z.abs (n * fval fl - a * 2 ^ 1101) <= n * 2 ^ 1049.
Proof.
  intros Hn Ha. unfold py_int_truediv.
  replace (n =? 0) with false by (symmetry; apply Z.eqb_neq; lia).
  rewrite (Z.abs_eq n) by lia. cbv zeta.
  replace (n <? 0) with false by (symmetry; apply Z.ltb_ge; lia). rewrite xorb_false_r.
  set (P := 2 ^ 1100).
  set (N := Z.abs a).
  pose proof (Z.div_mod (N * P) n ltac:(lia)) as Hdm.
  pose proof (Z.mod_pos_bound (N * P) n Hn) as Hr.
  set (q := N * P / n) in *. set (r := N * P mod n) in *.
  set (st := if r =? 0 then 0 else 1).
  assert (Hst : Z.abs (n * st - 2 * r) <= n) by
    (subst st; destruct (Z.eqb_spec r 0); [rewrite e, Z.mul_0_r; cbn; lia|rewrite Z.mul_1_r; apply Z.abs_le; lia]).
  assert (Hst1 : 0 <= st <= 1) by (subst st; destruct (r =? 0); lia).
  set (m := 2 * q + st).
  assert (HNP : N * P <= n * P) by (apply Z.mul_le_mono_nonneg_r; [|lia]; unfold P; lia).
  assert (Hq : 0 <= q) by (apply Z.div_pos; [unfold P; lia|lia]).
  assert (Hqn : n * q <= n * P) by lia.
  assert (HqP : q <= P) by (apply Z.mul_le_mono_pos_l in Hqn; lia).
  set (M := if a <? 0 then - m else m).
  assert (HM : Z.abs M * 2 ^ (-1101 + 1101) < 2 ^ (1 + 1101)).
  { change (-1101 + 1101) with 0. rewrite Z.pow_0_r, Z.mul_1_r. subst M.
    replace (2 ^ (1 + 1101)) with (4 * P) by (unfold P; reflexivity).
    destruct (a <? 0); lia. }
  destruct (binary_normalize_err M (-1101) 1 (a <? 0) ltac:(lia) ltac:(lia) HM) as [G E].
  change (Z.opp 1100 - 1) with (-1101). fold M.
  change (-1101 + 1101) with 0 in E; rewrite Z.pow_0_r, Z.mul_1_r in E; change (1 + 1048) with 1049 in E.
  set (fl := binary_normalize prec64 emax64 M (-1101) (a <? 0)) in *.
  assert (Hnm : Z.abs (n * M - a * 2 ^ 1101) <= n) by
    (replace (2 ^ 1101) with (2 * P) by (unfold P; reflexivity);
     subst M m; destruct (Z.ltb_spec a 0); subst N;
     [rewrite Z.abs_neq in Hdm by lia|rewrite Z.abs_eq in Hdm by lia]; lia).
  assert (Hne : 2 * Z.abs (n * fval fl - n * M) <= n * 2 ^ 1049) by
    (rewrite <- Z.mul_sub_distr_l, Z.abs_mul, (Z.abs_eq n) by lia;
     replace (2 * (n * Z.abs (fval fl - M))) with (n * (2 * Z.abs (fval fl - M))) by ring;
     apply Z.mul_le_mono_nonneg_l; lia).
  assert (Hfin : Z.abs (n * fval fl - a * 2 ^ 1101) <= n * 2 ^ 1049) by lia.
  clearbody fl. destruct fl as [s|s| |s mf ef]; try contradiction;
    eexists; (split; [reflexivity|split; assumption]).
Qed.

Lemma py_float_of_int_err (s : Z) : Z.abs s <= 2 ^ 24 ->
  exists fl, py_float_of_int s = Ok fl /\ fgood fl /\ 2 * Z.abs (fval fl - s * 2 ^ 1101) <= 2 ^ 1073.
Proof.
  intros Hs. unfold py_float_of_int, float_of_Z, f64.
  assert (HM : Z.abs s * 2 ^ (0 + 1101) < 2 ^ (25 + 1101)).
  { rewrite (Z.pow_add_r 2 25 1101) by lia. cbn [Z.add].
    assert (2 ^ 24 < 2 ^ 25) by (apply Z.pow_lt_mono_r; lia).
    apply Z.mul_lt_mono_pos_r; [apply Z.pow_pos_nonneg|]; lia. }
  destruct (binary_normalize_err s 0 25 false ltac:(lia) ltac:(lia) HM) as [G E].
  destruct (binary_normalize prec64 emax64 s 0 false) as [x|x| |x mf ef];
    try contradiction; eexists; (split; [reflexivity|split; [assumption|exact E]]).
Qed.

Lemma stepper_eps_val : fgood stepper_eps /\ 0 <= fval stepper_eps <= 2 ^ 1068.
Proof. vm_compute. split; [discriminate|split; discriminate]. Qed.

Lemma pyround_good (f : spec_float) : fgood f -> exists z, pyround_float f = Ok z.
Proof. destruct f; cbn [fgood]; try contradiction; intros _; eexists; reflexivity. Qed.

Lemma pyround_near (f : spec_float) (z : Z) :
  fgood f -> 2 * Z.abs (fval f - z * 2 ^ 1101) < 2 ^ 1101 -> pyround_float f = Ok z.
Proof.
  intros G H. assert (T : 0 < 2 ^ 1101) by reflexivity.
  destruct f as [s|s| |s m e]; try contradiction.
  - cbn [fval] in H. cbn [pyround_float]. f_equal.
    destruct (Z.eq_dec z 0) as [|Hz]; [congruence|].
    assert (1 * 2 ^ 1101 <= Z.abs z * 2 ^ 1101) by (apply Z.mul_le_mono_nonneg_r; lia).
    rewrite Z.sub_0_l, Z.abs_opp, Z.abs_mul, (Z.abs_eq (2 ^ 1101)) in H by lia. lia.
  - cbn [fgood fval] in G, H.
    assert (Hp : pyround_float (S754_finite s m e) =
                 pybind (pyround_float (S754_finite false m e)) (fun v => Ok (cond_Zopp s v)))
      by (destruct s; reflexivity).
    rewrite Hp, (pyround_scaled m e 1101) by lia. cbn [pybind]. f_equal.
    assert (X0 : 0 <= Zpos m * 2 ^ (e + 1101)) by (apply Z.mul_nonneg_nonneg; [lia|apply Z.pow_nonneg; lia]).
    destruct s; cbn [cond_Zopp] in H |- *.
    + rewrite (rhe_unique (Zpos m * 2 ^ (e + 1101)) (2 ^ 1101) (- z)); [lia|lia|lia|lia|lia].
    + apply rhe_unique; lia.
Qed.


Lemma pyround_float_finite_neg_exp (s : bool) (m : positive) (e : Z) :
  e < 0 ->
  exists r, pyround_float (S754_finite s m e) = Ok r /\
    2 * Z.abs (signed_mant s m - r * 2 ^ (- e)) <= 2 ^ (- e) /\
    (2 * Z.abs (signed_mant s m - r * 2 ^ (- e)) = 2 ^ (- e) -> Z.even r = true).
Proof.
  intros He.
  assert (Hd : 0 < 2 ^ (- e)) by (apply Z.pow_pos_nonneg; lia).
  destruct (round_half_even_div_nearest (Zpos m) (2 ^ (- e)) ltac:(lia) Hd) as [H1 H2].
  unfold pyround_float. destruct (0 <=? e) eqn:E; [apply Z.leb_le in E; lia|].
  destruct s; unfold signed_mant.
  - eexists; split; [reflexivity|].
    set (r := round_half_even_div (Zpos m) (2 ^ (- e))) in *.
    replace (- Zpos m - - r * 2 ^ (- e)) with (- (Zpos m - r * 2 ^ (- e))) by ring.
    rewrite Z.abs_opp, Z.even_opp. split; assumption.
  - eexists; split; [reflexivity|]. split; assumption.
Qed.

Lemma land255_range (z : Z) : (0 <=? Z.land z 255) && (Z.land z 255 <? 256) = true.
Proof.
  change (Z.land z 255) with (Z.land z (Z.ones 8)).
  rewrite (Z.land_ones z 8) by lia.
  pose proof (Z.mod_pos_bound z (2 ^ 8) ltac:(lia)).
  change (2 ^ 8) with 256 in *.
  apply andb_true_intro; split; [apply Z.leb_le|apply Z.ltb_lt]; lia.
Qed.

Lemma pack2b_int (z : Z) : pack2b (PInt z) = Ok [129; Z.land z 255].
Proof.
  unfold pack2b, py_bytes, pybind, pyround, forallb. rewrite land255_range. reflexivity.
Qed.

Lemma pack5b_int (z : Z) :
  pack5b (PInt z) = Ok [131; Z.land z 255; Z.land (Z.shiftr z 8) 255;
                        Z.land (Z.shiftr z 16) 255; Z.land (Z.shiftr z 24) 255].
Proof.
  unfold pack5b, py_bytes, pybind, pyround, forallb.
  rewrite !land255_range. reflexivity.
Qed.

(** ** C4: rounding mode of the operand encoders *)

(** C4 (amended).  Each of the four encoders [pack1b], [pack2b], [pack3b],
    [pack5b] first applies Python's [round]: a float input [x] (sign [s],
    mantissa [m], exponent [e < 0], value [(-1)^s m 2^e]) is replaced by the
    nearest integer [r], and at an exact tie by the even neighbour (so
    [2.5 -> 2], [3.5 -> 4], [-2.5 -> -2]); the encoder's output on [x] is its
    output on the int [r]. *)
Theorem encoders_round_ties_to_even (s : bool) (m : positive) (e : Z) (He : e < 0) :
  exists r,
    pyround (PFloat (S754_finite s m e)) = Ok r /\
    2 * Z.abs (signed_mant s m - r * 2 ^ (- e)) <= 2 ^ (- e) /\
    (2 * Z.abs (signed_mant s m - r * 2 ^ (- e)) = 2 ^ (- e) -> Z.even r = true) /\
    pack1b (PFloat (S754_finite s m e)) = pack1b (PInt r) /\
    pack2b (PFloat (S754_finite s m e)) = pack2b (PInt r) /\
    pack3b (PFloat (S754_finite s m e)) = pack3b (PInt r) /\
    pack5b (PFloat (S754_finite s m e)) = pack5b (PInt r).
Proof.
  destruct (pyround_float_finite_neg_exp s m e He) as (r & Hr & H1 & H2).
  exists r.
  assert (Hp : pyround (PFloat (S754_finite s m e)) = Ok r) by exact Hr.
  unfold pack1b, pack2b, pack3b, pack5b. rewrite Hp.
  repeat split; assumption.
Qed.

(** Instance of C4 at the double [2.5]. *)
Lemma encoders_round_ties_to_even_witness :
  -51 < 0 /\
  exists r,
    pyround (PFloat (S754_finite false 5629499534213120 (-51))) = Ok r /\
    2 * Z.abs (signed_mant false 5629499534213120 - r * 2 ^ 51) <= 2 ^ 51 /\
    (2 * Z.abs (signed_mant false 5629499534213120 - r * 2 ^ 51) = 2 ^ 51 -> Z.even r = true) /\
    pack1b (PFloat (S754_finite false 5629499534213120 (-51))) = pack1b (PInt r) /\
    pack2b (PFloat (S754_finite false 5629499534213120 (-51))) = pack2b (PInt r) /\
    pack3b (PFloat (S754_finite false 5629499534213120 (-51))) = pack3b (PInt r) /\
    pack5b (PFloat (S754_finite false 5629499534213120 (-51))) = pack5b (PInt r).
Proof.
  split; [lia|].
  exact (encoders_round_ties_to_even false 5629499534213120 (-51) ltac:(lia)).
Defined.

(** C4 refuted: the double [2.5] is encoded as 2, not 3, and [-2.5] as -2
    (byte 254), not -3 (byte 253): ties go to even, not away from zero. *)
Lemma pack2b_half_not_away_from_zero :
  f64 5 (-1) = S754_finite false 5629499534213120 (-51) /\
  pack2b (PFloat (f64 5 (-1))) = Ok [129; 2] /\
  pack2b (PFloat (f64 5 (-1))) <> pack2b (PInt 3) /\
  pack2b (PFloat (f64 (-5) (-1))) = Ok [129; 254] /\
  pack2b (PFloat (f64 (-5) (-1))) <> pack2b (PInt (-3)).
Proof.
  vm_compute. repeat split; congruence.
Qed.

(** ** C5: [pack1b] does not mask *)

(** C5 (code bug).  [pack1b] passes [round(value)] to [bytes(...)] without
    the [& 255] of its siblings, so every negative value, e.g. -1, raises
    ValueError, while [pack2b] encodes the same value by two's-complement
    masking. *)
Theorem pack1b_negative_raises (z : Z) (Hz : z < 0) :
  pack1b (PInt z) = Exc ValueError /\ pack2b (PInt z) = Ok [129; Z.land z 255].
Proof.
  split; [|apply pack2b_int].
  unfold pack1b, py_bytes, pybind, pyround, forallb.
  destruct (0 <=? z) eqn:E; [apply Z.leb_le in E; lia|reflexivity].
Qed.

Lemma pack1b_negative_raises_witness :
  -1 < 0 /\ pack1b (PInt (-1)) = Exc ValueError /\ pack2b (PInt (-1)) = Ok [129; Z.land (-1) 255].
Proof.
  split; [lia|]. apply (pack1b_negative_raises (-1)). lia.
Defined.

(** ** C9, C10: too many arguments *)

(** The world after [addlog l]: only the error line is appended. *)
Definition logged (w : world) (l : errline) : world :=
  mkWorld (port_open w) (rx w) (out w ++ [Logged l]) (relposition w) (relscale w).

(** C9.  [rotate] with more than 4 angles (EV3) or more than 3 angles (NXT)
    takes the error branch: it returns at once after logging the
    too-many-angles error, writes no byte and changes nothing else. *)
Theorem rotate_too_many_actuators (motors : list (option Z)) (speed : Z) (simult : bool) (w : world) :
  ((4 < length motors)%nat ->
   ev3_rotate motors speed simult w = (Ok tt, logged w EV3MaxAngles)) /\
  ((3 < length motors)%nat ->
   nxt_rotate motors speed w = (Ok tt, logged w NXTMaxAngles)).
Proof.
  split; intros H.
  - unfold ev3_rotate. apply Nat.ltb_lt in H. rewrite H. reflexivity.
  - unfold nxt_rotate. apply Nat.ltb_lt in H. rewrite H. reflexivity.
Qed.

Lemma rotate_too_many_actuators_witness :
  let w := mkWorld true [] [] [0; 0; 0; 0] [1; 1; 1; 1] in
  let motors := [Some 1; Some 2; Some 3; Some 4; Some 5] in
  (4 < length motors)%nat /\ (3 < length motors)%nat /\
  ev3_rotate motors 100 true w = (Ok tt, logged w EV3MaxAngles) /\
  nxt_rotate motors 100 w = (Ok tt, logged w NXTMaxAngles).
Proof.
  intros w motors.
  destruct (rotate_too_many_actuators motors 100 true w) as [H1 H2].
  split; [simpl; lia|]. split; [simpl; lia|].
  split; [apply H1|apply H2]; simpl; lia.
Defined.

(** C10.  [rotateto] with more than 4 positions (EV3) or more than 3
    positions (NXT) returns before reading or writing the position table:
    [relposition] is unchanged, nothing is written to the port, only the
    error line is logged. *)
Theorem rotateto_too_many_atomic (relpos : list (option Z)) (speed : Z) (simult : bool) (w : world) :
  ((4 < length relpos)%nat ->
   ev3_rotateto relpos speed simult w = (Ok tt, logged w EV3MaxPositions)) /\
  ((3 < length relpos)%nat ->
   nxt_rotateto relpos speed w = (Ok tt, logged w NXTMaxPositions)).
Proof.
  split; intros H.
  - unfold ev3_rotateto. apply Nat.ltb_lt in H. rewrite H. reflexivity.
  - unfold nxt_rotateto. apply Nat.ltb_lt in H. rewrite H. reflexivity.
Qed.

Lemma rotateto_too_many_atomic_witness :
  let w := mkWorld true [] [] [7; 8; 9; 10] [1; 1; 1; 1] in
  let ps := [Some 1; None; Some 3; Some 4; Some 5] in
  (4 < length ps)%nat /\ (3 < length ps)%nat /\
  ev3_rotateto ps 100 false w = (Ok tt, logged w EV3MaxPositions) /\
  nxt_rotateto ps 100 w = (Ok tt, logged w NXTMaxPositions).
Proof.
  intros w ps.
  destruct (rotateto_too_many_atomic ps 100 false w) as [H1 H2].
  split; [simpl; lia|]. split; [simpl; lia|].
  split; [apply H1|apply H2]; simpl; lia.
Defined.

(** ** The simultaneous EV3 message *)

(** [pack5b(v)] for an int [v]. *)
Definition bytes5 (v : Z) : list Z :=
  [131; Z.land v 255; Z.land (Z.shiftr v 8) 255; Z.land (Z.shiftr v 16) 255; Z.land (Z.shiftr v 24) 255].

(** Polarity and run-to-angle instruction of one move, with the speed
    operand [129; speed & 255] written out. *)
Definition simult_bytes (mv : Z * Z * Z) : list Z :=
  let '(mask, a, sp) := mv in
  polarity mask a ++ ([174; 0; mask] ++ [129; Z.land sp 255] ++ bytes5 0 ++ bytes5 a ++ bytes5 0 ++ [1]).

(** The bytes [EV3.send] writes for [message]: LSB-first length, then the message. *)
Definition ev3_frame (message : list Z) : list Z :=
  [Z.of_nat (length message) mod 256; Z.of_nat (length message) / 256] ++ message.

Lemma simult_body_ok (moves : list (Z * Z * Z)) :
  simult_body moves = Ok (concat (map simult_bytes moves)).
Proof.
  induction moves as [|[[mask a] sp] rest IH]; [reflexivity|].
  cbn [simult_body simult_group map concat].
  rewrite pack2b_int, !pack5b_int. cbn [pybind]. rewrite IH. reflexivity.
Qed.

Lemma simult_bytes_length (mv : Z * Z * Z) : length (simult_bytes mv) = 25%nat.
Proof.
  destruct mv as [[mask a] sp]. unfold simult_bytes, polarity.
  destruct (a <? 0); reflexivity.
Qed.

Lemma concat_simult_bytes_length (moves : list (Z * Z * Z)) :
  length (concat (map simult_bytes moves)) = (25 * length moves)%nat.
Proof.
  induction moves as [|mv rest IH]; [reflexivity|].
  simpl. rewrite length_app, simult_bytes_length, IH. lia.
Qed.




Lemma simult_moves_length (i : nat) (ms : list Z) (speed mx : Z) (moves : list (Z * Z * Z)) :
  simult_moves i ms speed mx = Ok moves -> (length moves <= length ms)%nat.
Proof.
  revert i moves. induction ms as [|a ms IH]; intros i moves H; cbn [simult_moves] in H.
  - injection H as <-. simpl. lia.
  - destruct (a =? 0).
    + specialize (IH _ _ H). simpl. lia.
    + destruct (move_speed speed a mx) as [sp|e]; cbn [pybind] in H; [|discriminate H].
      destruct (simult_moves (S i) ms speed mx) as [rest|e] eqn:Hr; cbn [pybind] in H; [|discriminate H].
      injection H as <-. specialize (IH _ _ Hr). simpl. lia.
Qed.

Lemma normalize_length (n : nat) (motors : list (option Z)) :
  (length motors <= n)%nat -> length (normalize n motors) = n.
Proof.
  intros H. unfold normalize. rewrite length_app, length_map, repeat_length. lia.
Qed.


Lemma ev3_get_reply_out (w : world) : out (snd (ev3_get_reply w)) = out w.
Proof.
  unfold ev3_get_reply, bind, read, lift, ret.
  destruct (rx w) as [|b0 [|b1 r]]; reflexivity.
Qed.

Lemma py_bytes_len (n : Z) :
  0 <= n < 65536 -> py_bytes [n mod 256; n / 256] = Ok [n mod 256; n / 256].
Proof.
  intros Hn. unfold py_bytes.
  pose proof (Z.mod_pos_bound n 256 ltac:(lia)).
  assert (0 <= n / 256 < 256).
  { split; [apply Z.div_pos; lia|]. apply Z.div_lt_upper_bound; lia. }
  replace (forallb _ _) with true; [reflexivity|].
  symmetry. cbn [forallb]. rewrite andb_true_r.
  repeat (apply andb_true_intro; split); first [apply Z.leb_le; lia | apply Z.ltb_lt; lia].
Qed.

(** Reading the reply never touches the recorded output. *)
Lemma ev3_send_out (message : list Z) (w : world) :
  Z.of_nat (length message) < 65536 -> port_open w = true ->
  out (snd (ev3_send message w)) = out w ++ [Written (ev3_frame message)].
Proof.
  intros Hl Ho.
  unfold ev3_send, bind at 1, lift at 1.
  rewrite py_bytes_len by lia.
  unfold bind at 1, isOpen. rewrite Ho.
  unfold bind, write, emit.
  exact (ev3_get_reply_out _).
Qed.

Lemma bind_delaymove_out {A} (c : M A) (w : world) :
  out (snd ((c ;;; delaymove) w)) = out (snd (c w)).
Proof.
  unfold bind, delaymove, ret. destruct (c w) as [[a|e] w']; reflexivity.
Qed.

(** Simultaneous mode with the port open writes exactly one frame when
    the speeds are computed: the header, one group per move, the wait
    instruction. *)
Lemma ev3_rotate_simult_out (motors : list (option Z)) (speed : Z) (w : world) (moves : list (Z * Z * Z)) :
  (length motors <= 4)%nat -> port_open w = true ->
  let ms := normalize 4 motors in
  simult_moves 0 ms speed (max_abs ms) = Ok moves ->
  out (snd (ev3_rotate motors speed true w)) =
  out w ++ [Written (ev3_frame (ev3_header ++ concat (map simult_bytes moves) ++ ev3_wait))].
Proof.
  intros Hl Ho ms Hm.
  unfold ev3_rotate.
  destruct (4 <? length motors)%nat eqn:E; [apply Nat.ltb_lt in E; lia|].
  fold ms. unfold bind at 1, lift at 1. rewrite Hm. rewrite simult_body_ok.
  unfold bind at 1, lift at 1.
  rewrite bind_delaymove_out.
  apply ev3_send_out; [|exact Ho].
  unfold ev3_header, ev3_wait. rewrite !length_app, concat_simult_bytes_length.
  pose proof (simult_moves_length 0 ms speed (max_abs ms) moves Hm).
  assert (length ms = 4%nat) by (apply normalize_length; exact Hl).
  cbn [length]. lia.
Qed.

(** A speed computation that raises aborts the call before anything is
    written. *)
Lemma ev3_rotate_simult_exc (motors : list (option Z)) (speed : Z) (w : world) (e : exn) :
  (length motors <= 4)%nat ->
  let ms := normalize 4 motors in
  simult_moves 0 ms speed (max_abs ms) = Exc e ->
  ev3_rotate motors speed true w = (Exc e, w).
Proof.
  intros Hl ms Hm. unfold ev3_rotate.
  destruct (4 <? length motors)%nat eqn:E; [apply Nat.ltb_lt in E; lia|].
  fold ms. unfold bind at 1, lift at 1. rewrite Hm. reflexivity.
Qed.

Lemma max_abs_ge (ms : list Z) (a : Z) : In a ms -> Z.abs a <= max_abs ms.
Proof.
  unfold max_abs. induction ms as [|b ms IH]; cbn [In map fold_right]; [tauto|].
  intros [->|H]; [lia|]. specialize (IH H). lia.
Qed.

Lemma max_abs_attained (ms : list Z) :
  ms <> [] -> exists a, In a ms /\ Z.abs a = max_abs ms.
Proof.
  induction ms as [|b ms IH]; intros Hne; [congruence|].
  destruct ms as [|c ms'].
  - exists b. split; [left; reflexivity|]. unfold max_abs. cbn [map fold_right]. lia.
  - destruct IH as (a & Ha & Heq); [discriminate|].
    unfold max_abs in *. cbn [map fold_right] in *.
    destruct (Z.max_spec (Z.abs b) (Z.max (Z.abs c) (fold_right Z.max 0 (map Z.abs ms')))) as [[_ E]|[_ E]].
    + exists a. split; [right; exact Ha|]. rewrite E. exact Heq.
    + exists b. split; [left; reflexivity|]. rewrite E. reflexivity.
Qed.

Lemma spec_simult_moves_complete (ms : list Z) (i j : nat) (speed mx a : Z) :
  nth_error ms j = Some a -> a <> 0 ->
  In (motorbit (i + j), a, spec_move_speed speed a mx) (spec_simult_moves i ms speed mx).
Proof.
  revert i j. induction ms as [|b ms IH]; intros i j Hj Ha; [destruct j; discriminate|].
  destruct j as [|j]; simpl in Hj.
  - injection Hj as ->. simpl. destruct (Z.eqb_spec a 0); [contradiction|].
    rewrite Nat.add_0_r. left. reflexivity.
  - simpl. replace (i + S j)%nat with (S i + j)%nat by lia.
    destruct (b =? 0); [|right]; apply IH; assumption.
Qed.

Lemma spec_simult_moves_sound (ms : list Z) (i : nat) (speed mx mask a sp : Z) :
  In (mask, a, sp) (spec_simult_moves i ms speed mx) ->
  exists j, nth_error ms j = Some a /\ a <> 0 /\ mask = motorbit (i + j) /\
            sp = spec_move_speed speed a mx.
Proof.
  revert i. induction ms as [|b ms IH]; intros i H; [contradiction|].
  simpl in H. destruct (Z.eqb_spec b 0) as [Hb|Hb].
  - destruct (IH (S i) H) as (j & H1 & H2 & H3 & H4).
    exists (S j). replace (S i + j)%nat with (i + S j)%nat in H3 by lia. auto.
  - destruct H as [H|H].
    + injection H as <- <- <-. exists 0%nat. rewrite Nat.add_0_r. auto.
    + destruct (IH (S i) H) as (j & H1 & H2 & H3 & H4).
      exists (S j). replace (S i + j)%nat with (i + S j)%nat in H3 by lia. auto.
Qed.

Lemma simult_moves_all_zero (ms : list Z) (i : nat) (speed mx : Z) :
  Forall (fun a => a = 0) ms -> simult_moves i ms speed mx = Ok [].
Proof.
  intros H. revert i. induction H as [|a ms Ha _ IH]; intros i; [reflexivity|].
  subst a. simpl. apply IH.
Qed.

Lemma spec_move_speed_ge_1 (speed a mx : Z) : 0 < mx -> 1 <= spec_move_speed speed a mx.
Proof.
  intros H. unfold spec_move_speed.
  pose proof (round_half_even_div_nonneg (Z.abs (speed * a)) mx ltac:(lia) H).
  destruct (Z.eqb_spec (round_half_even_div (Z.abs (speed * a)) mx) 0); lia.
Qed.

(** Below [2^52] the double quotient rounds as the exact one. *)
Lemma move_speed_small (speed a mx : Z) :
  0 < mx -> Z.abs (speed * a) < 2 ^ 52 -> move_speed speed a mx = Ok (spec_move_speed speed a mx).
Proof.
  intros Hmx Hs. destruct (py_int_truediv_round (speed * a) mx Hmx Hs) as (fl & H1 & H2).
  unfold move_speed, spec_move_speed. rewrite H1. cbn [pybind]. rewrite H2. reflexivity.
Qed.

Lemma simult_moves_small (ms : list Z) (i : nat) (speed mx : Z) :
  Forall (fun a => Z.abs (speed * a) < 2 ^ 52) ms -> (forall a, In a ms -> Z.abs a <= mx) ->
  simult_moves i ms speed mx = Ok (spec_simult_moves i ms speed mx).
Proof.
  intros H. revert i. induction H as [|a ms Ha _ IH]; intros i Hb; [reflexivity|].
  cbn [simult_moves spec_simult_moves].
  rewrite IH by (intros x Hx; apply Hb; right; exact Hx).
  destruct (Z.eqb_spec a 0) as [|Hne]; [reflexivity|].
  assert (0 < mx) by (specialize (Hb a (or_introl eq_refl)); lia).
  rewrite move_speed_small by assumption. reflexivity.
Qed.

Lemma normalize_Forall (P : Z -> Prop) (motors : list (option Z)) (n : nat) :
  P 0 -> Forall (fun o => P (none_to_0 o)) motors -> Forall P (normalize n motors).
Proof.
  intros H0 H. unfold normalize. apply Forall_app. split.
  - apply Forall_map. exact H.
  - apply Forall_forall. intros x Hx. apply repeat_spec in Hx. subst x. exact H0.
Qed.

(** ** C1: speed scaling in simultaneous mode *)

(** C1 (amended).  In simultaneous mode (at most 4 angles, port open),
    when [|speed * a| < 2^52] for every angle [a], [EV3.rotate] computes the
    moves [spec_simult_moves] of the spec and sends one message whose
    operand groups are exactly those moves: one group per nonzero angle [a]
    at index [i], with motor byte [2^i], target angle [a] and speed operand
    [sp] where [sp] is the nearest integer [r] to [|speed * a| / maxangle]
    (ties to even), replaced by 1 when [r = 0]; so [sp >= 1].  [maxangle]
    is the largest [|a_i|].  For [90, -45, 0, 0] at speed 100 the moves are
    motor 0 at speed 100 and motor 1 at speed 50, and motors 2, 3 get no
    group. *)
Theorem ev3_simult_speed_scaling (motors : list (option Z)) (speed : Z) (w : world)
    (Hlen : (length motors <= 4)%nat) (Hopen : port_open w = true)
    (Hsmall : Forall (fun o => Z.abs (speed * none_to_0 o) < 2 ^ 52) motors) :
  let ms := normalize 4 motors in
  let maxangle := max_abs ms in
  let moves := spec_simult_moves 0 ms speed maxangle in
  simult_moves 0 ms speed maxangle = Ok moves /\
  (forall a, In a ms -> Z.abs a <= maxangle) /\
  (exists a, In a ms /\ Z.abs a = maxangle) /\
  out (snd (ev3_rotate motors speed true w)) =
    out w ++ [Written (ev3_frame (ev3_header ++ concat (map simult_bytes moves) ++ ev3_wait))] /\
  (forall i a, nth_error ms i = Some a -> a <> 0 ->
     In (motorbit i, a, spec_move_speed speed a maxangle) moves) /\
  (forall mask a sp, In (mask, a, sp) moves ->
     exists i, nth_error ms i = Some a /\ a <> 0 /\ mask = motorbit i /\
       let r := round_half_even_div (Z.abs (speed * a)) maxangle in
       sp = (if r =? 0 then 1 else r) /\ 1 <= sp /\
       2 * Z.abs (Z.abs (speed * a) - r * maxangle) <= maxangle /\
       (2 * Z.abs (Z.abs (speed * a) - r * maxangle) = maxangle -> Z.even r = true)) /\
  max_abs [90; -45; 0; 0] = 90 /\
  simult_moves 0 [90; -45; 0; 0] 100 90 = Ok [(1, 90, 100); (2, -45, 50)].
Proof.
  intros ms maxangle moves.
  assert (Hms : length ms = 4%nat) by (apply normalize_length; exact Hlen).
  assert (Hmv : simult_moves 0 ms speed maxangle = Ok moves).
  { apply simult_moves_small; [|intros a; apply max_abs_ge].
    apply normalize_Forall; [rewrite Z.mul_0_r; reflexivity|exact Hsmall]. }
  split; [exact Hmv|].
  split; [intros a; apply max_abs_ge|].
  split; [apply max_abs_attained; intros E; rewrite E in Hms; discriminate|].
  split; [apply ev3_rotate_simult_out; assumption|].
  split; [intros i a Hi Ha; exact (spec_simult_moves_complete ms 0 i speed maxangle a Hi Ha)|].
  split; [|split; reflexivity].
  intros mask a sp Hin.
  destruct (spec_simult_moves_sound ms 0 speed maxangle mask a sp Hin) as (i & Hi & Ha & Hm & Hs).
  exists i. split; [exact Hi|]. split; [exact Ha|]. split; [exact Hm|].
  assert (Hpos : 0 < maxangle).
  { pose proof (max_abs_ge ms a (nth_error_In ms i Hi)). fold maxangle in H. lia. }
  destruct (round_half_even_div_nearest (Z.abs (speed * a)) maxangle ltac:(lia) Hpos) as [N1 N2].
  split; [exact Hs|]. split; [rewrite Hs; apply spec_move_speed_ge_1; exact Hpos|].
  split; assumption.
Qed.

Lemma ev3_simult_speed_scaling_witness :
  let w := mkWorld true [] [] [0; 0; 0; 0] [1; 1; 1; 1] in
  let motors := [Some 90; Some (-45); Some 0; Some 0] in
  (length motors <= 4)%nat /\ port_open w = true /\
  Forall (fun o => Z.abs (100 * none_to_0 o) < 2 ^ 52) motors /\
  out (snd (ev3_rotate motors 100 true w)) =
    [Written [58; 0; 0; 0; 0; 0; 0;
              167; 0; 1; 1; 174; 0; 1; 129; 100; 131; 0; 0; 0; 0; 131; 90; 0; 0; 0; 131; 0; 0; 0; 0; 1;
              167; 0; 2; 63; 174; 0; 2; 129; 50; 131; 0; 0; 0; 0; 131; 211; 255; 255; 255; 131; 0; 0; 0; 0; 1;
              170; 0; 15]].
Proof.
  intros w motors.
  assert (Hs : Forall (fun o => Z.abs (100 * none_to_0 o) < 2 ^ 52) motors)
    by (repeat constructor; vm_compute; reflexivity).
  destruct (ev3_simult_speed_scaling motors 100 w ltac:(simpl; lia) eq_refl Hs) as (_ & _ & _ & Hout & _).
  split; [simpl; lia|]. split; [reflexivity|]. split; [exact Hs|].
  rewrite Hout. vm_compute. reflexivity.
Defined.

(** C1 refuted for large operands: Python rounds the double quotient, not
    the exact one.  With speed 100 and angles [2^62, 2328901439305830892]
    the quotient [100 * 2328901439305830892 / 2^62] is [50.5 + 1.04e-17];
    its double is exactly [50.5], which rounds to 50, where the exact
    quotient rounds to 51.  With speed [10^400] and angle 1 the quotient
    overflows: OverflowError, and nothing is written. *)
Lemma ev3_simult_speed_double_quotient :
  let w := mkWorld true [] [] [0; 0; 0; 0] [1; 1; 1; 1] in
  let big := 2328901439305830892 in
  max_abs (normalize 4 [Some (2 ^ 62); Some big]) = 2 ^ 62 /\
  simult_moves 0 (normalize 4 [Some (2 ^ 62); Some big]) 100 (2 ^ 62) =
    Ok [(1, 2 ^ 62, 100); (2, big, 50)] /\
  spec_move_speed 100 big (2 ^ 62) = 51 /\
  out (snd (ev3_rotate [Some (2 ^ 62); Some big] 100 true w)) =
    [Written (ev3_frame (ev3_header ++ concat (map simult_bytes [(1, 2 ^ 62, 100); (2, big, 50)]) ++ ev3_wait))] /\
  ev3_rotate [Some 1] (10 ^ 400) true w = (Exc OverflowError, w).
Proof.
  intros w big.
  split; [vm_compute; reflexivity|].
  split; [vm_compute; reflexivity|].
  split; [vm_compute; reflexivity|].
  split; vm_compute; reflexivity.
Qed.

(** ** C6: simultaneous mode with no nonzero angle *)

(** C6 (amended).  In simultaneous mode, when every supplied angle (at most
    4) is 0 or None or omitted, [EV3.rotate] with the port open still sends
    one frame: the 5-byte zero header directly followed by the wait
    instruction [170, 0, 15], with no motor group; on the wire
    [8, 0, 0, 0, 0, 0, 0, 170, 0, 15]. *)
Theorem ev3_simult_all_zero_sends_wait_only (motors : list (option Z)) (speed : Z) (w : world)
    (Hlen : (length motors <= 4)%nat)
    (Hzero : Forall (fun o => none_to_0 o = 0) motors)
    (Hopen : port_open w = true) :
  out (snd (ev3_rotate motors speed true w)) =
  out w ++ [Written [8; 0; 0; 0; 0; 0; 0; 170; 0; 15]].
Proof.
  rewrite (ev3_rotate_simult_out motors speed w [] Hlen Hopen); [reflexivity|].
  apply simult_moves_all_zero.
  apply normalize_Forall; [reflexivity|exact Hzero].
Qed.

Lemma ev3_simult_all_zero_sends_wait_only_witness :
  let w := mkWorld true [] [] [0; 0; 0; 0] [1; 1; 1; 1] in
  let motors := [Some 0; None] in
  (length motors <= 4)%nat /\ Forall (fun o => none_to_0 o = 0) motors /\ port_open w = true /\
  out (snd (ev3_rotate motors 100 true w)) = out w ++ [Written [8; 0; 0; 0; 0; 0; 0; 170; 0; 15]].
Proof.
  intros w motors.
  split; [simpl; lia|].
  assert (Hz : Forall (fun o => none_to_0 o = 0) motors) by (repeat constructor).
  split; [exact Hz|]. split; [reflexivity|].
  apply ev3_simult_all_zero_sends_wait_only; [simpl; lia|exact Hz|reflexivity].
Defined.

(** C6 refuted: with angles [0, None] the transport does receive bytes. *)
Lemma ev3_simult_all_zero_writes :
  let w := mkWorld true [] [] [0; 0; 0; 0] [1; 1; 1; 1] in
  out (snd (ev3_rotate [Some 0; None] 100 true w)) = [Written [8; 0; 0; 0; 0; 0; 0; 170; 0; 15]] /\
  out (snd (ev3_rotate [Some 0; None] 100 true w)) <> out w.
Proof.
  vm_compute. split; [reflexivity|discriminate].
Qed.

(** ** C8: rotateTo *)

Lemma py_index_app {A} (pre post : list A) (x : A) :
  py_index (pre ++ x :: post) (length pre) = Ok x.
Proof.
  unfold py_index. rewrite nth_error_app2 by lia. rewrite Nat.sub_diag. reflexivity.
Qed.

Lemma py_setitem_app {A} (pre post : list A) (x v : A) :
  py_setitem (pre ++ x :: post) (length pre) v = Ok (pre ++ v :: post).
Proof.
  induction pre as [|h pre IH]; [reflexivity|].
  cbn [app length py_setitem]. rewrite IH. reflexivity.
Qed.

Lemma rotateto_deltas_spec (ps : list (option Z)) :
  forall (pre post spre spost : list Z) (w : world),
  length spre = length pre -> length post = length ps -> length spost = length ps ->
  relposition w = pre ++ post -> relscale w = spre ++ spost ->
  rotateto_deltas (length pre) ps w =
  (Ok (rotateto_spec_deltas ps post spost),
   mkWorld (port_open w) (rx w) (out w) (pre ++ rotateto_spec_positions ps post) (relscale w)).
Proof.
  induction ps as [|o ps IH]; intros pre post spre spost w Hs Hp Hsp Hrp Hrs.
  - destruct post; [|discriminate]. destruct w as [po r ou rp rs]. simpl in *.
    subst rp. rewrite !app_nil_r. reflexivity.
  - destruct post as [|p post]; [discriminate|]. destruct spost as [|sc spost]; [discriminate|].
    simpl in Hp, Hsp. injection Hp as Hp. injection Hsp as Hsp.
    destruct o as [t|].
    + assert (Hsc : py_index (spre ++ sc :: spost) (length pre) = Ok sc)
        by (rewrite <- Hs; apply py_index_app).
      destruct w as [po r ou rp rs]. cbn [relposition relscale port_open rx out] in *.
      subst rp rs.
      cbn [rotateto_deltas].
      unfold bind, lift, get_relposition, get_relscale, set_relposition, ret.
      cbn [relposition relscale port_open rx out].
      rewrite py_index_app, Hsc, py_setitem_app.
      replace (S (length pre)) with (length (pre ++ [t])) by (rewrite length_app; simpl; lia).
      rewrite (IH (pre ++ [t]) post (spre ++ [sc]) spost); cbn [relposition relscale];
        try rewrite !length_app; simpl; try lia; try (rewrite <- app_assoc; reflexivity).
    + cbn [rotateto_deltas].
      replace (S (length pre)) with (length (pre ++ [p])) by (rewrite length_app; simpl; lia).
      unfold bind at 1.
      rewrite (IH (pre ++ [p]) post (spre ++ [sc]) spost w); try rewrite !length_app; simpl; auto; try lia;
        try (rewrite <- app_assoc; assumption).
      unfold ret. rewrite <- app_assoc. reflexivity.
Qed.

(** C8 (amended).  For a session whose tables have the device's width
    (4 for EV3, 3 for NXT) and a call with at most that many positions,
    [rotateto] updates [relposition] to the targets of the present
    positions (absent/None positions keep their entry) and then does exactly
    what [rotate] does on the deltas [(target_i - relposition_i) * relscale_i]
    ([0] for an absent position) with the same speed (and mode).  With the
    initial scale 1 the delta is [target_i - relposition_i]. *)
Theorem rotateto_delta_translation (relpos : list (option Z)) (speed : Z) (simult : bool) (w : world) :
  ((length relpos <= 4)%nat -> length (relposition w) = 4%nat -> length (relscale w) = 4%nat ->
   let ps := relpos ++ repeat None (4 - length relpos) in
   ev3_rotateto relpos speed simult w =
   ev3_rotate (map Some (rotateto_spec_deltas ps (relposition w) (relscale w))) speed simult
     (mkWorld (port_open w) (rx w) (out w) (rotateto_spec_positions ps (relposition w)) (relscale w))) /\
  ((length relpos <= 3)%nat -> length (relposition w) = 3%nat -> length (relscale w) = 3%nat ->
   let ps := relpos ++ repeat None (3 - length relpos) in
   nxt_rotateto relpos speed w =
   nxt_rotate (map Some (rotateto_spec_deltas ps (relposition w) (relscale w))) speed
     (mkWorld (port_open w) (rx w) (out w) (rotateto_spec_positions ps (relposition w)) (relscale w))).
Proof.
  split; intros Hl Hp Hs ps.
  - unfold ev3_rotateto.
    destruct (4 <? length relpos)%nat eqn:E; [apply Nat.ltb_lt in E; lia|].
    fold ps. unfold bind at 1.
    change 0%nat with (@length Z []).
    rewrite (rotateto_deltas_spec ps [] (relposition w) [] (relscale w) w);
      try reflexivity; unfold ps; rewrite ?length_app, ?repeat_length; lia.
  - unfold nxt_rotateto.
    destruct (3 <? length relpos)%nat eqn:E; [apply Nat.ltb_lt in E; lia|].
    fold ps. unfold bind at 1.
    change 0%nat with (@length Z []).
    rewrite (rotateto_deltas_spec ps [] (relposition w) [] (relscale w) w);
      try reflexivity; unfold ps; rewrite ?length_app, ?repeat_length; lia.
Qed.

Lemma rotateto_delta_translation_witness :
  let w := mkWorld true [] [] [10; 20; 30; 40] [1; 1; 1; 1] in
  (length [Some 15; None] <= 4)%nat /\ length (relposition w) = 4%nat /\ length (relscale w) = 4%nat /\
  ev3_rotateto [Some 15; None] 50 true w =
  ev3_rotate [Some 5; Some 0; Some 0; Some 0] 50 true (mkWorld true [] [] [15; 20; 30; 40] [1; 1; 1; 1]).
Proof.
  intros w.
  destruct (rotateto_delta_translation [Some 15; None] 50 true w) as [H _].
  split; [simpl; lia|]. split; [reflexivity|]. split; [reflexivity|].
  rewrite H; [reflexivity|simpl; lia|reflexivity|reflexivity].
Defined.

(** C8 refuted: with a scale factor 2 on motor 0 (the per-actuator scale of
    the table), [rotateto(10)] from position 0 commands 20 degrees, not
    [10 - 0]. *)
Lemma rotateto_scaled_delta :
  let w := mkWorld true [] [] [0; 0; 0; 0] [2; 1; 1; 1] in
  ev3_rotateto [Some 10] 100 false w =
  ev3_rotate [Some 20; Some 0; Some 0; Some 0] 100 false (mkWorld true [] [] [10; 0; 0; 0] [2; 1; 1; 1]) /\
  out (snd (ev3_rotateto [Some 10] 100 false w)) <>
  out (snd (ev3_rotate [Some 10] 100 false (mkWorld true [] [] [10; 0; 0; 0] [2; 1; 1; 1]))).
Proof.
  split; [reflexivity|]. vm_compute. congruence.
Qed.

(** ** C7: the NXT mailbox handshake *)

Lemma firstn_skipn_prefix {A} (l r : list A) :
  firstn (length l) (l ++ r) = l /\ skipn (length l) (l ++ r) = r.
Proof.
  induction l as [|x l IH]; [split; reflexivity|].
  destruct IH as [H1 H2]. simpl. rewrite H1, H2. split; reflexivity.
Qed.

Lemma serial_write_open (b : list Z) (w : world) :
  port_open w = true -> serial_write b w = write b w.
Proof. intros H. unfold serial_write, bind, isOpen. rewrite H. reflexivity. Qed.

Lemma serial_read_open (n : Z) (w : world) :
  port_open w = true -> serial_read n w = read n w.
Proof. intros H. unfold serial_read, bind, isOpen. rewrite H. reflexivity. Qed.

(** The world after one mailbox check that consumed a reply, leaving [rest]. *)
Definition polled (w : world) (rest : list Z) : world :=
  mkWorld (port_open w) rest (out w ++ [Written checkmailbox]) (relposition w) (relscale w).

(** One round of the loop on a complete reply [reply] announced by its two
    length bytes [lo], [hi], the port being open. *)
Lemma nxt_poll_round (fuel : nat) (k : Z) (w : world) (lo hi : Z) (reply rest : list Z) :
  port_open w = true ->
  rx w = lo :: hi :: reply ++ rest ->
  Z.to_nat (lo + hi * 256) = length reply ->
  nxt_poll (S fuel) k w =
  if bytes_eqb (firstn 3 reply) reject_sig then (Ok (Rejected (k + 1)), logged (polled w rest) NXTNotStarted)
  else if contains ack_token reply then (Ok (Acknowledged (k + 1)), polled w rest)
  else nxt_poll fuel (k + 1) (polled w rest).
Proof.
  intros Ho Hrx Hn.
  destruct w as [p r o rp rs]; cbn [port_open rx] in Ho, Hrx; subst p r.
  destruct (firstn_skipn_prefix reply rest) as [F S].
  cbn [nxt_poll]. unfold serial_write, serial_read, isOpen, bind, write, emit, read, lift, py_index.
  cbn [port_open rx out relposition relscale].
  change (Z.to_nat 2) with 2%nat.
  cbn [firstn skipn nth_error].
  rewrite Hn, F, S. cbn [firstn].
  destruct (bytes_eqb _ reject_sig); [reflexivity|].
  destruct (contains ack_token reply); reflexivity.
Qed.

(** The loop never gives up while polling: with [fuel] above half the
    pending bytes, [Polling] is not returned (on a closed port the first
    write raises). *)
Lemma nxt_poll_never_polling (fuel : nat) :
  forall (k : Z) (w : world), (length (rx w) < 2 * fuel)%nat -> fst (nxt_poll fuel k w) <> Ok Polling.
Proof.
  induction fuel as [|fuel IH]; intros k w H; [lia|].
  destruct w as [p rxw o rp rs]. cbn [rx] in H.
  cbn [nxt_poll]. unfold serial_write, serial_read, isOpen, bind, write, emit, read, lift, py_index.
  destruct p; [|intro E; discriminate E].
  cbn [port_open rx out relposition relscale].
  change (Z.to_nat 2) with 2%nat.
  destruct rxw as [|b0 [|b1 r]]; cbn [firstn skipn nth_error fst port_open rx out relposition relscale];
    try (intro E; discriminate E).
  cbn [length] in H.
  destruct (bytes_eqb _ reject_sig).
  - unfold addlog, emit, ret. intro E; cbv beta iota zeta delta [fst] in E; discriminate E.
  - destruct (contains ack_token _);
      [unfold ret; intro E; cbv beta iota zeta delta [fst] in E; discriminate E|].
    apply IH. cbn [rx]. rewrite length_skipn. lia.
Qed.

Lemma nxt_ack_never_polling (w : world) : fst (nxt_ack w) <> Ok Polling.
Proof.
  unfold nxt_ack, bind, rx_length. apply nxt_poll_never_polling. lia.
Qed.

(** One motor of the [rotate] loop, up to the resolution of its first
    poll: the message is written, then the handshake runs on the replies. *)
Lemma nxt_rotate_loop_first_poll (i : nat) (a : Z) (ms' : list Z) (speed : Z) (msg : list Z)
    (w : world) (lo hi : Z) (reply rest : list Z) :
  a <> 0 -> nxt_message i a speed = Ok msg ->
  port_open w = true -> rx w = lo :: hi :: reply ++ rest ->
  Z.to_nat (lo + hi * 256) = length reply ->
  let w1 := mkWorld (port_open w) (rx w) (out w ++ [Written msg]) (relposition w) (relscale w) in
  nxt_rotate_loop i (a :: ms') speed w =
  (st <- nxt_poll (S (length (rx w))) 0 ;;
   match st with
   | Acknowledged _ => delaymove ;;; nxt_rotate_loop (S i) ms' speed
   | Rejected _ => ret tt
   | Polling => ret tt
   end) w1.
Proof.
  intros Ha Hm Ho Hrx Hn w1.
  cbn [nxt_rotate_loop]. destruct (Z.eqb_spec a 0) as [|_]; [contradiction|].
  unfold bind at 1, lift at 1. rewrite Hm.
  unfold bind at 1. rewrite serial_write_open by exact Ho.
  reflexivity.
Qed.

(** A reply frame as the NXT sends it: LSB-first length, then the payload. *)
Definition nxt_reply (payload : list Z) : list Z :=
  [Z.of_nat (length payload) mod 256; Z.of_nat (length payload) / 256] ++ payload.

Definition mailbox_empty : list Z := [2; 19; 64].
Definition mailbox_ack : list Z := [2; 19; 0; 10; 13] ++ ack_token ++ [0].

(** C7 (amended).  With the port open, one poll writes [checkmailbox],
    reads the two length bytes and that many reply bytes.  The reply is
    rejected when its first three bytes are [2, 19, 236] (the error line is
    logged), a test made before the search for [ACKNOWLEDGED]; a reply
    holding that token otherwise acknowledges; any other reply polls again.
    After the sub-message of any motor [i] with angle [a <> 0], a rejecting
    first reply makes [rotate] return at once, whatever motors remain,
    having written only that sub-message and one [checkmailbox]; an
    acknowledging first reply goes on with the next motor.  Two
    mailbox-empty replies and then an acknowledging one resolve to
    [Acknowledged] after 3 polls, a first reply equal to the rejection
    signature to [Rejected] after 1 poll. *)
Theorem nxt_ack_resolution (fuel : nat) (k : Z) (w : world) (lo hi : Z) (reply rest : list Z)
  (Hopen : port_open w = true)
  (Hrx : rx w = lo :: hi :: reply ++ rest)
  (Hlen : Z.to_nat (lo + hi * 256) = length reply) :
  nxt_poll (S fuel) k w =
  (if bytes_eqb (firstn 3 reply) reject_sig then (Ok (Rejected (k + 1)), logged (polled w rest) NXTNotStarted)
   else if contains ack_token reply then (Ok (Acknowledged (k + 1)), polled w rest)
   else nxt_poll fuel (k + 1) (polled w rest)) /\
  (forall i a ms' speed msg, a <> 0 -> nxt_message i a speed = Ok msg ->
   bytes_eqb (firstn 3 reply) reject_sig = true ->
   nxt_rotate_loop i (a :: ms') speed w =
     (Ok tt, mkWorld true rest
               (out w ++ [Written msg; Written checkmailbox; Logged NXTNotStarted])
               (relposition w) (relscale w))) /\
  (forall i a ms' speed msg, a <> 0 -> nxt_message i a speed = Ok msg ->
   bytes_eqb (firstn 3 reply) reject_sig = false -> contains ack_token reply = true ->
   nxt_rotate_loop i (a :: ms') speed w =
     nxt_rotate_loop (S i) ms' speed
       (mkWorld true rest (out w ++ [Written msg; Written checkmailbox]) (relposition w) (relscale w))) /\
  (forall w', port_open w' = true ->
   rx w' = nxt_reply mailbox_empty ++ nxt_reply mailbox_empty ++ nxt_reply mailbox_ack ->
   nxt_ack w' = (Ok (Acknowledged 3),
                 mkWorld true []
                   (out w' ++ [Written checkmailbox; Written checkmailbox; Written checkmailbox])
                   (relposition w') (relscale w'))) /\
  (forall w', port_open w' = true -> rx w' = nxt_reply reject_sig ->
   nxt_ack w' = (Ok (Rejected 1),
                 mkWorld true []
                   (out w' ++ [Written checkmailbox; Logged NXTNotStarted])
                   (relposition w') (relscale w'))).
Proof.
  split; [exact (nxt_poll_round fuel k w lo hi reply rest Hopen Hrx Hlen)|].
  split; [|split; [|split]].
  - intros i a ms' speed msg Ha Hm Hrej.
    rewrite (nxt_rotate_loop_first_poll i a ms' speed msg w lo hi reply rest Ha Hm Hopen Hrx Hlen).
    unfold bind at 1.
    set (w1 := mkWorld (port_open w) (rx w) (out w ++ [Written msg]) (relposition w) (relscale w)).
    rewrite (nxt_poll_round _ 0 w1 lo hi reply rest Hopen Hrx Hlen), Hrej.
    unfold ret, logged, polled, w1. cbn [port_open rx out relposition relscale].
    rewrite Hopen, <- !app_assoc. reflexivity.
  - intros i a ms' speed msg Ha Hm Hrej Hack.
    rewrite (nxt_rotate_loop_first_poll i a ms' speed msg w lo hi reply rest Ha Hm Hopen Hrx Hlen).
    unfold bind at 1.
    set (w1 := mkWorld (port_open w) (rx w) (out w ++ [Written msg]) (relposition w) (relscale w)).
    rewrite (nxt_poll_round _ 0 w1 lo hi reply rest Hopen Hrx Hlen), Hrej, Hack.
    unfold delaymove, bind, ret, polled, w1. cbn [port_open rx out relposition relscale].
    rewrite Hopen, <- !app_assoc. reflexivity.
  - intros [p r o rp rs] Ho H. cbn [rx port_open] in H, Ho. subst r p.
    transitivity (Ok (Acknowledged 3),
      mkWorld true [] (((o ++ [Written checkmailbox]) ++ [Written checkmailbox]) ++ [Written checkmailbox]) rp rs);
      [reflexivity|].
    cbn [port_open out relposition relscale]. rewrite <- !app_assoc. reflexivity.
  - intros [p r o rp rs] Ho H. cbn [rx port_open] in H, Ho. subst r p.
    transitivity (Ok (Rejected 1), mkWorld true [] ((o ++ [Written checkmailbox]) ++ [Logged NXTNotStarted]) rp rs);
      [reflexivity|].
    cbn [port_open out relposition relscale]. rewrite <- !app_assoc. reflexivity.
Qed.

Definition ack_world : world := mkWorld true (nxt_reply mailbox_ack) [] [0; 0; 0; 0] [1; 1; 1; 1].

Lemma nxt_ack_resolution_witness :
  rx ack_world = 18 :: 0 :: mailbox_ack ++ [] /\ Z.to_nat (18 + 0 * 256) = length mailbox_ack /\
  nxt_poll 1 0 ack_world = (Ok (Acknowledged 1), polled ack_world []).
Proof.
  split; [reflexivity|]. split; [reflexivity|].
  destruct (nxt_ack_resolution 0 0 ack_world 18 0 mailbox_ack [] eq_refl eq_refl eq_refl) as [H _].
  rewrite H. reflexivity.
Defined.

(** A reply that starts with the rejection signature and carries the
    acknowledgement token is rejected: the prefix test comes first. *)
Definition sig_and_ack_world : world :=
  mkWorld true (nxt_reply (reject_sig ++ ack_token)) [] [0; 0; 0; 0] [1; 1; 1; 1].

Lemma nxt_ack_signature_and_token_rejected :
  contains ack_token (reject_sig ++ ack_token) = true /\
  fst (nxt_ack sig_and_ack_world) = Ok (Rejected 1).
Proof. split; reflexivity. Qed.

(** ** C2, C3: the interpolation planner *)

Lemma map_none_to_0_Some (l : list Z) : map none_to_0 (map Some l) = l.
Proof. induction l as [|x l IH]; [reflexivity|]. cbn [map none_to_0]. now rewrite IH. Qed.

Lemma stepper_iter_length (n : nat) :
  forall (st inc : list spec_float) (rows : list (list Z)),
  stepper_iter n st inc = Ok rows -> length rows = n.
Proof.
  induction n as [|n IH]; intros st inc rows H; cbn [stepper_iter] in H.
  - injection H as <-. reflexivity.
  - destruct (py_mapM _ _) as [row|e]; cbn [pybind] in H; [|discriminate H].
    destruct (stepper_iter n _ inc) as [rest|e] eqn:Hr; cbn [pybind] in H; [|discriminate H].
    injection H as <-. cbn [length]. f_equal. exact (IH _ _ _ Hr).
Qed.

Lemma step_inv_bound (n k s d : Z) (inc x : spec_float) :
  0 < n <= 2 ^ 25 -> 0 <= k <= n -> comp_ok n s d inc -> step_inv n k s d x ->
  Z.abs (fval x) <= 2 ^ 1126 + 2 ^ 1125 + 2 ^ 1100 /\ Z.abs (fval inc) <= 2 ^ 1102.
Proof.
  intros Hn Hk (Hs & Hsd & Hd & Gi & Ei) (Gx & Ex).
  assert (F1 : Z.abs (n * s) <= n * 2 ^ 24) by (rewrite Z.abs_mul, (Z.abs_eq n) by lia; apply Z.mul_le_mono_nonneg_l; lia).
  assert (F2 : Z.abs (k * d) <= n * 2 ^ 25).
  { rewrite Z.abs_mul, (Z.abs_eq k) by lia.
    assert (k * Z.abs d <= n * Z.abs d) by (apply Z.mul_le_mono_nonneg_r; lia).
    assert (n * Z.abs d <= n * 2 ^ 25) by (apply Z.mul_le_mono_nonneg_l; lia). lia. }
  assert (F3 : (k + 1) * n <= (2 ^ 25 + 1) * n) by (apply Z.mul_le_mono_nonneg_r; lia).
  assert (F4 : Z.abs (d * 2 ^ 1101) <= n * 2 ^ 1101) by (rewrite Z.abs_mul; cbn [Z.abs]; lia).
  split.
  - apply (Z.mul_le_mono_pos_l _ _ n); [lia|].
    rewrite <- (Z.abs_eq n) at 1 by lia. rewrite <- Z.abs_mul. lia.
  - apply (Z.mul_le_mono_pos_l _ _ n); [lia|].
    rewrite <- (Z.abs_eq n) at 1 by lia. rewrite <- Z.abs_mul. lia.
Qed.

Lemma step_inv_next (n k s d : Z) (inc x : spec_float) :
  0 < n <= 2 ^ 25 -> 0 <= k < n -> comp_ok n s d inc -> step_inv n k s d x ->
  step_inv n (k + 1) s d (SFadd prec64 emax64 x inc).
Proof.
  intros Hn Hk Hc Hx.
  destruct (step_inv_bound n k s d inc x Hn ltac:(lia) Hc Hx) as [Bx Bi].
  destruct Hc as (Hs & Hsd & Hd & Gi & Ei). destruct Hx as (Gx & Ex).
  destruct (SFadd_err x inc 26 Gx Gi ltac:(lia) ltac:(lia)) as [G E].
  split; [exact G|].
  set (y := SFadd prec64 emax64 x inc) in *.
  assert (F : 2 * Z.abs (n * fval y - n * (fval x + fval inc)) <= n * 2 ^ 1074).
  { rewrite <- Z.mul_sub_distr_l, Z.abs_mul, (Z.abs_eq n) by lia.
    replace (2 * (n * Z.abs (fval y - (fval x + fval inc)))) with (n * (2 * Z.abs (fval y - (fval x + fval inc)))) by ring.
    apply Z.mul_le_mono_nonneg_l; lia. }
  lia.
Qed.

Lemma step_inv_last (n s d : Z) (inc x : spec_float) :
  0 < n <= 2 ^ 25 -> comp_ok n s d inc -> step_inv n n s d x ->
  pyround_float (SFadd prec64 emax64 x stepper_eps) = Ok (s + d).
Proof.
  intros Hn Hc Hx.
  destruct stepper_eps_val as [Ge Ve].
  destruct Hc as (Hs & Hsd & Hd & Gi & Ei). destruct Hx as (Gx & Ex).
  assert (Cx : Z.abs (fval x - (s + d) * 2 ^ 1101) <= (n + 1) * 2 ^ 1074).
  { apply (Z.mul_le_mono_pos_l _ _ n); [lia|].
    rewrite <- (Z.abs_eq n) at 1 by lia. rewrite <- Z.abs_mul.
    replace (n * (fval x - (s + d) * 2 ^ 1101)) with (n * fval x - (n * s + n * d) * 2 ^ 1101) by ring.
    lia. }
  assert (F3 : (n + 1) * 2 ^ 1074 <= (2 ^ 25 + 1) * 2 ^ 1074) by lia.
  destruct (SFadd_err x stepper_eps 26 Gx Ge ltac:(lia) ltac:(lia)) as [G E].
  apply pyround_near; [exact G|]. lia.
Qed.

Lemma step_inv_row (n k s d : Z) (inc x : spec_float) :
  0 < n <= 2 ^ 25 -> 0 <= k <= n -> comp_ok n s d inc -> step_inv n k s d x ->
  exists z, pyround_float (SFadd prec64 emax64 x stepper_eps) = Ok z.
Proof.
  intros Hn Hk Hc Hx.
  destruct (step_inv_bound n k s d inc x Hn Hk Hc Hx) as [Bx _].
  destruct stepper_eps_val as [Ge Ve].
  destruct Hx as (Gx & _).
  destruct (SFadd_err x stepper_eps 26 Gx Ge ltac:(lia) ltac:(lia)) as [G _].
  apply pyround_good. exact G.
Qed.

Lemma step_inv_start (n s d : Z) (x : spec_float) :
  0 < n -> fgood x -> 2 * Z.abs (fval x - s * 2 ^ 1101) <= 2 ^ 1073 -> step_inv n 0 s d x.
Proof.
  intros Hn G E. split; [exact G|].
  replace (n * fval x - (n * s + 0 * d) * 2 ^ 1101) with (n * (fval x - s * 2 ^ 1101)) by ring.
  rewrite Z.abs_mul, (Z.abs_eq n) by lia.
  assert (n * Z.abs (fval x - s * 2 ^ 1101) <= n * 2 ^ 1074) by (apply Z.mul_le_mono_nonneg_l; lia).
  lia.
Qed.

Section StepperLists.
Variable n : Z.
Hypothesis Hn : 0 < n <= 2 ^ 25.
Variable comps : list (Z * Z * spec_float).
Hypothesis Hcomps : Forall (fun c => comp_ok n (fst (fst c)) (snd (fst c)) (snd c)) comps.

Let inv_all (k : Z) (xs : list spec_float) : Prop :=
  Forall2 (fun x c => step_inv n k (fst (fst c)) (snd (fst c)) x) xs comps.

Lemma inv_all_next (k : Z) (xs : list spec_float) : 0 <= k < n -> inv_all k xs ->
  inv_all (k + 1) (map (fun '(s, inc) => SFadd prec64 emax64 s inc) (combine xs (map snd comps))).
Proof.
  unfold inv_all. intros Hk H. revert Hcomps. induction H as [|x c xs cs Hx Hr IH]; intros Hc; [constructor|].
  inversion Hc as [|c' cs' Hc1 Hc2]; subst. cbn [map combine].
  constructor; [|exact (IH Hc2)].
  apply (step_inv_next n k _ _ (snd c) x Hn Hk Hc1 Hx).
Qed.

Lemma inv_all_row (k : Z) (xs : list spec_float) : 0 <= k <= n -> inv_all k xs ->
  exists row, py_mapM (fun v => pyround_float (SFadd prec64 emax64 v stepper_eps)) xs = Ok row.
Proof.
  unfold inv_all. intros Hk H. revert Hcomps. induction H as [|x c xs cs Hx Hr IH]; intros Hc; [eexists; reflexivity|].
  inversion Hc as [|c' cs' Hc1 Hc2]; subst.
  destruct (step_inv_row n k _ _ (snd c) x Hn Hk Hc1 Hx) as [z Hz].
  destruct (IH Hc2) as [row Hrow].
  exists (z :: row). cbn [py_mapM]. rewrite Hz. cbn [pybind]. rewrite Hrow. reflexivity.
Qed.

Lemma inv_all_last (xs : list spec_float) : inv_all n xs ->
  py_mapM (fun v => pyround_float (SFadd prec64 emax64 v stepper_eps)) xs =
  Ok (map (fun c => fst (fst c) + snd (fst c)) comps).
Proof.
  unfold inv_all. intros H. revert Hcomps. induction H as [|x c xs cs Hx Hr IH]; intros Hc; [reflexivity|].
  inversion Hc as [|c' cs' Hc1 Hc2]; subst.
  cbn [py_mapM map]. rewrite (step_inv_last n _ _ (snd c) x Hn Hc1 Hx). cbn [pybind].
  rewrite (IH Hc2). reflexivity.
Qed.

Lemma stepper_iter_end (j : nat) :
  forall (k : Z) (xs : list spec_float), 0 <= k -> k + Z.of_nat j = n -> (0 < j)%nat -> inv_all k xs ->
  exists rows, stepper_iter j xs (map snd comps) = Ok rows /\
               last rows [] = map (fun c => fst (fst c) + snd (fst c)) comps.
Proof.
  induction j as [|j IH]; intros k xs Hk Hkj Hj Hinv; [lia|].
  cbn [stepper_iter].
  pose proof (inv_all_next k xs ltac:(lia) Hinv) as Hnext.
  set (xs' := map (fun '(s, inc) => SFadd prec64 emax64 s inc) (combine xs (map snd comps))) in *.
  destruct j as [|j'].
  - replace (k + 1) with n in Hnext by lia.
    rewrite (inv_all_last xs' Hnext). cbn [pybind stepper_iter].
    eexists; split; reflexivity.
  - destruct (inv_all_row (k + 1) xs' ltac:(lia) Hnext) as [row Hrow].
    rewrite Hrow. cbn [pybind].
    destruct (IH (k + 1) xs' ltac:(lia) ltac:(lia) ltac:(lia) Hnext) as (rows & Hrows & Hlast).
    rewrite Hrows. cbn [pybind].
    exists (row :: rows). split; [reflexivity|].
    destruct rows as [|r rs]; [|exact Hlast].
    pose proof (stepper_iter_length (S j') _ _ _ Hrows). discriminate.
Qed.

End StepperLists.

Lemma resize_start_length (start end_ : list (option Z)) :
  length (resize_start start end_) = length end_.
Proof.
  unfold resize_start. rewrite length_app, repeat_length, length_firstn, length_map. lia.
Qed.

Lemma resize_start_Forall (P : Z -> Prop) (start : list Z) (end_ : list (option Z)) :
  P 0 -> Forall P start -> Forall P (resize_start (map Some start) end_).
Proof.
  intros H0 H. unfold resize_start. rewrite map_none_to_0_Some. apply Forall_app. split.
  - rewrite <- (firstn_skipn (length end_) start) in H. apply Forall_app in H. tauto.
  - apply Forall_forall. intros x Hx. apply repeat_spec in Hx. subst x. exact H0.
Qed.

Lemma delta_bound (end_ st : list Z) :
  Forall (fun v => Z.abs v <= 2 ^ 24) end_ -> Forall (fun v => Z.abs v <= 2 ^ 24) st ->
  Forall (fun d => Z.abs d <= 2 ^ 25) (map (fun '(e, s) => e - s) (combine end_ st)).
Proof.
  intros He. revert st. induction He as [|e es He Hes IH]; intros st Hs; [constructor|].
  destruct Hs as [|s ss Hs Hss]; [constructor|]. cbn [combine map].
  constructor; [lia|]. exact (IH ss Hss).
Qed.

Lemma increments_ok (n : Z) (l : list Z) : 0 < n -> (forall d, In d l -> Z.abs d <= n) ->
  exists incs, py_mapM (fun d => py_int_truediv d n) l = Ok incs /\
    Forall2 (fun d inc => fgood inc /\ Z.abs (n * fval inc - d * 2 ^ 1101) <= n * 2 ^ 1049) l incs.
Proof.
  intros Hn. induction l as [|d l IH]; intros Hl; [exists []; split; [reflexivity|constructor]|].
  destruct (py_int_truediv_err d n Hn (Hl d (or_introl eq_refl))) as (fl & Hfl & G & E).
  destruct IH as (incs & Hincs & F); [intros x Hx; apply Hl; right; exact Hx|].
  exists (fl :: incs). split; [|constructor; [split|]; assumption].
  cbn [py_mapM]. rewrite Hfl. cbn [pybind]. rewrite Hincs. reflexivity.
Qed.

Lemma start_floats_ok (l : list Z) : Forall (fun v => Z.abs v <= 2 ^ 24) l ->
  exists xs, py_mapM py_float_of_int l = Ok xs /\
    Forall2 (fun s x => fgood x /\ 2 * Z.abs (fval x - s * 2 ^ 1101) <= 2 ^ 1073) l xs.
Proof.
  induction 1 as [|s l Hs Hl IH]; [exists []; split; [reflexivity|constructor]|].
  destruct (py_float_of_int_err s Hs) as (fl & Hfl & G & E).
  destruct IH as (xs & Hxs & F).
  exists (fl :: xs). split; [|constructor; [split|]; assumption].
  cbn [py_mapM]. rewrite Hfl. cbn [pybind]. rewrite Hxs. reflexivity.
Qed.

Lemma build_comps (n : Z) (end_ : list Z) : 0 < n ->
  forall st incs xs,
  length end_ = length st ->
  Forall (fun v => Z.abs v <= 2 ^ 24) end_ -> Forall (fun v => Z.abs v <= 2 ^ 24) st ->
  (forall d, In d (map (fun '(e, s) => e - s) (combine end_ st)) -> Z.abs d <= n) ->
  Forall2 (fun d inc => fgood inc /\ Z.abs (n * fval inc - d * 2 ^ 1101) <= n * 2 ^ 1049)
          (map (fun '(e, s) => e - s) (combine end_ st)) incs ->
  Forall2 (fun s x => fgood x /\ 2 * Z.abs (fval x - s * 2 ^ 1101) <= 2 ^ 1073) st xs ->
  exists comps : list (Z * Z * spec_float),
    Forall (fun c => comp_ok n (fst (fst c)) (snd (fst c)) (snd c)) comps /\
    Forall2 (fun x c => step_inv n 0 (fst (fst c)) (snd (fst c)) x) xs comps /\
    map snd comps = incs /\ map (fun c => fst (fst c) + snd (fst c)) comps = end_.
Proof.
  intros Hn. induction end_ as [|e es IH]; intros st incs xs Hlen He Hs Hd Hi Hx.
  - destruct st; [|discriminate Hlen]. inversion Hi; subst. inversion Hx; subst.
    exists []. repeat split; constructor.
  - destruct st as [|s ss]; [discriminate Hlen|].
    cbn [combine map] in Hi, Hd.
    inversion Hi as [|d inc ds incs' [Gi Ei] Hi']; subst.
    inversion Hx as [|s' x ss' xs' [Gx Ex] Hx']; subst.
    inversion He as [|e' es' He1 He2]; subst. inversion Hs as [|s'' ss'' Hs1 Hs2]; subst.
    destruct (IH ss incs' xs' ltac:(cbn in Hlen; lia) He2 Hs2 (fun d H => Hd d (or_intror H)) Hi' Hx')
      as (comps & C1 & C2 & C3 & C4).
    exists ((s, e - s, inc) :: comps). cbn [map fst snd].
    split; [|split; [|split]].
    + constructor; [|exact C1]. cbn [fst snd].
      repeat split; try assumption; [lia|apply Hd; left; reflexivity].
    + constructor; [|exact C2]. cbn [fst snd]. apply step_inv_start; assumption.
    + rewrite C3. reflexivity.
    + rewrite C4. f_equal. lia.
Qed.

Lemma interpolate_end_bounded (start end_ : list Z) :
  Forall (fun v => Z.abs v <= 2 ^ 24) start -> Forall (fun v => Z.abs v <= 2 ^ 24) end_ ->
  stepper_steps start end_ <> 0 ->
  exists wps, interpolate start end_ = Ok wps /\ last wps [] = end_.
Proof.
  intros Hs He Hn0.
  unfold interpolate, getstepper. cbn [length Nat.eqb nth pybind].
  rewrite map_none_to_0_Some.
  unfold stepper_steps in Hn0.
  set (st := resize_start (map Some start) (map Some end_)) in *.
  assert (Hlen : length end_ = length st) by (subst st; rewrite resize_start_length, length_map; reflexivity).
  assert (Hst : Forall (fun v => Z.abs v <= 2 ^ 24) st) by (apply resize_start_Forall; [cbn; lia|exact Hs]).
  pose proof (delta_bound end_ st He Hst) as Hdb.
  set (delta := map (fun '(e, s) => e - s) (combine end_ st)) in *.
  set (n := max_abs delta) in *.
  assert (Hdn : forall d, In d delta -> Z.abs d <= n) by (intros d Hd; apply max_abs_ge; exact Hd).
  destruct delta as [|d0 ds] eqn:Edelta; [cbn in Hn0; lia|].
  assert (Hn : 0 < n <= 2 ^ 25).
  { pose proof (Hdn d0 (or_introl eq_refl)).
    destruct (max_abs_attained (d0 :: ds) ltac:(discriminate)) as (a & Ha & Heq).
    rewrite Forall_forall in Hdb. specialize (Hdb a Ha). fold n in Heq. lia. }
  cbn [pybind]. rewrite <- Edelta in Hdn, Hdb |- *.
  destruct (increments_ok n delta ltac:(lia) Hdn) as (incs & Hincs & Fi).
  rewrite Hincs. cbn [pybind].
  destruct (start_floats_ok st Hst) as (xs & Hxs & Fx).
  rewrite Hxs. cbn [pybind].
  destruct (build_comps n end_ ltac:(lia) st incs xs Hlen He Hst Hdn Fi Fx) as (comps & C1 & C2 & C3 & C4).
  rewrite <- C3.
  destruct (stepper_iter_end n Hn comps C1 (Z.to_nat n) 0 xs ltac:(lia) ltac:(lia) ltac:(lia) C2)
    as (rows & Hrows & Hlast).
  rewrite Hrows. cbn [pybind]. eexists; split; [reflexivity|].
  destruct rows as [|r rs].
  - pose proof (stepper_iter_length _ _ _ _ Hrows) as L. cbn [length] in L. lia.
  - rewrite C4 in Hlast. exact Hlast.
Qed.


Lemma delta_self (l : list Z) : map (fun '(e, s) => e - s) (combine l l) = repeat 0 (length l).
Proof.
  induction l as [|x l IH]; [reflexivity|]. cbn [combine map length repeat]. rewrite IH.
  f_equal. lia.
Qed.

Lemma max_abs_repeat_0 (n : nat) : max_abs (repeat 0 n) = 0.
Proof.
  unfold max_abs. induction n as [|n IH]; [reflexivity|].
  cbn [repeat map fold_right]. rewrite IH. reflexivity.
Qed.

(** C2 (amended).  Whenever [interpolate start end] returns, it returns
    [steps + 1] waypoints, [steps = max |end_i - start_i|] over the resized
    start, and waypoint 0 is the resized start.  When every component of
    [start] and [end] lies in [[-2^24, 2^24]] and [steps <> 0],
    [interpolate] returns and its last waypoint is [end]: the accumulated
    rounding error stays below [1/2].  On the two examples:
    [interpolate([0,0],[10,-3])] has 11 waypoints ending at [10,-3],
    [interpolate([],[5])] is [[0],[1],...,[5]]. *)
Theorem interpolate_shape :
  (forall (start end_ : list Z) (wps : list (list Z)),
     interpolate start end_ = Ok wps ->
     length wps = S (Z.to_nat (stepper_steps start end_)) /\
     hd_error wps = Some (resize_start (map Some start) (map Some end_))) /\
  (forall (start end_ : list Z),
     Forall (fun v => Z.abs v <= 2 ^ 24) start -> Forall (fun v => Z.abs v <= 2 ^ 24) end_ ->
     stepper_steps start end_ <> 0 ->
     exists wps, interpolate start end_ = Ok wps /\ last wps [] = end_) /\
  (exists w1, interpolate [0; 0] [10; -3] = Ok w1 /\ length w1 = 11%nat /\ last w1 [] = [10; -3]) /\
  interpolate [] [5] = Ok [[0]; [1]; [2]; [3]; [4]; [5]].
Proof.
  split; [|split; [exact interpolate_end_bounded|split]].
  - intros start end_ wps H.
    unfold interpolate, getstepper in H. cbn [length Nat.eqb nth pybind] in H.
    rewrite map_none_to_0_Some in H. unfold stepper_steps.
    destruct (map _ (combine end_ _)) as [|d ds]; cbn [pybind] in H; [discriminate H|].
    destruct (py_mapM (fun d0 => py_int_truediv d0 _) _) as [inc|e]; cbn [pybind] in H; [|discriminate H].
    destruct (py_mapM py_float_of_int _) as [xs|e]; cbn [pybind] in H; [|discriminate H].
    destruct (stepper_iter _ _ _) as [rows|e] eqn:Hr; cbn [pybind] in H; [|discriminate H].
    injection H as <-. split; [|reflexivity].
    cbn [length]. f_equal. exact (stepper_iter_length _ _ _ _ Hr).
  - eexists. split; [vm_compute; reflexivity|]. split; vm_compute; reflexivity.
  - vm_compute. reflexivity.
Qed.

Lemma interpolate_shape_witness :
  Forall (fun v => Z.abs v <= 2 ^ 24) [0; 0] /\ Forall (fun v => Z.abs v <= 2 ^ 24) [10; -3] /\
  stepper_steps [0; 0] [10; -3] = 10 /\
  (exists wps, interpolate [0; 0] [10; -3] = Ok wps /\ last wps [] = [10; -3]) /\
  length [[0; 0]; [1; 0]; [2; -1]; [3; -1]; [4; -1]; [5; -1]; [6; -2]; [7; -2]; [8; -2]; [9; -3]; [10; -3]] = 11%nat.
Proof.
  destruct interpolate_shape as [L [E _]].
  split; [repeat constructor; cbn; lia|]. split; [repeat constructor; cbn; lia|].
  split; [reflexivity|]. split.
  - apply E; [repeat constructor; cbn; lia|repeat constructor; cbn; lia|vm_compute; discriminate].
  - destruct (L [0; 0] [10; -3]
              [[0; 0]; [1; 0]; [2; -1]; [3; -1]; [4; -1]; [5; -1]; [6; -2]; [7; -2]; [8; -2]; [9; -3]; [10; -3]]
              ltac:(vm_compute; reflexivity)) as [L1 _].
    rewrite L1. vm_compute. reflexivity.
Defined.

(** The accumulated float waypoints stall at [2^52]: moving the second
    actuator from [2^52] to [2^52 + 3] in 10 steps ends at [2^52]. *)
Lemma interpolate_last_not_end :
  match interpolate [0; 4503599627370496] [10; 4503599627370499] with
  | Ok wps => last wps []
  | Exc _ => []
  end = [10; 4503599627370496].
Proof. vm_compute. reflexivity. Qed.

(** C3.  With [start] equal to [end] after resizing (end non-empty),
    [steps] is 0 and [interpolate] raises [ZeroDivisionError] at
    [delta[m] / steps]: it does not return [[start]]. *)
Theorem interpolate_no_motion_raises (start end_ : list Z)
  (Hne : end_ <> [])
  (Hsame : resize_start (map Some start) (map Some end_) = end_) :
  stepper_steps start end_ = 0 /\ interpolate start end_ = Exc ZeroDivisionError.
Proof.
  split.
  - unfold stepper_steps. rewrite Hsame, delta_self. apply max_abs_repeat_0.
  - unfold interpolate, getstepper. cbn [length Nat.eqb nth pybind].
    rewrite map_none_to_0_Some, Hsame, delta_self.
    destruct end_ as [|x xs]; [congruence|].
    rewrite max_abs_repeat_0. reflexivity.
Qed.

Lemma interpolate_no_motion_raises_witness :
  [1; 2] <> [] /\ resize_start (map Some [1; 2]) (map Some [1; 2]) = [1; 2] /\
  interpolate [1; 2] [1; 2] = Exc ZeroDivisionError.
Proof.
  split; [discriminate|]. split; [reflexivity|].
  apply (interpolate_no_motion_raises [1; 2] [1; 2]); [discriminate|reflexivity].
Defined.

(** * Further properties of the transport and the commands *)

(** ** [EV3.send] *)

Lemma len_header_decode (n : Z) : 0 <= n -> n mod 256 + n / 256 * 256 = n.
Proof. intros H. pose proof (Z.div_mod n 256 ltac:(lia)). lia. Qed.

(** The reply of [send]: the length bytes announce [payload]. *)
Lemma ev3_get_reply_frame (payload rest : list Z) (w : world) :
  Z.of_nat (length payload) < 65536 ->
  rx w = ev3_frame payload ++ rest ->
  ev3_get_reply w =
  (Ok (match payload with [] => None | _ => Some payload end),
   mkWorld (port_open w) rest (out w) (relposition w) (relscale w)).
Proof.
  intros Hl Hrx.
  destruct (firstn_skipn_prefix payload rest) as [F S].
  unfold ev3_get_reply, bind, read, lift, py_index, ret.
  cbn [port_open rx out relposition relscale]. rewrite Hrx. unfold ev3_frame.
  change (Z.to_nat 2) with 2%nat. cbn [app firstn skipn nth_error].
  rewrite len_header_decode by lia. rewrite Nat2Z.id, F, S.
  destruct payload; reflexivity.
Qed.

Lemma ev3_send_reply (message payload rest : list Z) (w : world) :
  Z.of_nat (length message) < 65536 ->
  Z.of_nat (length payload) < 65536 ->
  port_open w = true ->
  rx w = ev3_frame payload ++ rest ->
  ev3_send message w =
  (Ok (match payload with [] => None | _ => Some payload end),
   mkWorld true rest (out w ++ [Written (ev3_frame message)]) (relposition w) (relscale w)).
Proof.
  intros Hm Hp Ho Hrx.
  unfold ev3_send, bind at 1, lift at 1.
  rewrite py_bytes_len by lia.
  unfold bind at 1, isOpen. rewrite Ho.
  unfold bind, write, emit.
  rewrite (ev3_get_reply_frame payload rest); [|exact Hp|exact Hrx].
  cbn [port_open out relposition relscale]. rewrite Ho. reflexivity.
Qed.

(** X1.  [EV3.send] on a closed port writes nothing and reads nothing: it
    logs the port error and returns [None]. *)
Theorem ev3_send_closed (message : list Z) (w : world)
  (Hm : Z.of_nat (length message) < 65536) (Ho : port_open w = false) :
  ev3_send message w = (Ok None, logged w EV3PortNotOpen).
Proof.
  unfold ev3_send, bind at 1, lift at 1.
  rewrite py_bytes_len by lia.
  unfold bind, isOpen. rewrite Ho. reflexivity.
Qed.

Lemma ev3_send_closed_witness :
  Z.of_nat (length [1; 2; 3]) < 65536 /\
  ev3_send [1; 2; 3] (ev3_session false [9; 9]) = (Ok None, logged (ev3_session false [9; 9]) EV3PortNotOpen).
Proof.
  split; [cbn; lia|]. apply ev3_send_closed; [cbn; lia|reflexivity].
Defined.

(** X2.  With the port open, [EV3.send] writes the message behind its
    two-byte little-endian length (which decodes back to the length), then
    returns the payload its reply's length bytes announce ([None] when
    empty) and consumes exactly that reply. *)
Theorem ev3_send_roundtrip (message payload rest : list Z) (w : world)
  (Hm : Z.of_nat (length message) < 65536)
  (Hp : Z.of_nat (length payload) < 65536)
  (Ho : port_open w = true)
  (Hrx : rx w = ev3_frame payload ++ rest) :
  ev3_send message w =
  (Ok (match payload with [] => None | _ => Some payload end),
   mkWorld true rest (out w ++ [Written (ev3_frame message)]) (relposition w) (relscale w)) /\
  le_bytes (firstn 2 (ev3_frame message)) = Z.of_nat (length message).
Proof.
  split; [apply ev3_send_reply; assumption|].
  unfold ev3_frame. cbn [app firstn le_bytes].
  pose proof (len_header_decode (Z.of_nat (length message)) ltac:(lia)). lia.
Qed.

Lemma ev3_send_roundtrip_witness :
  let w := ev3_session true (ev3_frame [0; 0; 2; 0; 0; 128; 63] ++ [5]) in
  Z.of_nat (length [1; 2; 3]) < 65536 /\ Z.of_nat (length [0; 0; 2; 0; 0; 128; 63]) < 65536 /\
  port_open w = true /\ rx w = ev3_frame [0; 0; 2; 0; 0; 128; 63] ++ [5] /\
  fst (ev3_send [1; 2; 3] w) = Ok (Some [0; 0; 2; 0; 0; 128; 63]).
Proof.
  intros w. split; [cbn; lia|]. split; [cbn; lia|]. split; [reflexivity|]. split; [reflexivity|].
  destruct (ev3_send_roundtrip [1; 2; 3] [0; 0; 2; 0; 0; 128; 63] [5] w) as [H _];
    [cbn; lia|cbn; lia|reflexivity|reflexivity|].
  rewrite H. reflexivity.
Defined.

(** X3.  A message of 65536 bytes or more makes [bytes((len % 256,
    len // 256))] raise ValueError: [EV3.send] fails before writing,
    reading or logging anything, whether the port is open or not. *)
Theorem ev3_send_too_long (message : list Z) (w : world)
  (Hm : 65536 <= Z.of_nat (length message)) :
  ev3_send message w = (Exc ValueError, w).
Proof.
  unfold ev3_send, bind at 1, lift at 1, py_bytes.
  set (n := Z.of_nat (length message)).
  assert (E : (0 <=? n / 256) && (n / 256 <? 256) = false).
  { assert (256 <= n / 256) by (apply Z.div_le_lower_bound; lia).
    destruct (n / 256 <? 256) eqn:E; [apply Z.ltb_lt in E; lia|].
    apply andb_false_r. }
  cbn [forallb]. rewrite E, !andb_false_r. reflexivity.
Qed.

Lemma ev3_send_too_long_witness :
  65536 <= Z.of_nat (length (repeat 0 (Z.to_nat 65536))) /\
  ev3_send (repeat 0 (Z.to_nat 65536)) (ev3_session true []) = (Exc ValueError, ev3_session true []).
Proof.
  split; [rewrite repeat_length, Z2Nat.id; lia|].
  apply ev3_send_too_long. rewrite repeat_length, Z2Nat.id; lia.
Defined.

(** X4.  When the device sends fewer than two bytes back, [EV3.send]
    raises IndexError at [replen[1]] after having written the frame. *)
Theorem ev3_send_no_reply (message : list Z) (w : world)
  (Hm : Z.of_nat (length message) < 65536) (Ho : port_open w = true)
  (Hrx : (length (rx w) < 2)%nat) :
  fst (ev3_send message w) = Exc IndexError /\
  out (snd (ev3_send message w)) = out w ++ [Written (ev3_frame message)].
Proof.
  split; [|apply ev3_send_out; assumption].
  unfold ev3_send, bind at 1, lift at 1.
  rewrite py_bytes_len by lia.
  unfold bind at 1, isOpen. rewrite Ho.
  unfold bind, write, emit, ev3_get_reply, read, lift, py_index.
  cbn [rx]. change (Z.to_nat 2) with 2%nat.
  destruct (rx w) as [|b0 [|b1 r]]; [reflexivity|reflexivity|cbn in Hrx; lia].
Qed.

Lemma ev3_send_no_reply_witness :
  Z.of_nat (length [1; 2]) < 65536 /\ port_open (ev3_session true [7]) = true /\
  (length (rx (ev3_session true [7%Z])) < 2)%nat /\
  fst (ev3_send [1; 2] (ev3_session true [7])) = Exc IndexError.
Proof.
  split; [cbn; lia|]. split; [reflexivity|]. split; [cbn; lia|].
  apply (ev3_send_no_reply [1; 2] (ev3_session true [7])); [cbn; lia|reflexivity|cbn; lia].
Defined.

(** ** The operand encoders on ints *)

Lemma land255_mod (z : Z) : Z.land z 255 = z mod 256.
Proof. change 255 with (Z.ones 8). rewrite Z.land_ones by lia. reflexivity. Qed.

Lemma byte_k (z k : Z) : 0 <= k -> Z.land (Z.shiftr z k) 255 = (z / 2 ^ k) mod 256.
Proof. intros Hk. rewrite land255_mod, Z.shiftr_div_pow2 by lia. reflexivity. Qed.

Lemma mod_mul_split (a b c : Z) :
  0 < b -> 0 < c -> a mod (b * c) = a mod b + b * ((a / b) mod c).
Proof.
  intros Hb Hc. symmetry. apply Z.mod_unique with (q := a / b / c).
  - pose proof (Z.mod_pos_bound a b Hb). pose proof (Z.mod_pos_bound (a / b) c Hc). left; nia.
  - pose proof (Z.div_mod a b ltac:(lia)). pose proof (Z.div_mod (a / b) c ltac:(lia)). nia.
Qed.

Lemma two_bytes (z : Z) : z mod 256 + 256 * ((z / 256) mod 256) = z mod 65536.
Proof. rewrite <- mod_mul_split by lia. reflexivity. Qed.

Lemma four_bytes (z : Z) :
  z mod 256 + 256 * ((z / 256) mod 256 + 256 * ((z / 65536) mod 256 + 256 * ((z / 16777216) mod 256)))
  = z mod 4294967296.
Proof.
  replace (z / 16777216) with (z / 256 / 256 / 256) by (rewrite !Z.div_div by lia; reflexivity).
  replace (z / 65536) with (z / 256 / 256) by (rewrite !Z.div_div by lia; reflexivity).
  rewrite <- (mod_mul_split (z / 256 / 256)) by lia.
  rewrite <- (mod_mul_split (z / 256)) by lia.
  rewrite <- mod_mul_split by lia. reflexivity.
Qed.

Lemma signed_of_mod (n v : Z) :
  1 <= n -> - 2 ^ (n - 1) <= v < 2 ^ (n - 1) -> signed_of n (v mod 2 ^ n) = v.
Proof.
  intros Hn Hv. unfold signed_of.
  assert (E : 2 ^ n = 2 * 2 ^ (n - 1)).
  { rewrite <- Z.pow_succ_r by lia. f_equal. lia. }
  pose proof (Z.div_mod v (2 ^ n) ltac:(lia)).
  pose proof (Z.mod_pos_bound v (2 ^ n) ltac:(lia)).
  set (q := v / 2 ^ n) in *. set (r := v mod 2 ^ n) in *.
  assert (q = 0 \/ q = -1) as [Hq|Hq] by nia.
  - subst q. destruct (Z.ltb_spec r (2 ^ (n - 1))); lia.
  - subst q. destruct (Z.ltb_spec r (2 ^ (n - 1))); lia.
Qed.

(** X5.  On an int [v], [pack2b], [pack3b] and [pack5b] write the opcode
    byte 129, 130 or 131 and then [v] modulo [2^8], [2^16], [2^32] as
    little-endian bytes (never failing); read back as a two's-complement
    field of that width they give [v] exactly when [v] fits it. *)
Theorem encoders_int_twos_complement (v : Z) :
  (exists bs, pack2b (PInt v) = Ok (129 :: bs) /\ length bs = 1%nat /\ le_bytes bs = v mod 2 ^ 8 /\
     (- 2 ^ 7 <= v < 2 ^ 7 -> signed_of 8 (le_bytes bs) = v)) /\
  (exists bs, pack3b (PInt v) = Ok (130 :: bs) /\ length bs = 2%nat /\ le_bytes bs = v mod 2 ^ 16 /\
     (- 2 ^ 15 <= v < 2 ^ 15 -> signed_of 16 (le_bytes bs) = v)) /\
  (exists bs, pack5b (PInt v) = Ok (131 :: bs) /\ length bs = 4%nat /\ le_bytes bs = v mod 2 ^ 32 /\
     (- 2 ^ 31 <= v < 2 ^ 31 -> signed_of 32 (le_bytes bs) = v)).
Proof.
  split; [|split].
  - eexists. split; [apply pack2b_int|]. split; [reflexivity|].
    assert (L : le_bytes [Z.land v 255] = v mod 2 ^ 8).
    { cbn [le_bytes]. rewrite land255_mod. change (2 ^ 8) with 256. lia. }
    split; [exact L|]. intros H. rewrite L. apply signed_of_mod; lia.
  - eexists. split.
    + unfold pack3b, py_bytes, pybind, pyround, forallb. rewrite !land255_range. reflexivity.
    + split; [reflexivity|].
      assert (L : le_bytes [Z.land v 255; Z.land (Z.shiftr v 8) 255] = v mod 2 ^ 16).
      { cbn [le_bytes]. rewrite land255_mod, byte_k by lia. change (2 ^ 8) with 256.
        change (2 ^ 16) with 65536. rewrite <- two_bytes. lia. }
      split; [exact L|]. intros H. rewrite L. apply signed_of_mod; lia.
  - eexists. split; [apply pack5b_int|]. split; [reflexivity|].
    assert (L : le_bytes [Z.land v 255; Z.land (Z.shiftr v 8) 255;
                          Z.land (Z.shiftr v 16) 255; Z.land (Z.shiftr v 24) 255] = v mod 2 ^ 32).
    { cbn [le_bytes]. rewrite land255_mod, !byte_k by lia.
      change (2 ^ 8) with 256. change (2 ^ 16) with 65536. change (2 ^ 24) with 16777216.
      change (2 ^ 32) with 4294967296. rewrite <- four_bytes. lia. }
    split; [exact L|]. intros H. rewrite L. apply signed_of_mod; lia.
Qed.

Lemma encoders_int_twos_complement_witness :
  pack5b (PInt (-2)) = Ok [131; 254; 255; 255; 255] /\ signed_of 32 (le_bytes [254; 255; 255; 255]) = -2.
Proof.
  destruct (encoders_int_twos_complement (-2)) as [_ [_ (bs & H1 & _ & _ & H4)]].
  split; [reflexivity|].
  assert (bs = [254; 255; 255; 255]) as <- by (vm_compute in H1; injection H1 as <-; reflexivity).
  apply H4. lia.
Defined.

(** ** Sequential [EV3.rotate] *)

(** Frames [EV3.rotate] writes in sequential mode, one per nonzero angle,
    with the operands written out ([pack2b(speed)] is [129, speed & 255],
    [pack5b] is [bytes5]). *)
Definition seq_bytes (i : nat) (a speed : Z) : list Z :=
  let m := motorbit i in
  ev3_header ++ polarity m a ++
  ([174; 0; m] ++ [129; Z.land speed 255] ++ bytes5 0 ++ bytes5 a ++ bytes5 0 ++ [1]) ++
  [166; 0; m] ++ ev3_wait.

Fixpoint seq_frames (i : nat) (ms : list Z) (speed : Z) : list event :=
  match ms with
  | [] => []
  | a :: ms' =>
      if a =? 0 then seq_frames (S i) ms' speed
      else Written (ev3_frame (seq_bytes i a speed)) :: seq_frames (S i) ms' speed
  end.

Fixpoint count_nonzero (ms : list Z) : nat :=
  match ms with
  | [] => O
  | a :: ms' => if a =? 0 then count_nonzero ms' else S (count_nonzero ms')
  end.

Lemma seq_message_ok (i : nat) (a speed : Z) : seq_message i a speed = Ok (seq_bytes i a speed).
Proof.
  unfold seq_message. rewrite pack2b_int, !pack5b_int. reflexivity.
Qed.

Lemma seq_bytes_length (i : nat) (a speed : Z) : length (seq_bytes i a speed) = 36%nat.
Proof. unfold seq_bytes, polarity. destruct (a <? 0); reflexivity. Qed.

Lemma seq_rotate_replies (ms : list Z) :
  forall (i : nat) (speed : Z) (replies : list (list Z)) (rest : list Z) (w : world),
  port_open w = true ->
  length replies = count_nonzero ms ->
  Forall (fun p => Z.of_nat (length p) < 65536) replies ->
  rx w = concat (map ev3_frame replies) ++ rest ->
  seq_rotate i ms speed w =
  (Ok tt, mkWorld true rest (out w ++ seq_frames i ms speed) (relposition w) (relscale w)).
Proof.
  induction ms as [|a ms IH]; intros i speed replies rest w Ho Hn Hp Hrx.
  - destruct replies; [|discriminate Hn]. cbn in Hrx |- *. rewrite app_nil_r.
    destruct w; cbn in *; subst; reflexivity.
  - cbn [seq_rotate seq_frames]. cbn [count_nonzero] in Hn.
    destruct (a =? 0).
    + exact (IH (S i) speed replies rest w Ho Hn Hp Hrx).
    + destruct replies as [|p replies]; [discriminate Hn|].
      inversion Hp as [|? ? Hp1 Hp2]; subst.
      unfold bind at 1, lift at 1. rewrite seq_message_ok.
      cbn [concat map] in Hrx. rewrite <- app_assoc in Hrx.
      unfold bind at 1.
      rewrite (ev3_send_reply _ p (concat (map ev3_frame replies) ++ rest) w);
        [|rewrite seq_bytes_length; lia|exact Hp1|exact Ho|exact Hrx].
      unfold bind, delaymove, ret.
      rewrite (IH (S i) speed replies rest); [|reflexivity|cbn in Hn; lia|exact Hp2|reflexivity].
      cbn [out relposition relscale]. rewrite <- app_assoc. reflexivity.
Qed.

Lemma seq_rotate_silent (ms : list Z) :
  forall (i : nat) (speed : Z) (w : world),
  port_open w = true -> rx w = [] ->
  seq_rotate i ms speed w =
  match seq_frames i ms speed with
  | [] => (Ok tt, w)
  | f :: _ => (Exc IndexError, mkWorld true [] (out w ++ [f]) (relposition w) (relscale w))
  end.
Proof.
  induction ms as [|a ms IH]; intros i speed w Ho Hrx; [reflexivity|].
  cbn [seq_rotate seq_frames]. destruct (a =? 0); [apply IH; assumption|].
  unfold bind at 1, lift at 1. rewrite seq_message_ok.
  unfold ev3_send, bind, lift. rewrite py_bytes_len by (rewrite seq_bytes_length; lia).
  unfold isOpen. rewrite Ho.
  unfold write, emit, ev3_get_reply, read, py_index. cbn [rx]. rewrite Hrx.
  destruct w; cbn in *; subst. reflexivity.
Qed.

Lemma seq_rotate_closed (ms : list Z) :
  forall (i : nat) (speed : Z) (w : world),
  port_open w = false ->
  seq_rotate i ms speed w =
  (Ok tt, mkWorld false (rx w) (out w ++ repeat (Logged EV3PortNotOpen) (count_nonzero ms))
                  (relposition w) (relscale w)).
Proof.
  induction ms as [|a ms IH]; intros i speed w Ho.
  - cbn. rewrite app_nil_r. destruct w; cbn in *; subst; reflexivity.
  - cbn [seq_rotate count_nonzero]. destruct (a =? 0); [apply IH; assumption|].
    unfold bind at 1, lift at 1. rewrite seq_message_ok.
    unfold bind at 1. rewrite ev3_send_closed by (rewrite ?seq_bytes_length; first [lia|assumption]).
    unfold bind, delaymove, ret, logged.
    rewrite IH by assumption. cbn [rx out relposition relscale repeat].
    rewrite <- app_assoc. reflexivity.
Qed.

Lemma seq_frames_shape (ms : list Z) :
  forall (i : nat) (speed : Z),
  Forall (fun e => exists b, e = Written b /\ length b = 38%nat) (seq_frames i ms speed).
Proof.
  induction ms as [|a ms IH]; intros i speed; [constructor|].
  cbn [seq_frames]. destruct (a =? 0); [apply IH|].
  constructor; [|apply IH]. eexists. split; [reflexivity|].
  unfold ev3_frame. rewrite length_app, seq_bytes_length. reflexivity.
Qed.

(** X6.  In sequential mode (at most 4 angles, port open), when the device
    answers every message, [EV3.rotate] sends one 38-byte frame per nonzero
    angle, in motor order, each carrying that motor's polarity, the
    run-to-angle instruction with [speed] and the angle, the start and the
    wait instructions, and consumes exactly one reply per frame; a zero
    (or None, or omitted) angle sends nothing. *)
Theorem ev3_rotate_sequential (motors : list (option Z)) (speed : Z) (w : world)
  (replies : list (list Z)) (rest : list Z)
  (Hlen : (length motors <= 4)%nat) (Ho : port_open w = true)
  (Hn : length replies = count_nonzero (normalize 4 motors))
  (Hp : Forall (fun p => Z.of_nat (length p) < 65536) replies)
  (Hrx : rx w = concat (map ev3_frame replies) ++ rest) :
  ev3_rotate motors speed false w =
  (Ok tt, mkWorld true rest (out w ++ seq_frames 0 (normalize 4 motors) speed)
                  (relposition w) (relscale w)) /\
  Forall (fun e => exists b, e = Written b /\ length b = 38%nat) (seq_frames 0 (normalize 4 motors) speed).
Proof.
  split.
  - unfold ev3_rotate. destruct (4 <? length motors)%nat eqn:E; [apply Nat.ltb_lt in E; lia|].
    apply (seq_rotate_replies _ 0 speed replies); assumption.
  - apply seq_frames_shape.
Qed.

Definition seq_demo_world : world :=
  ev3_session true (ev3_frame [2] ++ ev3_frame [2] ++ [7]).

Lemma ev3_rotate_sequential_witness :
  (length [None; Some 90%Z; Some (-30)%Z] <= 4)%nat /\ port_open seq_demo_world = true /\
  length [[2]; [2]] = count_nonzero (normalize 4 [None; Some 90; Some (-30)]) /\
  Forall (fun p => Z.of_nat (length p) < 65536) [[2]; [2]] /\
  rx seq_demo_world = concat (map ev3_frame [[2]; [2]]) ++ [7] /\
  fst (ev3_rotate [None; Some 90; Some (-30)] 50 false seq_demo_world) = Ok tt.
Proof.
  split; [cbn; lia|]. split; [reflexivity|]. split; [reflexivity|].
  split; [repeat constructor; cbn; lia|]. split; [reflexivity|].
  destruct (ev3_rotate_sequential [None; Some 90; Some (-30)] 50 seq_demo_world [[2]; [2]] [7])
    as [H _]; [cbn; lia|reflexivity|reflexivity|repeat constructor; cbn; lia|reflexivity|].
  rewrite H. reflexivity.
Defined.

(** X7.  In sequential mode with the port open and a silent device (no
    byte to read), [EV3.rotate] writes the frame of the first nonzero angle
    and then raises IndexError reading the reply length: later motors are
    not sent.  With no nonzero angle it writes nothing, reads nothing and
    changes nothing (unlike simultaneous mode). *)
Theorem ev3_rotate_sequential_silent (motors : list (option Z)) (speed : Z) (w : world)
  (Hlen : (length motors <= 4)%nat) (Ho : port_open w = true) (Hrx : rx w = []) :
  ev3_rotate motors speed false w =
  match seq_frames 0 (normalize 4 motors) speed with
  | [] => (Ok tt, w)
  | f :: _ => (Exc IndexError, mkWorld true [] (out w ++ [f]) (relposition w) (relscale w))
  end.
Proof.
  unfold ev3_rotate. destruct (4 <? length motors)%nat eqn:E; [apply Nat.ltb_lt in E; lia|].
  apply seq_rotate_silent; assumption.
Qed.

Lemma ev3_rotate_sequential_silent_witness :
  (length [Some 0%Z; Some 90%Z; Some 45%Z] <= 4)%nat /\ port_open (ev3_session true []) = true /\
  rx (ev3_session true []) = [] /\
  fst (ev3_rotate [Some 0; Some 90; Some 45] 50 false (ev3_session true [])) = Exc IndexError /\
  ev3_rotate [Some 0; None] 50 false (ev3_session true []) = (Ok tt, ev3_session true []).
Proof.
  split; [cbn; lia|]. split; [reflexivity|]. split; [reflexivity|]. split.
  - rewrite (ev3_rotate_sequential_silent [Some 0; Some 90; Some 45] 50 (ev3_session true []));
      [reflexivity|cbn; lia|reflexivity|reflexivity].
  - rewrite (ev3_rotate_sequential_silent [Some 0; None] 50 (ev3_session true []));
      [reflexivity|cbn; lia|reflexivity|reflexivity].
Defined.

(** X8.  In sequential mode on a closed port, [EV3.rotate] writes nothing
    and reads nothing: it logs the port error once per nonzero angle and
    returns normally. *)
Theorem ev3_rotate_sequential_closed (motors : list (option Z)) (speed : Z) (w : world)
  (Hlen : (length motors <= 4)%nat) (Ho : port_open w = false) :
  ev3_rotate motors speed false w =
  (Ok tt, mkWorld false (rx w) (out w ++ repeat (Logged EV3PortNotOpen) (count_nonzero (normalize 4 motors)))
                  (relposition w) (relscale w)).
Proof.
  unfold ev3_rotate. destruct (4 <? length motors)%nat eqn:E; [apply Nat.ltb_lt in E; lia|].
  apply seq_rotate_closed; assumption.
Qed.

Lemma ev3_rotate_sequential_closed_witness :
  (length [Some 10%Z; None; Some 20%Z] <= 4)%nat /\ port_open (ev3_session false [1]) = false /\
  out (snd (ev3_rotate [Some 10; None; Some 20] 50 false (ev3_session false [1]))) =
  [Logged EV3PortNotOpen; Logged EV3PortNotOpen].
Proof.
  split; [cbn; lia|]. split; [reflexivity|].
  rewrite (ev3_rotate_sequential_closed [Some 10; None; Some 20] 50 (ev3_session false [1]));
    [reflexivity|cbn; lia|reflexivity].
Defined.

(** ** The position table across [rotateto] *)

(** A computation that leaves [relposition] and [relscale] alone. *)
Definition keeps_tables {A} (c : M A) : Prop :=
  forall w, relposition (snd (c w)) = relposition w /\ relscale (snd (c w)) = relscale w.

Lemma keeps_ret {A} (a : A) : keeps_tables (ret a).
Proof. intros w. split; reflexivity. Qed.

Lemma keeps_lift {A} (r : pyres A) : keeps_tables (lift r).
Proof. intros w. split; reflexivity. Qed.

Lemma keeps_emit (e : event) : keeps_tables (emit e).
Proof. intros w. split; reflexivity. Qed.

Lemma keeps_read (n : Z) : keeps_tables (read n).
Proof. intros w. split; reflexivity. Qed.

Lemma keeps_isOpen : keeps_tables isOpen.
Proof. intros w. split; reflexivity. Qed.

Lemma keeps_rx_length : keeps_tables rx_length.
Proof. intros w. split; reflexivity. Qed.

Lemma keeps_bind {A B} (c : M A) (k : A -> M B) :
  keeps_tables c -> (forall a, keeps_tables (k a)) -> keeps_tables (bind c k).
Proof.
  intros Hc Hk w. unfold bind. destruct (Hc w) as [H1 H2].
  destruct (c w) as [[a|e] w'] eqn:E; cbn [snd] in *.
  - destruct (Hk a w') as [H3 H4]. rewrite H3, H4. auto.
  - auto.
Qed.

Lemma keeps_serial_write (b : list Z) : keeps_tables (serial_write b).
Proof.
  unfold serial_write. apply keeps_bind; [apply keeps_isOpen|].
  intros [|]; [apply keeps_emit|apply keeps_lift].
Qed.

Lemma keeps_serial_read (n : Z) : keeps_tables (serial_read n).
Proof.
  unfold serial_read. apply keeps_bind; [apply keeps_isOpen|].
  intros [|]; [apply keeps_read|apply keeps_lift].
Qed.

Ltac keeps_step :=
  match goal with
  | |- keeps_tables (serial_write _) => apply keeps_serial_write
  | |- keeps_tables (serial_read _) => apply keeps_serial_read
  | |- keeps_tables (bind _ _) => apply keeps_bind; [|intros ?]
  | |- keeps_tables (ret _) => apply keeps_ret
  | |- keeps_tables (lift _) => apply keeps_lift
  | |- keeps_tables (write _) => apply keeps_emit
  | |- keeps_tables (addlog _) => apply keeps_emit
  | |- keeps_tables (emit _) => apply keeps_emit
  | |- keeps_tables (read _) => apply keeps_read
  | |- keeps_tables isOpen => apply keeps_isOpen
  | |- keeps_tables rx_length => apply keeps_rx_length
  | |- keeps_tables delaymove => apply keeps_ret
  | |- keeps_tables (if ?b then _ else _) => destruct b
  | |- keeps_tables (match ?x with _ => _ end) => destruct x
  end.

Lemma keeps_ev3_send (message : list Z) : keeps_tables (ev3_send message).
Proof. unfold ev3_send, ev3_get_reply. repeat keeps_step. Qed.

Lemma keeps_seq_rotate (ms : list Z) : forall i speed, keeps_tables (seq_rotate i ms speed).
Proof.
  induction ms as [|a ms IH]; intros i speed; cbn [seq_rotate]; [apply keeps_ret|].
  destruct (a =? 0); [apply IH|].
  repeat first [apply keeps_ev3_send | apply IH | keeps_step].
Qed.

Lemma keeps_ev3_rotate (motors : list (option Z)) (speed : Z) (simult : bool) :
  keeps_tables (ev3_rotate motors speed simult).
Proof.
  unfold ev3_rotate. repeat first [apply keeps_ev3_send | apply keeps_seq_rotate | keeps_step].
Qed.

Lemma keeps_nxt_poll (fuel : nat) : forall k, keeps_tables (nxt_poll fuel k).
Proof.
  induction fuel as [|fuel IH]; intros k; cbn [nxt_poll]; repeat first [apply IH | keeps_step].
Qed.

Lemma keeps_nxt_rotate_loop (ms : list Z) : forall i speed, keeps_tables (nxt_rotate_loop i ms speed).
Proof.
  induction ms as [|a ms IH]; intros i speed; cbn [nxt_rotate_loop]; [apply keeps_ret|].
  destruct (a =? 0); [apply IH|].
  unfold nxt_ack. repeat first [apply keeps_nxt_poll | apply IH | keeps_step].
Qed.

Lemma keeps_nxt_rotate (motors : list (option Z)) (speed : Z) : keeps_tables (nxt_rotate motors speed).
Proof. unfold nxt_rotate. repeat first [apply keeps_nxt_rotate_loop | keeps_step]. Qed.


(** X9.  [rotateto] (at most 4 positions on the EV3, 3 on the NXT, tables
    of that width) stores the targets in [relposition] before calling
    [rotate], and [rotate] never touches the tables: after the call
    [relposition] holds the targets (absent positions keep their entry) and
    [relscale] is unchanged, whatever [rotate] did, even when it raised. *)
Theorem rotateto_table_committed (relpos : list (option Z)) (speed : Z) (simult : bool) (w : world) :
  ((length relpos <= 4)%nat -> length (relposition w) = 4%nat -> length (relscale w) = 4%nat ->
   let ps := relpos ++ repeat None (4 - length relpos) in
   relposition (snd (ev3_rotateto relpos speed simult w)) = rotateto_spec_positions ps (relposition w) /\
   relscale (snd (ev3_rotateto relpos speed simult w)) = relscale w) /\
  ((length relpos <= 3)%nat -> length (relposition w) = 3%nat -> length (relscale w) = 3%nat ->
   let ps := relpos ++ repeat None (3 - length relpos) in
   relposition (snd (nxt_rotateto relpos speed w)) = rotateto_spec_positions ps (relposition w) /\
   relscale (snd (nxt_rotateto relpos speed w)) = relscale w).
Proof.
  split; intros Hl Hp Hs ps.
  - unfold ev3_rotateto.
    destruct (4 <? length relpos)%nat eqn:E; [apply Nat.ltb_lt in E; lia|].
    fold ps. unfold bind at 1 2.
    change 0%nat with (@length Z []).
    rewrite !(rotateto_deltas_spec ps [] (relposition w) [] (relscale w) w);
      try reflexivity; try (unfold ps; rewrite ?length_app, ?repeat_length; lia).
    destruct (keeps_ev3_rotate (map Some (rotateto_spec_deltas ps (relposition w) (relscale w))) speed simult
      (mkWorld (port_open w) (rx w) (out w) ([] ++ rotateto_spec_positions ps (relposition w)) (relscale w)))
      as [H1 H2].
    rewrite H1, H2. auto.
  - unfold nxt_rotateto.
    destruct (3 <? length relpos)%nat eqn:E; [apply Nat.ltb_lt in E; lia|].
    fold ps. unfold bind at 1 2.
    change 0%nat with (@length Z []).
    rewrite !(rotateto_deltas_spec ps [] (relposition w) [] (relscale w) w);
      try reflexivity; try (unfold ps; rewrite ?length_app, ?repeat_length; lia).
    destruct (keeps_nxt_rotate (map Some (rotateto_spec_deltas ps (relposition w) (relscale w))) speed
      (mkWorld (port_open w) (rx w) (out w) ([] ++ rotateto_spec_positions ps (relposition w)) (relscale w)))
      as [H1 H2].
    rewrite H1, H2. auto.
Qed.

Lemma rotateto_table_committed_witness :
  let w := ev3_session true [] in
  (length [Some 90%Z] <= 4)%nat /\ length (relposition w) = 4%nat /\ length (relscale w) = 4%nat /\
  fst (ev3_rotateto [Some 90] 50 false w) = Exc IndexError /\
  relposition (snd (ev3_rotateto [Some 90] 50 false w)) = [90; 0; 0; 0].
Proof.
  intros w. split; [cbn; lia|]. split; [reflexivity|]. split; [reflexivity|].
  split; [vm_compute; reflexivity|].
  destruct (rotateto_table_committed [Some 90] 50 false w) as [H _].
  destruct H as [H1 _]; [cbn; lia|reflexivity|reflexivity|].
  rewrite H1. reflexivity.
Defined.

(** ** [EV3.spin] and [EV3.stop] *)

(** The bytes [spin] appends for motor [i] at int speed [s]. *)
Definition spin_block (i : nat) (s : Z) : list Z :=
  if s =? 0 then [163; 0; motorbit i; 1]
  else polarity (motorbit i) s ++ [165; 0; motorbit i; 129; Z.abs s mod 256; 166; 0; motorbit i].

Fixpoint spin_blocks (i : nat) (ss : list (option Z)) : list Z :=
  match ss with
  | [] => []
  | None :: ss' => spin_blocks (S i) ss'
  | Some s :: ss' => spin_block i s ++ spin_blocks (S i) ss'
  end.

Lemma spin_body_ok (ss : list (option Z)) : forall i, spin_body i ss = Ok (spin_blocks i ss).
Proof.
  induction ss as [|[s|] ss IH]; intros i; cbn [spin_body spin_blocks]; [reflexivity| |apply IH].
  unfold spin_sub, spin_block, polarity. rewrite IH.
  destruct (s =? 0); [reflexivity|].
  rewrite pack2b_int, land255_mod. destruct (s <? 0); reflexivity.
Qed.

Lemma spin_blocks_pad (ss : list (option Z)) (k : nat) :
  forall i, spin_blocks i (ss ++ repeat None k) = spin_blocks i ss.
Proof.
  induction ss as [|[s|] ss IH]; intros i; cbn [app spin_blocks].
  - revert i. induction k as [|k IHk]; intros i; [reflexivity|]. apply IHk.
  - rewrite IH. reflexivity.
  - apply IH.
Qed.

Lemma spin_blocks_length (ss : list (option Z)) :
  forall i, (length (spin_blocks i ss) <= 12 * length ss)%nat.
Proof.
  induction ss as [|[s|] ss IH]; intros i.
  - cbn. lia.
  - cbn [spin_blocks]. rewrite length_app. specialize (IH (S i)). cbn [length].
    assert (length (spin_block i s) <= 12)%nat.
    { unfold spin_block, polarity. destruct (s =? 0); [cbn; lia|].
      destruct (s <? 0); cbn; lia. }
    lia.
  - cbn [spin_blocks length]. specialize (IH (S i)). lia.
Qed.

(** X10.  [EV3.spin] with more than four speeds only logs its error.  With
    at most four (int) speeds and the port open it writes exactly one
    frame: the five-byte header, then for each given speed in order a stop
    instruction [163, 0, 2^i, 1] for 0, or polarity (63 reverse, 1
    forward), power [129, |s| mod 256] and start for a non-zero speed;
    when a reply follows, the call returns normally having consumed it. *)
Theorem ev3_spin_frame (speeds : list (option Z)) (w : world) :
  ((4 < length speeds)%nat -> ev3_spin speeds w = (Ok tt, logged w EV3SpinMax)) /\
  ((length speeds <= 4)%nat -> port_open w = true ->
   out (snd (ev3_spin speeds w)) = out w ++ [Written (ev3_frame (ev3_header ++ spin_blocks 0 speeds))] /\
   forall payload rest, Z.of_nat (length payload) < 65536 -> rx w = ev3_frame payload ++ rest ->
   ev3_spin speeds w =
   (Ok tt, mkWorld true rest (out w ++ [Written (ev3_frame (ev3_header ++ spin_blocks 0 speeds))])
                   (relposition w) (relscale w))).
Proof.
  split.
  - intros Hl. unfold ev3_spin.
    destruct (Nat.ltb_spec 4 (length speeds)); [reflexivity|lia].
  - intros Hl Ho. unfold ev3_spin.
    destruct (Nat.ltb_spec 4 (length speeds)); [lia|].
    rewrite spin_body_ok, spin_blocks_pad.
    assert (HL : Z.of_nat (length (ev3_header ++ spin_blocks 0 speeds)) < 65536).
    { pose proof (spin_blocks_length speeds 0). rewrite length_app. cbn [ev3_header length]. lia. }
    split.
    + unfold bind at 1, lift. cbn beta iota.
      unfold bind. pose proof (ev3_send_out _ w HL Ho) as E.
      destruct (ev3_send (ev3_header ++ spin_blocks 0 speeds) w) as [[r|e] w'];
        cbn [snd] in *; exact E.
    + intros payload rest Hp Hrx.
      unfold bind at 1, lift. cbn beta iota.
      unfold bind at 1. rewrite (ev3_send_reply _ payload rest w HL Hp Ho Hrx). reflexivity.
Qed.

Lemma ev3_spin_frame_witness :
  let w := ev3_session true (ev3_frame [] ++ [7]) in
  (length [Some (-300)%Z; None; Some 0%Z] <= 4)%nat /\ port_open w = true /\
  Z.of_nat (length (@nil Z)) < 65536 /\ rx w = ev3_frame [] ++ [7] /\
  ev3_spin [Some (-300); None; Some 0] w =
  (Ok tt, mkWorld true [7] [Written [21; 0; 0; 0; 0; 0; 0; 167; 0; 1; 63; 165; 0; 1; 129; 44; 166; 0; 1;
                                    163; 0; 4; 1]] [0; 0; 0; 0] [1; 1; 1; 1]).
Proof.
  intros w. split; [cbn; lia|]. split; [reflexivity|]. split; [cbn; lia|]. split; [reflexivity|].
  destruct (ev3_spin_frame [Some (-300); None; Some 0] w) as [_ H].
  destruct H as [_ H]; [cbn; lia|reflexivity|].
  rewrite (H [] [7]); [reflexivity|cbn; lia|reflexivity].
Defined.

(** X11.  [EV3.stop()] with the port open writes the single frame that
    stops the four motors ([163, 0, 2^i, 1] for i = 0..3), and [spin] with
    no speed given (or only [None]) still sends a frame with the bare
    five-byte header and waits for its reply. *)
Theorem ev3_stop_and_empty_spin (w : world) (k : nat) :
  port_open w = true ->
  out (snd (ev3_stop w)) =
  out w ++ [Written [21; 0; 0; 0; 0; 0; 0; 163; 0; 1; 1; 163; 0; 2; 1; 163; 0; 4; 1; 163; 0; 8; 1]] /\
  ((k <= 4)%nat -> out (snd (ev3_spin (repeat None k) w)) = out w ++ [Written [5; 0; 0; 0; 0; 0; 0]]).
Proof.
  intros Ho. split.
  - destruct (ev3_spin_frame [Some 0; Some 0; Some 0; Some 0] w) as [_ H].
    destruct H as [H _]; [cbn; lia|exact Ho|]. exact H.
  - intros Hk. destruct (ev3_spin_frame (repeat None k) w) as [_ H].
    destruct H as [H _]; [rewrite repeat_length; exact Hk|exact Ho|].
    rewrite H. change (repeat None k) with ([] ++ repeat (@None Z) k).
    rewrite spin_blocks_pad. reflexivity.
Qed.

Lemma ev3_stop_and_empty_spin_witness :
  port_open (ev3_session true []) = true /\ (0 <= 4)%nat /\
  out (snd (ev3_spin [] (ev3_session true []))) = [Written [5; 0; 0; 0; 0; 0; 0]].
Proof.
  split; [reflexivity|]. split; [lia|].
  destruct (ev3_stop_and_empty_spin (ev3_session true []) 0) as [_ H]; [reflexivity|].
  exact (H ltac:(lia)).
Defined.

(** ** [EV3.tone] *)

Lemma pack3b_int (z : Z) :
  pack3b (PInt z) = Ok [130; z mod 256; (z / 256) mod 256].
Proof.
  unfold pack3b, pybind, pyround.
  rewrite land255_mod, (byte_k z 8) by lia. change (2 ^ 8) with 256.
  unfold py_bytes. cbn [forallb].
  pose proof (Z.mod_pos_bound z 256 ltac:(lia)). pose proof (Z.mod_pos_bound (z / 256) 256 ltac:(lia)).
  replace ((0 <=? z mod 256) && (z mod 256 <? 256)) with true by (symmetry; apply andb_true_intro; split; [apply Z.leb_le|apply Z.ltb_lt]; lia).
  replace ((0 <=? (z / 256) mod 256) && ((z / 256) mod 256 <? 256)) with true by (symmetry; apply andb_true_intro; split; [apply Z.leb_le|apply Z.ltb_lt]; lia).
  reflexivity.
Qed.

Lemma two_bytes_eq (a b : Z) :
  a mod 65536 = b mod 65536 -> a mod 256 = b mod 256 /\ (a / 256) mod 256 = (b / 256) mod 256.
Proof.
  intros H. rewrite <- (two_bytes a), <- (two_bytes b) in H.
  pose proof (Z.mod_pos_bound a 256 ltac:(lia)). pose proof (Z.mod_pos_bound (a / 256) 256 ltac:(lia)).
  pose proof (Z.mod_pos_bound b 256 ltac:(lia)). pose proof (Z.mod_pos_bound (b / 256) 256 ltac:(lia)).
  lia.
Qed.

(** The tone message for int arguments. *)
Definition tone_bytes (frequency volume duration : Z) : list Z :=
  [0; 0; 0; 0; 0; 148; 1; 129; volume mod 256; 130; frequency mod 256; (frequency / 256) mod 256;
   130; duration mod 256; (duration / 256) mod 256; 150].

Lemma ev3_tone_int (f v d : Z) :
  ev3_tone (PInt f) (PInt v) (PInt d) = ev3_send (tone_bytes f v d) ;;; ret tt.
Proof.
  unfold ev3_tone. rewrite pack2b_int, land255_mod, !pack3b_int. reflexivity.
Qed.

(** X12.  [EV3.tone] with int arguments sends volume as one byte and
    frequency and duration as two little-endian bytes: with the port open
    it writes that one frame, and since the upper bits are dropped, two
    calls whose frequencies and durations agree modulo 65536 and whose
    volumes agree modulo 256 behave identically (e.g. volume 306 plays
    as 50, volume -1 as 255). *)
Theorem ev3_tone_wraps (f v d f' v' d' : Z) (w : world) :
  (port_open w = true ->
   out (snd (ev3_tone (PInt f) (PInt v) (PInt d) w)) = out w ++ [Written (ev3_frame (tone_bytes f v d))]) /\
  (f mod 65536 = f' mod 65536 -> v mod 256 = v' mod 256 -> d mod 65536 = d' mod 65536 ->
   ev3_tone (PInt f) (PInt v) (PInt d) w = ev3_tone (PInt f') (PInt v') (PInt d') w).
Proof.
  split.
  - intros Ho. rewrite ev3_tone_int. unfold bind at 1.
    pose proof (ev3_send_out (tone_bytes f v d) w ltac:(cbn; lia) Ho) as E.
    destruct (ev3_send (tone_bytes f v d) w) as [[r|e] w']; cbn [snd] in *; exact E.
  - intros Hf Hv Hd. rewrite !ev3_tone_int.
    destruct (two_bytes_eq f f' Hf) as [F1 F2]. destruct (two_bytes_eq d d' Hd) as [D1 D2].
    unfold tone_bytes. rewrite Hv, F1, F2, D1, D2. reflexivity.
Qed.

Lemma ev3_tone_wraps_witness :
  let w := ev3_session true [] in
  port_open w = true /\
  440 mod 65536 = 65976 mod 65536 /\ 306 mod 256 = 50 mod 256 /\ 200 mod 65536 = (-65336) mod 65536 /\
  ev3_tone (PInt 440) (PInt 306) (PInt 200) w = ev3_tone (PInt 65976) (PInt 50) (PInt (-65336)) w.
Proof.
  intros w. split; [reflexivity|]. split; [reflexivity|]. split; [reflexivity|]. split; [reflexivity|].
  destruct (ev3_tone_wraps 440 306 200 65976 50 (-65336) w) as [_ H].
  apply H; reflexivity.
Defined.

(** ** After [EV3.disconnect] *)

(** The byte strings written to the port, in order. *)
Fixpoint written (es : list event) : list (list Z) :=
  match es with
  | [] => []
  | Written b :: es' => b :: written es'
  | Logged _ :: es' => written es'
  end.

Lemma written_app (a b : list event) : written (a ++ b) = written a ++ written b.
Proof. induction a as [|[x|x] a IH]; cbn; rewrite ?IH; reflexivity. Qed.

(** A computation that, on a closed port, keeps it closed and writes nothing. *)
Definition silent_closed {A} (c : M A) : Prop :=
  forall w, port_open w = false ->
  port_open (snd (c w)) = false /\ written (out (snd (c w))) = written (out w).

Lemma silent_ret {A} (a : A) : silent_closed (ret a).
Proof. intros w Ho. split; [exact Ho|reflexivity]. Qed.

Lemma silent_lift {A} (r : pyres A) : silent_closed (lift r).
Proof. intros w Ho. split; [exact Ho|reflexivity]. Qed.

Lemma silent_addlog (l : errline) : silent_closed (addlog l).
Proof.
  intros w Ho. split; [exact Ho|]. cbn [addlog emit snd out].
  rewrite written_app. cbn. apply app_nil_r.
Qed.

Lemma silent_read (n : Z) : silent_closed (read n).
Proof. intros w Ho. split; [exact Ho|reflexivity]. Qed.

Lemma silent_get_relposition : silent_closed get_relposition.
Proof. intros w Ho. split; [exact Ho|reflexivity]. Qed.

Lemma silent_get_relscale : silent_closed get_relscale.
Proof. intros w Ho. split; [exact Ho|reflexivity]. Qed.

Lemma silent_set_relposition (p : list Z) : silent_closed (set_relposition p).
Proof. intros w Ho. split; [exact Ho|reflexivity]. Qed.

Lemma silent_bind {A B} (c : M A) (k : A -> M B) :
  silent_closed c -> (forall a, silent_closed (k a)) -> silent_closed (bind c k).
Proof.
  intros Hc Hk w Ho. unfold bind. destruct (Hc w Ho) as [H1 H2].
  destruct (c w) as [[a|e] w'] eqn:E; cbn [snd] in *.
  - destruct (Hk a w' H1) as [H3 H4]. rewrite H4. auto.
  - auto.
Qed.

Lemma silent_ev3_send (message : list Z) : silent_closed (ev3_send message).
Proof.
  intros w Ho. unfold ev3_send. destruct (py_bytes _).
  - cbv [bind lift isOpen]. rewrite Ho. cbv [addlog emit ret]. cbn [snd port_open out].
    split; [exact Ho|]. rewrite written_app. apply app_nil_r.
  - cbv [bind lift]. split; [exact Ho|reflexivity].
Qed.

Ltac silent_step :=
  match goal with
  | |- silent_closed (bind _ _) => apply silent_bind; [|intros ?]
  | |- silent_closed (ret _) => apply silent_ret
  | |- silent_closed (lift _) => apply silent_lift
  | |- silent_closed (addlog _) => apply silent_addlog
  | |- silent_closed (read _) => apply silent_read
  | |- silent_closed get_relposition => apply silent_get_relposition
  | |- silent_closed get_relscale => apply silent_get_relscale
  | |- silent_closed (set_relposition _) => apply silent_set_relposition
  | |- silent_closed (ev3_send _) => apply silent_ev3_send
  | |- silent_closed delaymove => apply silent_ret
  | |- silent_closed (if ?b then _ else _) => destruct b
  | |- silent_closed (match ?x with _ => _ end) => destruct x
  end.







Lemma silent_ev3_sensor (p : Z) : silent_closed (ev3_sensor p).
Proof. unfold ev3_sensor. repeat silent_step. Qed.

Lemma silent_ev3_sensor_light (p mode : Z) : silent_closed (ev3_sensor_light p mode).
Proof. unfold ev3_sensor_light. repeat silent_step. Qed.

Lemma sensor_message_ok (p mode : Z) :
  1 <= p <= 256 -> 0 <= mode < 256 ->
  py_bytes [0; 0; 0; 4; 0; 153; 29; 0; p - 1; 0; mode; 1; 96] =
  Ok [0; 0; 0; 4; 0; 153; 29; 0; p - 1; 0; mode; 1; 96].
Proof.
  intros Hp Hm. unfold py_bytes. cbn [forallb].
  replace ((0 <=? p - 1) && (p - 1 <? 256)) with true by (symmetry; apply andb_true_intro; split; [apply Z.leb_le|apply Z.ltb_lt]; lia).
  replace ((0 <=? mode) && (mode <? 256)) with true by (symmetry; apply andb_true_intro; split; [apply Z.leb_le|apply Z.ltb_lt]; lia).
  reflexivity.
Qed.



(** ** [EV3.sensor] and [EV3.sensor_light] *)

Lemma sensor_message_bad (p mode : Z) :
  p < 1 \/ 256 < p ->
  py_bytes [0; 0; 0; 4; 0; 153; 29; 0; p - 1; 0; mode; 1; 96] = Exc ValueError.
Proof.
  intros Hp. unfold py_bytes. cbn [forallb].
  replace ((0 <=? p - 1) && (p - 1 <? 256)) with false; [reflexivity|].
  symmetry. destruct (Z.leb_spec 0 (p - 1)); destruct (Z.ltb_spec (p - 1) 256); cbn; lia.
Qed.

Definition sensor_bytes (p mode : Z) : list Z := [0; 0; 0; 4; 0; 153; 29; 0; p - 1; 0; mode; 1; 96].

(** X14.  [EV3.sensor(portnum)]: a port number outside 1..256 makes
    [bytes(...)] raise ValueError before anything is sent.  Otherwise, with
    the port open, it writes one read request and consumes one reply; an
    empty reply raises TypeError, a reply of exactly status [0, 0, 2] and
    four data bytes gives the little-endian binary32 value of those bytes,
    and any other reply gives [None]. *)
Theorem ev3_sensor_reply (p : Z) (r rest : list Z) (w : world) :
  ((p < 1 \/ 256 < p) -> ev3_sensor p w = (Exc ValueError, w)) /\
  (1 <= p <= 256 -> port_open w = true -> Z.of_nat (length r) < 65536 -> rx w = ev3_frame r ++ rest ->
   snd (ev3_sensor p w) = mkWorld true rest (out w ++ [Written (ev3_frame (sensor_bytes p 0))])
                                  (relposition w) (relscale w) /\
   (r = [] -> fst (ev3_sensor p w) = Exc TypeError) /\
   (forall b0 b1 b2 b3, r = [0; 0; 2; b0; b1; b2; b3] ->
      fst (ev3_sensor p w) = Ok (Some (f32_decode (le_bytes [b0; b1; b2; b3])))) /\
   (r <> [] -> (firstn 3 r <> [0; 0; 2] \/ length r <> 7%nat) -> fst (ev3_sensor p w) = Ok None)).
Proof.
  split.
  - intros Hp. unfold ev3_sensor, bind at 1, lift at 1. rewrite sensor_message_bad by exact Hp. reflexivity.
  - intros Hp Ho Hr Hrx.
    assert (E : ev3_sensor p w =
      (match r with
       | [] => Exc TypeError
       | _ => if negb (bytes_eqb (firstn 3 r) [0; 0; 2]) then Ok None
              else if negb (length r =? 7)%nat then Ok None
              else Ok (Some (f32_decode (le_bytes (skipn 3 r))))
       end,
       mkWorld true rest (out w ++ [Written (ev3_frame (sensor_bytes p 0))]) (relposition w) (relscale w))).
    { unfold ev3_sensor, bind at 1, lift at 1. rewrite sensor_message_ok by lia.
      unfold bind at 1. rewrite (ev3_send_reply _ r rest w) by (first [cbn; lia|assumption]).
      destruct r as [|x r']; [reflexivity|].
      destruct (negb (bytes_eqb _ _)); [reflexivity|].
      destruct (negb (_ =? 7)%nat); reflexivity. }
    rewrite E. split; [reflexivity|]. split; [intros ->; reflexivity|]. split.
    + intros b0 b1 b2 b3 ->. reflexivity.
    + intros Hne Hbad. destruct r as [|x r']; [congruence|].
      cbv beta iota zeta delta [fst].
      unfold bytes_eqb. destruct (list_eq_dec Z.eq_dec (firstn 3 (x :: r')) [0; 0; 2]) as [Eq|Ne];
        [|reflexivity].
      destruct Hbad as [Hbad|Hbad]; [contradiction|].
      cbn [negb]. destruct (Nat.eqb_spec (length (x :: r')) 7); [contradiction|reflexivity].
Qed.

Lemma ev3_sensor_reply_witness :
  let w := ev3_session true (ev3_frame [0; 0; 2; 0; 0; 128; 63]) in
  1 <= 1 <= 256 /\ port_open w = true /\ Z.of_nat (length [0; 0; 2; 0; 0; 128; 63]) < 65536 /\
  rx w = ev3_frame [0; 0; 2; 0; 0; 128; 63] ++ [] /\
  fst (ev3_sensor 1 w) = Ok (Some (f32_decode (le_bytes [0; 0; 128; 63]))) /\
  f32_decode (le_bytes [0; 0; 128; 63]) = float_of_Z 1.
Proof.
  intros w. split; [lia|]. split; [reflexivity|]. split; [cbn; lia|].
  split; [reflexivity|]. split; [|vm_compute; reflexivity].
  destruct (ev3_sensor_reply 1 [0; 0; 2; 0; 0; 128; 63] [] w) as [_ H].
  destruct H as (_ & _ & H & _); [lia|reflexivity|cbn; lia|reflexivity|].
  apply H. reflexivity.
Defined.

(** X15.  [EV3.sensor_light(portnum, mode)] (port 1..256, int mode 0..255,
    port open) writes one read request carrying the mode and consumes one
    reply.  Unlike [sensor] it never checks the reply's status or length:
    it decodes the last four bytes of whatever came back, so an empty reply
    raises TypeError, one of 1 to 3 bytes raises [struct.error], and in
    mode 2 a value that does not round to a code 0..7 raises KeyError. *)
Theorem ev3_sensor_light_reply (p mode : Z) (r rest : list Z) (w : world)
  (Hp : 1 <= p <= 256) (Hm : 0 <= mode < 256) (Ho : port_open w = true)
  (Hr : Z.of_nat (length r) < 65536) (Hrx : rx w = ev3_frame r ++ rest) :
  snd (ev3_sensor_light p mode w) = mkWorld true rest (out w ++ [Written (ev3_frame (sensor_bytes p mode))])
                                           (relposition w) (relscale w) /\
  (r = [] -> fst (ev3_sensor_light p mode w) = Exc TypeError) /\
  ((0 < length r < 4)%nat -> fst (ev3_sensor_light p mode w) = Exc StructError) /\
  (forall pre b0 b1 b2 b3, r = pre ++ [b0; b1; b2; b3] ->
     let f := f32_decode (le_bytes [b0; b1; b2; b3]) in
     (mode <> 2 -> fst (ev3_sensor_light p mode w) = Ok (Light f)) /\
     (mode = 2 -> forall k, pyround_float f = Ok k ->
        fst (ev3_sensor_light p mode w) = match ev3colorsensor k with
                                          | Ok name => Ok (Color k name)
                                          | Exc e => Exc e
                                          end) /\
     (mode = 2 -> forall k, pyround_float f = Ok k -> (k < 0 \/ 7 < k) ->
        fst (ev3_sensor_light p mode w) = Exc KeyError)).
Proof.
  assert (E : ev3_sensor_light p mode w =
    (match r with
     | [] => Exc TypeError
     | _ => if negb (length (skipn (length r - 4) r) =? 4)%nat then Exc StructError
            else let f := f32_decode (le_bytes (skipn (length r - 4) r)) in
                 if mode =? 2 then
                   (code <-? pyround_float f ;; name <-? ev3colorsensor code ;; Ok (Color code name))
                 else Ok (Light f)
     end,
     mkWorld true rest (out w ++ [Written (ev3_frame (sensor_bytes p mode))]) (relposition w) (relscale w))).
  { unfold ev3_sensor_light, bind at 1, lift at 1. rewrite sensor_message_ok by lia.
    unfold bind at 1. rewrite (ev3_send_reply _ r rest w) by (first [cbn; lia|assumption]).
    destruct r as [|x r']; [reflexivity|].
    destruct (negb _); [reflexivity|].
    destruct (mode =? 2); [|reflexivity].
    unfold bind, lift, ret. destruct (pyround_float _) as [c|e]; [|reflexivity].
    cbn [pybind]. destruct (ev3colorsensor c); reflexivity. }
  rewrite E. split; [reflexivity|]. split; [intros ->; reflexivity|]. split.
  - intros Hl. destruct r as [|x r']; [cbn in Hl; lia|].
    cbv beta iota zeta delta [fst].
    replace (length (x :: r') - 4)%nat with 0%nat by lia. rewrite skipn_O.
    destruct (Nat.eqb_spec (length (x :: r')) 4); [lia|reflexivity].
  - intros pre b0 b1 b2 b3 -> f.
    assert (S4 : skipn (length (pre ++ [b0; b1; b2; b3]) - 4) (pre ++ [b0; b1; b2; b3]) = [b0; b1; b2; b3]).
    { rewrite length_app. cbn [length]. replace (length pre + 4 - 4)%nat with (length pre) by lia.
      rewrite skipn_app, skipn_all, Nat.sub_diag. reflexivity. }
    assert (NE : forall A (a b : A), (match pre ++ [b0; b1; b2; b3] with [] => a | _ => b end) = b).
    { intros A a b. destruct pre; reflexivity. }
    cbv beta iota zeta delta [fst]. rewrite NE, S4. cbn [length Nat.eqb negb]. fold f.
    split; [|split].
    + intros Hne. destruct (Z.eqb_spec mode 2); [contradiction|reflexivity].
    + intros -> k Hk. rewrite Z.eqb_refl, Hk. cbn [pybind].
      destruct (ev3colorsensor k); reflexivity.
    + intros -> k Hk Hout. rewrite Z.eqb_refl, Hk. cbn [pybind].
      unfold ev3colorsensor.
      destruct k as [|q|q]; [lia| |reflexivity].
      destruct q as [[[q|q|]|[q|q|]|]|[[q|q|]|[q|q|]|]|]; first [reflexivity | lia].
Qed.

Lemma ev3_sensor_light_reply_witness :
  let w := ev3_session true (ev3_frame [0; 0; 4; 0; 0; 0; 65]) in
  (1 <= 3 <= 256 /\ 0 <= 2 < 256 /\ port_open w = true /\
   Z.of_nat (length [0; 0; 4; 0; 0; 0; 65]) < 65536 /\ rx w = ev3_frame [0; 0; 4; 0; 0; 0; 65] ++ []) /\
  [0; 0; 4; 0; 0; 0; 65] = [0; 0; 4] ++ [0; 0; 0; 65] /\ 2 = 2 /\
  pyround_float (f32_decode (le_bytes [0; 0; 0; 65])) = Ok 8 /\ (8 < 0 \/ 7 < 8) /\
  fst (ev3_sensor_light 3 2 w) = Exc KeyError.
Proof.
  intros w. split; [repeat split; first [lia|reflexivity|cbn; lia]|].
  split; [reflexivity|]. split; [reflexivity|]. split; [vm_compute; reflexivity|]. split; [lia|].
  destruct (ev3_sensor_light_reply 3 2 [0; 0; 4; 0; 0; 0; 65] [] w) as (_ & _ & _ & H);
    [lia|lia|reflexivity|cbn; lia|reflexivity|].
  destruct (H [0; 0; 4] 0 0 0 65 eq_refl) as (_ & _ & H3).
  apply (H3 eq_refl 8); [vm_compute; reflexivity|lia].
Defined.

(** ** [NXT.start] *)

(** X16.  [NXT.start(rxe)] (port open) writes the start-program command
    [len + 3, 0, 128, 0] ++ rxe ++ [0] in one write and reads nothing back;
    a program name longer than 252 bytes makes [bytes((len(message), 0))]
    raise ValueError before anything is written. *)
Theorem nxt_start_command (rxe : list Z) (w : world) (Ho : port_open w = true) :
  ((length rxe <= 252)%nat ->
   nxt_start rxe w =
   (Ok tt, mkWorld true (rx w) (out w ++ [Written ([Z.of_nat (length rxe) + 3; 0; 128; 0] ++ rxe ++ [0])])
                   (relposition w) (relscale w))) /\
  ((253 <= length rxe)%nat -> nxt_start rxe w = (Exc ValueError, w)).
Proof.
  unfold nxt_start, bind, lift, py_bytes.
  rewrite !length_app. cbn [length forallb].
  replace (Z.of_nat (2 + (length rxe + 1))) with (Z.of_nat (length rxe) + 3) by lia.
  split.
  - intros Hl.
    replace ((0 <=? Z.of_nat (length rxe) + 3) && (Z.of_nat (length rxe) + 3 <? 256)) with true
      by (symmetry; apply andb_true_intro; split; [apply Z.leb_le|apply Z.ltb_lt]; lia).
    cbn. destruct w; cbn in *; subst. reflexivity.
  - intros Hl.
    replace ((0 <=? Z.of_nat (length rxe) + 3) && (Z.of_nat (length rxe) + 3 <? 256)) with false
      by (symmetry; apply andb_false_intro2, Z.ltb_ge; lia).
    reflexivity.
Qed.

Definition mindctrl_rxe : list Z := [77; 105; 110; 100; 67; 116; 114; 108; 46; 114; 120; 101].

Lemma nxt_start_command_witness :
  port_open (nxt_session true []) = true /\ (length mindctrl_rxe <= 252)%nat /\
  out (snd (nxt_start mindctrl_rxe (nxt_session true []))) =
  [Written [15; 0; 128; 0; 77; 105; 110; 100; 67; 116; 114; 108; 46; 114; 120; 101; 0]].
Proof.
  split; [reflexivity|]. split; [cbn; lia|].
  destruct (nxt_start_command mindctrl_rxe (nxt_session true []) eq_refl) as [H _].
  rewrite (H ltac:(cbn; lia)). reflexivity.
Defined.

(** ** [getstepper] arguments and waypoint width *)

Lemma firstn_all_length {A} (l : list A) (n : nat) : length l = n -> firstn n l = l.
Proof. intros <-. apply firstn_all. Qed.

Lemma resize_start_normal (start end_ : list (option Z)) :
  resize_start (map Some (resize_start start end_)) (map Some (map none_to_0 end_)) =
  resize_start start end_.
Proof.
  unfold resize_start at 1. rewrite map_none_to_0_Some, !length_map.
  rewrite firstn_all_length by apply resize_start_length.
  rewrite resize_start_length, Nat.sub_diag. apply app_nil_r.
Qed.

(** X17.  How [getstepper] reads its arguments: with no list it raises
    IndexError; with one list, or with three or more, the first list is
    the end and the start is all zeros (further lists are ignored); with
    two lists, [None] counts as 0 and the start is cut or zero-padded to
    the end's length, so the plan is the one of the normalised lists; an
    empty end raises ValueError. *)
Theorem getstepper_arguments (lists : list (list (option Z))) :
  (lists = [] -> getstepper lists = Exc IndexError) /\
  (forall e rest, lists = e :: rest -> length lists <> 2%nat -> getstepper lists = getstepper [[Some 0]; e]) /\
  (forall s e, lists = [s; e] ->
     getstepper lists = getstepper [map Some (resize_start s e); map Some (map none_to_0 e)]) /\
  (forall s, lists = [s; []] -> getstepper lists = Exc ValueError).
Proof.
  split; [|split; [|split]].
  - intros ->. reflexivity.
  - intros e rest -> Hl. unfold getstepper at 1.
    destruct (Nat.eqb_spec (length (e :: rest)) 2); [contradiction|]. reflexivity.
  - intros s e ->. unfold getstepper. cbn [length Nat.eqb nth pybind].
    rewrite resize_start_normal, map_none_to_0_Some. reflexivity.
  - intros s ->. unfold getstepper. cbn [length Nat.eqb nth pybind].
    unfold resize_start. cbn. reflexivity.
Qed.

Lemma getstepper_arguments_witness :
  [[Some 4%Z]; [Some 1%Z]; [Some 9%Z]] = [Some 4] :: [[Some 1]; [Some 9]] /\
  length [[Some 4%Z]; [Some 1%Z]; [Some 9%Z]] <> 2%nat /\
  getstepper [[Some 4]; [Some 1]; [Some 9]] = getstepper [[Some 0]; [Some 4]] /\
  getstepper [[Some 4]; [Some 1]; [Some 9]] = Ok [[0]; [1]; [2]; [3]; [4]].
Proof.
  split; [reflexivity|]. split; [cbn; lia|].
  destruct (getstepper_arguments [[Some 4]; [Some 1]; [Some 9]]) as (_ & H & _).
  rewrite (H [Some 4] [[Some 1]; [Some 9]] eq_refl ltac:(cbn; lia)).
  split; [reflexivity|vm_compute; reflexivity].
Defined.

Lemma py_mapM_length {A B} (f : A -> pyres B) (l : list A) (r : list B) :
  py_mapM f l = Ok r -> length r = length l.
Proof.
  revert r. induction l as [|x l IH]; intros r H; cbn [py_mapM] in H.
  - injection H as <-. reflexivity.
  - destruct (f x); cbn [pybind] in H; [|discriminate H].
    destruct (py_mapM f l) eqn:E; cbn [pybind] in H; [|discriminate H].
    injection H as <-. cbn [length]. f_equal. apply IH. reflexivity.
Qed.

Lemma stepper_iter_width (n : nat) :
  forall (st inc : list spec_float) (rows : list (list Z)),
  length inc = length st ->
  stepper_iter n st inc = Ok rows -> Forall (fun row => length row = length st) rows.
Proof.
  induction n as [|n IH]; intros st inc rows Hl H; cbn [stepper_iter] in H.
  - injection H as <-. constructor.
  - destruct (py_mapM _ _) as [row|e] eqn:Hrow; cbn [pybind] in H; [|discriminate H].
    destruct (stepper_iter n _ inc) as [rest|e] eqn:Hr; cbn [pybind] in H; [|discriminate H].
    injection H as <-.
    assert (Lst : length (map (fun '(s, i) => SFadd prec64 emax64 s i) (combine st inc)) = length st).
    { rewrite length_map, length_combine. lia. }
    constructor.
    + rewrite (py_mapM_length _ _ _ Hrow). exact Lst.
    + rewrite <- Lst. apply (IH _ inc); [rewrite Lst; exact Hl|exact Hr].
Qed.

(** X18.  Every waypoint [getstepper] returns has one entry per element of
    the end list, whatever the length of the start list. *)
Theorem getstepper_width (lists : list (list (option Z))) (wps : list (list Z))
  (H : getstepper lists = Ok wps) :
  let end_ := if (length lists =? 2)%nat then nth 1 lists [] else nth 0 lists [] in
  Forall (fun row => length row = length end_) wps.
Proof.
  unfold getstepper in H.
  cbv zeta. set (end_ := if (length lists =? 2)%nat then nth 1 lists [] else nth 0 lists []).
  assert (Hse : exists s, (if (length lists =? 2)%nat then Ok (nth 0 lists [], nth 1 lists [])
                          else e <-? py_index lists 0 ;; Ok ([Some 0], e)) = Ok (s, end_)
                \/ (if (length lists =? 2)%nat then Ok (nth 0 lists [], nth 1 lists [])
                    else e <-? py_index lists 0 ;; Ok ([Some 0], e)) = Exc IndexError).
  { subst end_. destruct (length lists =? 2)%nat; [eexists; left; reflexivity|].
    unfold py_index. destruct lists as [|l0 ls]; [exists []; right; reflexivity|].
    eexists; left; reflexivity. }
  destruct Hse as [s [E|E]]; rewrite E in H; cbn [pybind] in H; [|discriminate H].
  destruct (map _ (combine _ _)) as [|d ds] eqn:Hd; cbn [pybind] in H; [discriminate H|].
  destruct (py_mapM (fun d0 => py_int_truediv d0 _) _) as [inc|e] eqn:Hinc; cbn [pybind] in H; [|discriminate H].
  destruct (py_mapM py_float_of_int _) as [xs|e] eqn:Hxs; cbn [pybind] in H; [|discriminate H].
  destruct (stepper_iter _ _ _) as [rows|e] eqn:Hr; cbn [pybind] in H; [|discriminate H].
  injection H as <-. constructor; [apply resize_start_length|].
  assert (Ld : length (d :: ds) = length end_).
  { rewrite <- Hd, length_map, length_combine, length_map, resize_start_length. lia. }
  assert (Lxs : length xs = length end_) by (rewrite (py_mapM_length _ _ _ Hxs); apply resize_start_length).
  rewrite <- Lxs.
  refine (stepper_iter_width _ _ _ _ _ Hr).
  rewrite (py_mapM_length _ _ _ Hinc), Ld, Lxs. reflexivity.
Qed.

Lemma getstepper_width_witness :
  getstepper [[Some 1; None; Some 3]; [Some 2; Some (-1)]] = Ok [[1; 0]; [2; -1]] /\
  Forall (fun row => length row = 2%nat) [[1; 0]; [2; -1]].
Proof.
  split; [vm_compute; reflexivity|].
  exact (getstepper_width [[Some 1; None; Some 3]; [Some 2; Some (-1)]] [[1; 0]; [2; -1]]
           ltac:(vm_compute; reflexivity)).
Defined.

(** ** [melody] *)

(** The literal [1 / 12] of [halftone] is the int division, which is
    [one_twelfth]. *)
Lemma one_twelfth_ok : py_int_truediv 1 12 = Ok one_twelfth.
Proof. vm_compute. reflexivity. Qed.

Lemma squeeze_replace (n : nat) :
  forall s b, (length s <= n)%nat -> squeeze b (replace_double_space s) = squeeze b s.
Proof.
  induction n as [|n IH]; intros s b Hl.
  - destruct s; [reflexivity|cbn in Hl; lia].
  - destruct s as [|c s']; [reflexivity|]. cbn [length] in Hl.
    cbn [replace_double_space]. destruct (Z.eqb_spec c 32) as [->|Hc].
    + destruct s' as [|d s'']; [reflexivity|]. cbn [length] in Hl.
      destruct (Z.eqb_spec d 32) as [->|Hd].
      * cbn [squeeze]. rewrite Z.eqb_refl. rewrite (IH s'' true) by lia. reflexivity.
      * cbn [squeeze]. rewrite Z.eqb_refl. rewrite (IH (d :: s'') true) by (cbn; lia).
        cbn [squeeze]. reflexivity.
    + cbn [squeeze]. apply Z.eqb_neq in Hc. rewrite Hc. rewrite IH by lia. reflexivity.
Qed.

Lemma bytes_eqb_true (a b : list Z) : bytes_eqb a b = true <-> a = b.
Proof. unfold bytes_eqb. destruct (list_eq_dec Z.eq_dec a b); split; congruence. Qed.

Lemma replace_length (n : nat) :
  forall s, (length s <= n)%nat ->
  (length (replace_double_space s) <= length s)%nat /\
  (contains [32; 32] s = true -> (length (replace_double_space s) < length s)%nat).
Proof.
  induction n as [|n IH]; intros s Hl.
  - destruct s; [cbn; split; [lia|discriminate]|cbn in Hl; lia].
  - destruct s as [|c s']; [cbn; split; [lia|discriminate]|]. cbn [length] in Hl.
    assert (Hc : contains [32; 32] (c :: s') = true ->
                 (c = 32 /\ firstn 1 s' = [32]) \/ contains [32; 32] s' = true).
    { cbn [contains]. intros H. apply orb_true_iff in H as [H|H]; [left|right; exact H].
      apply bytes_eqb_true in H. cbn [length firstn] in H. injection H as -> H. auto. }
    cbn [replace_double_space]. destruct (Z.eqb_spec c 32) as [->|Hne].
    + destruct s' as [|d s'']; [cbn; split; [lia|intros H; discriminate H]|]. cbn [length] in Hl.
      destruct (Z.eqb_spec d 32) as [->|Hd].
      * destruct (IH s'' ltac:(lia)) as [H1 _]. cbn [length]. split; lia.
      * destruct (IH (d :: s'') ltac:(cbn; lia)) as [H1 H2]. cbn [length] in *.
        split; [lia|]. intros H. destruct (Hc H) as [[_ E]|E]; [cbn in E; congruence|].
        specialize (H2 E). lia.
    + destruct (IH s' ltac:(lia)) as [H1 H2]. cbn [length]. split; [lia|].
      intros H. destruct (Hc H) as [[E _]|E]; [contradiction|]. specialize (H2 E). lia.
Qed.

Lemma no_double_space_squeeze (s : list Z) :
  forall b, contains [32; 32] s = false -> (b = true -> hd_error s <> Some 32) -> squeeze b s = s.
Proof.
  induction s as [|c s IH]; intros b Hc Hb; [reflexivity|].
  cbn [contains] in Hc. apply orb_false_iff in Hc as [H1 H2].
  cbn [squeeze]. destruct (Z.eqb_spec c 32) as [->|Hne].
  - destruct b; [exfalso; apply (Hb eq_refl); reflexivity|].
    f_equal. apply IH; [exact H2|].
    intros _ Hh. destruct s as [|d s]; [discriminate Hh|]. cbn in Hh. injection Hh as ->.
    assert (E : bytes_eqb (firstn 2 (32 :: 32 :: s)) [32; 32] = true) by (apply bytes_eqb_true; reflexivity).
    cbn [length] in H1. congruence.
  - f_equal. apply IH; [exact H2|discriminate].
Qed.

(** The [while] loop of [melody] squeezes every run of spaces. *)
Lemma collapse_squeeze (fuel : nat) :
  forall s, (length s <= fuel)%nat -> collapse_spaces fuel s = squeeze false s.
Proof.
  induction fuel as [|f IH]; intros s Hl.
  - destruct s; [reflexivity|cbn in Hl; lia].
  - cbn [collapse_spaces]. destruct (contains [32; 32] s) eqn:Hc.
    + destruct (replace_length (length s) s (le_n _)) as [_ H]. specialize (H Hc).
      rewrite IH by lia. apply (squeeze_replace (length s)). lia.
    + symmetry. apply no_double_space_squeeze; [exact Hc|discriminate].
Qed.

(** X19.  [melody] fails with IndexError on the empty string and on any
    string that starts with a space (the first note is empty and
    [note[0]] is evaluated), and runs of spaces count as a single space:
    two strings that differ only in the lengths of their runs of spaces
    give the same result. *)
Theorem melody_spaces (py_pow : spec_float -> spec_float -> spec_float) :
  melody py_pow [] = Exc IndexError /\
  (forall s, melody py_pow (32 :: s) = Exc IndexError) /\
  (forall s t, squeeze false s = squeeze false t -> melody py_pow s = melody py_pow t).
Proof.
  split; [reflexivity|]. split.
  - intros s. unfold melody. rewrite collapse_squeeze by lia. reflexivity.
  - intros s t H. unfold melody. rewrite !collapse_squeeze by lia. rewrite H. reflexivity.
Qed.

Lemma melody_spaces_witness :
  squeeze false (cps "c4  d") = squeeze false (cps "c4 d") /\
  melody (fun x _ => x) (cps "c4  d") = melody (fun x _ => x) (cps "c4 d").
Proof.
  split; [reflexivity|].
  destruct (melody_spaces (fun x _ => x)) as (_ & _ & H). apply H. reflexivity.
Defined.
(** X20.  The pitch table of [melody]: a note written as one of the
    twelve names [names[j]] (in the order c#, c, d#, d, e, f#, f, g#, g,
    a, b, h) followed by an octave digit [o] plays tone [12 o + j], with
    frequency [440 * halftone ** (12 o + j - 57)], for a quarter note at
    tempo 120 (duration 0.25) and volume 50.  So "c#4" is tone 48 and
    "c4" tone 49: c#, d#, f#, g# sound a semitone below c, d, f, g.  Only
    tones up to 96 exist: in octave 8 only "c#8"; "c8" and any higher
    note raise KeyError. *)
Theorem melody_pitch_table (py_pow : spec_float -> spec_float -> spec_float) (j : nat) (o : Z)
  (Hj : (j < 12)%nat) (Ho : 0 <= o <= 9) :
  melody py_pow (nth j names [] ++ [48 + o]) =
  if 12 * o + Z.of_nat j <=? 96
  then Ok [(PFloat (note_freq py_pow (12 * o + Z.of_nat j)), f64 1 (-2), 50)]
  else Exc KeyError.
Proof.
  assert (Hos : o = 0 \/ o = 1 \/ o = 2 \/ o = 3 \/ o = 4 \/ o = 5 \/ o = 6 \/ o = 7 \/ o = 8 \/ o = 9)
    by lia.
  do 12 (destruct j as [|j]; [destruct Hos as [->|[->|[->|[->|[->|[->|[->|[->|[->| ->]]]]]]]]];
                              cbv -[note_freq]; reflexivity|]).
  lia.
Qed.

Lemma melody_pitch_table_witness :
  (1 < 12)%nat /\ 0 <= 4 <= 9 /\
  melody (fun x _ => x) (cps "c4") = Ok [(PFloat (note_freq (fun x _ => x) 49), f64 1 (-2), 50)].
Proof.
  split; [lia|]. split; [lia|].
  exact (melody_pitch_table (fun x _ => x) 1 4 ltac:(lia) ltac:(lia)).
Defined.

Lemma squeeze_app (s t : list Z) :
  forall b, squeeze b (s ++ t) = squeeze b s ++ squeeze (squeeze_flag b s) t.
Proof.
  induction s as [|c s IH]; intros b; [reflexivity|].
  cbn [app squeeze squeeze_flag]. destruct (Z.eqb_spec c 32) as [->|Hne].
  - rewrite IH. destruct b; reflexivity.
  - rewrite IH. reflexivity.
Qed.

Lemma squeeze_flag_last (s : list Z) (b : bool) :
  s <> [] -> squeeze_flag b s = (last s 0 =? 32).
Proof.
  revert b. induction s as [|c s IH]; intros b H; [congruence|].
  destruct s as [|d s]; [reflexivity|].
  change (squeeze_flag (c =? 32) (d :: s) = (last (d :: s) 0 =? 32)). apply IH. discriminate.
Qed.

Lemma squeeze_nospace (t : list Z) (b : bool) : ~ In 32 t -> squeeze b t = t.
Proof.
  revert b. induction t as [|c t IH]; intros b H; [reflexivity|].
  cbn [squeeze]. destruct (Z.eqb_spec c 32) as [->|Hne]; [exfalso; apply H; left; reflexivity|].
  rewrite IH; [reflexivity|]. intros Hi. apply H. right. exact Hi.
Qed.

Lemma split_space_aux_app (a b : list Z) :
  forall cur, split_space_aux cur (a ++ 32 :: b) = split_space_aux cur a ++ split_space b.
Proof.
  induction a as [|c a IH]; intros cur; [reflexivity|].
  cbn [app split_space_aux]. destruct (c =? 32).
  - rewrite IH. reflexivity.
  - apply IH.
Qed.

Lemma split_space_aux_nospace (t : list Z) :
  forall cur, ~ In 32 t -> split_space_aux cur t = [rev cur ++ t].
Proof.
  induction t as [|c t IH]; intros cur H; [rewrite app_nil_r; reflexivity|].
  cbn [split_space_aux]. destruct (Z.eqb_spec c 32) as [->|Hne]; [exfalso; apply H; left; reflexivity|].
  rewrite IH by (intros Hi; apply H; right; exact Hi). cbn [rev]. rewrite <- app_assoc. reflexivity.
Qed.

Lemma melody_run_app (py_pow : spec_float -> spec_float -> spec_float) (a b : list (list Z)) :
  forall st, melody_run py_pow st (a ++ b) = (st' <-? melody_run py_pow st a ;; melody_run py_pow st' b).
Proof.
  induction a as [|n a IH]; intros st; [reflexivity|].
  cbn [app melody_run]. destruct (melody_step py_pow st n); [apply IH|reflexivity].
Qed.

(** Appending [" " ++ t] to a string that ends in a note runs the notes
    of [t] from the state reached at the end of [s]. *)
Lemma melody_append (py_pow : spec_float -> spec_float -> spec_float) (s t : list Z) :
  s <> [] -> last s 0 <> 32 ->
  melody py_pow s = (st <-? melody_run py_pow melody_init (split_space (squeeze false s)) ;; Ok (aggregator st)) /\
  melody py_pow (s ++ 32 :: t) =
  (st <-? melody_run py_pow melody_init (split_space (squeeze false s)) ;;
   st' <-? melody_run py_pow st (split_space (squeeze true t)) ;;
   Ok (aggregator st')).
Proof.
  intros Hs Hl. unfold melody. rewrite !collapse_squeeze by lia. split; [reflexivity|].
  rewrite squeeze_app, squeeze_flag_last by exact Hs.
  destruct (Z.eqb_spec (last s 0) 32) as [E|_]; [contradiction|].
  change (squeeze false (32 :: t)) with (32 :: squeeze true t). unfold split_space. rewrite split_space_aux_app, melody_run_app.
  destruct (melody_run py_pow melody_init (split_space_aux [] (squeeze false s))); reflexivity.
Qed.

Lemma names_eq : names = [[99;35];[99];[100;35];[100];[101];[102;35];[102];[103;35];[103];[97];[98];[104]].
Proof. reflexivity. Qed.

Lemma startswith_head (c x : Z) (r p : list Z) : c <> x -> startswith (c :: r) (x :: p) = false.
Proof.
  intros H. unfold startswith. cbn [length firstn zs_eqb]. apply Z.eqb_neq in H. rewrite H. reflexivity.
Qed.

Lemma melody_step_ignored (py_pow : spec_float -> spec_float -> spec_float) (st : mstate) (c : Z) (r : list Z) :
  str_lookup (c :: r) volumes = None -> ~ In c (cps "Trcdefgabh") ->
  melody_step py_pow st (c :: r) = Ok st.
Proof.
  intros Hv Hc. unfold melody_step. rewrite Hv. cbn [pybind py_index nth_error].
  cbn in Hc.
  assert (Hne : forall x, In x [84;114;99;100;101;102;103;97;98;104] -> c <> x)
    by (intros x Hx E; subst x; apply Hc; cbn in Hx |- *; tauto).
  assert (E84 : (c =? 84) = false) by (apply Z.eqb_neq, Hne; cbn; tauto).
  assert (E114 : (c =? 114) = false) by (apply Z.eqb_neq, Hne; cbn; tauto).
  rewrite E84, E114. cbn [pybind]. rewrite names_eq. cbn [note_names].
  rewrite !startswith_head by (apply Hne; cbn; tauto). reflexivity.
Qed.

(** X21.  [melody] ignores a note it does not know: appending to a
    non-empty string that does not end in a space one more space-free token
    that is not a dynamics key and does not start with T, r or one of the
    note letters c, d, e, f, g, a, b, h leaves the result unchanged. *)
Theorem melody_ignores_unknown (py_pow : spec_float -> spec_float -> spec_float) (s : list Z) (c : Z) (r : list Z)
  (Hs : s <> []) (Hl : last s 0 <> 32) (Hsp : ~ In 32 (c :: r))
  (Hv : str_lookup (c :: r) volumes = None) (Hc : ~ In c (cps "Trcdefgabh")) :
  melody py_pow (s ++ 32 :: c :: r) = melody py_pow s.
Proof.
  destruct (melody_append py_pow s (c :: r) Hs Hl) as [E1 E2]. rewrite E1, E2.
  rewrite (squeeze_nospace (c :: r) true Hsp). unfold split_space. rewrite (split_space_aux_nospace (c :: r) [] Hsp).
  cbn [rev app].
  destruct (melody_run py_pow melody_init (split_space_aux [] (squeeze false s))) as [st|e]; [|reflexivity].
  cbn [pybind melody_run]. rewrite melody_step_ignored by assumption. reflexivity.
Qed.

Lemma melody_ignores_unknown_witness :
  melody (fun x _ => x) (cps "c4 x") = melody (fun x _ => x) (cps "c4").
Proof.
  exact (melody_ignores_unknown (fun x _ => x) (cps "c4") 120 [] ltac:(discriminate) ltac:(discriminate)
           ltac:(cbn; lia) ltac:(reflexivity) ltac:(cbn; lia)).
Defined.

Lemma melody_step_T0 (py_pow : spec_float -> spec_float -> spec_float) (st : mstate) :
  melody_step py_pow st (cps "T0") =
  Ok (mkMState (volume st) 0 (currentoctave st) (currentlength st) (aggregator st)).
Proof. destruct st. cbv -[note_freq]. reflexivity. Qed.

Lemma melody_step_tempo0_rest (py_pow : spec_float -> spec_float -> spec_float) (st : mstate) :
  tempo st = 0 -> melody_step py_pow st [114] = Exc ZeroDivisionError.
Proof. destruct st as [v t o l a]. cbn [tempo]. intros ->. cbv -[note_freq]. reflexivity. Qed.

Lemma melody_step_tempo0_note (py_pow : spec_float -> spec_float -> spec_float) (st : mstate) (j : nat) :
  tempo st = 0 -> (j < 12)%nat -> melody_step py_pow st (nth j names []) = Exc ZeroDivisionError.
Proof.
  destruct st as [v t o l a]. cbn [tempo]. intros -> Hj.
  do 12 (destruct j as [|j]; [cbv -[note_freq]; reflexivity|]). lia.
Qed.

Lemma names_nospace (j : nat) : ~ In 32 (nth j names []).
Proof.
  intros H. do 12 (destruct j as [|j]; [cbn in H; lia|]). destruct j; cbn in H; contradiction.
Qed.

(** X22.  A tempo of 0 is accepted: appending "T0" to a non-empty string
    that does not end in a space does not change the result, but a rest
    "r" or a bare note name right after it fails with ZeroDivisionError in
    [120 / tempo] (unless an earlier token failed already). *)
Theorem melody_tempo_zero (py_pow : spec_float -> spec_float -> spec_float) (s : list Z)
  (Hs : s <> []) (Hl : last s 0 <> 32) :
  melody py_pow (s ++ 32 :: cps "T0") = melody py_pow s /\
  melody py_pow (s ++ 32 :: cps "T0 r") = (_ <-? melody py_pow s ;; Exc ZeroDivisionError) /\
  (forall j, (j < 12)%nat ->
     melody py_pow (s ++ 32 :: cps "T0 " ++ nth j names []) = (_ <-? melody py_pow s ;; Exc ZeroDivisionError)).
Proof.
  destruct (melody_append py_pow s (cps "T0") Hs Hl) as [E1 E2].
  destruct (melody_append py_pow s (cps "T0 r") Hs Hl) as [_ E3].
  rewrite E1, E2, E3. split; [|split].
  - change (split_space (squeeze true (cps "T0"))) with [cps "T0"].
    destruct (melody_run py_pow melody_init (split_space (squeeze false s))) as [st|e]; [|reflexivity].
    cbn [pybind melody_run]. rewrite melody_step_T0. reflexivity.
  - change (split_space (squeeze true (cps "T0 r"))) with [cps "T0"; [114]].
    destruct (melody_run py_pow melody_init (split_space (squeeze false s))) as [st|e]; [|reflexivity].
    cbn [pybind melody_run]. rewrite melody_step_T0. cbn [pybind].
    rewrite melody_step_tempo0_rest by reflexivity. reflexivity.
  - intros j Hj.
    destruct (melody_append py_pow s (cps "T0 " ++ nth j names []) Hs Hl) as [_ E4]. rewrite E4.
    change (cps "T0 ") with [84; 48; 32]. cbn [app].
    change (squeeze true (84 :: 48 :: 32 :: nth j names []))
      with (84 :: 48 :: 32 :: squeeze true (nth j names [])).
    rewrite (squeeze_nospace _ true (names_nospace j)).
    change (split_space (84 :: 48 :: 32 :: nth j names []))
      with ([84; 48] :: split_space_aux [] (nth j names [])).
    rewrite (split_space_aux_nospace _ [] (names_nospace j)). cbn [rev app].
    destruct (melody_run py_pow melody_init (split_space (squeeze false s))) as [st|e]; [|reflexivity].
    cbn [pybind melody_run]. change [84; 48] with (cps "T0"). rewrite melody_step_T0. cbn [pybind].
    rewrite melody_step_tempo0_note by (reflexivity || exact Hj). reflexivity.
Qed.

Lemma melody_tempo_zero_witness :
  melody (fun x _ => x) (cps "c4 T0 r") = Exc ZeroDivisionError.
Proof.
  destruct (melody_tempo_zero (fun x _ => x) (cps "c4") ltac:(discriminate) ltac:(discriminate))
    as (_ & H & _).
  exact H.
Defined.

Lemma str_lookup_in {V} (k : list Z) (d : list (list Z * V)) (v : V) :
  str_lookup k d = Some v -> In v (map snd d).
Proof.
  induction d as [|[k' v'] d IH]; cbn [str_lookup map]; [discriminate|].
  destruct (zs_eqb k k'); [intros H; injection H as ->; left; reflexivity|].
  intros H. right. exact (IH H).
Qed.

Lemma freqs_in (py_pow : spec_float -> spec_float -> spec_float) (f : spec_float) :
  In f (map snd (freqs py_pow)) -> exists k, 0 <= k <= 96 /\ f = note_freq py_pow k.
Proof.
  unfold freqs. rewrite !map_map. cbn [snd]. intros H.
  apply in_map_iff in H as (n & <- & Hn). apply in_seq in Hn.
  exists (Z.of_nat n). split; [lia|reflexivity].
Qed.

Lemma pybind_ok {A B} (c : pyres A) (k : A -> pyres B) (b : B) :
  (x <-? c ;; k x) = Ok b -> exists a, c = Ok a /\ k a = Ok b.
Proof. destruct c as [a|e]; cbn; [eauto|discriminate]. Qed.

Ltac pybind_inv H :=
  let a := fresh "a" in let Ha := fresh "Ha" in
  apply pybind_ok in H as (a & Ha & H).

Lemma note_names_good (py_pow : spec_float -> spec_float -> spec_float) (cns : list (list Z)) (note : list Z) :
  forall st st', note_names py_pow cns note st = Ok st' -> mstate_good py_pow st -> mstate_good py_pow st'.
Proof.
  induction cns as [|cn cns IH]; intros st st' H Hg; cbn [note_names] in H.
  - injection H as <-. exact Hg.
  - destruct (startswith note cn); [|exact (IH st st' H Hg)].
    pybind_inv H. pybind_inv H. pybind_inv H. pybind_inv H.
    injection H as <-. destruct Hg as [Hv Hagg]. split; [exact Hv|]. cbn [aggregator volume].
    apply Forall_app. split; [exact Hagg|]. constructor; [|constructor].
    destruct (str_lookup (cn ++ py_str_int a) (freqs py_pow)) as [f|] eqn:Ef; [|discriminate Ha2].
    injection Ha2 as <-. apply str_lookup_in, freqs_in in Ef as (k & Hk & ->).
    right. exists k, a1, (volume st). auto.
Qed.

Lemma melody_step_good (py_pow : spec_float -> spec_float -> spec_float) (st st' : mstate) (note : list Z) :
  melody_step py_pow st note = Ok st' -> mstate_good py_pow st -> mstate_good py_pow st'.
Proof.
  intros H Hg. unfold melody_step in H.
  set (st1 := match str_lookup note volumes with
              | Some v => mkMState v (tempo st) (currentoctave st) (currentlength st) (aggregator st)
              | None => st end) in H.
  assert (G1 : mstate_good py_pow st1).
  { subst st1. destruct (str_lookup note volumes) as [v|] eqn:Ev; [|exact Hg].
    split; [apply str_lookup_in in Ev; exact Ev|exact (proj2 Hg)]. }
  clearbody st1.
  pybind_inv H. pybind_inv H.
  assert (G2 : mstate_good py_pow a0).
  { destruct (a =? 84); [pybind_inv Ha0; injection Ha0 as <-; exact G1|injection Ha0 as <-; exact G1]. }
  pybind_inv H. apply (note_names_good _ _ _ _ _ Ha1) in G2.
  destruct (a =? 114); [|injection H as <-; exact G2].
  pybind_inv H. pybind_inv H. injection H as <-. destruct G2 as [Gv Ga].
  split; [exact Gv|]. cbn [aggregator]. apply Forall_app. split; [exact Ga|].
  constructor; [|constructor]. left. eauto.
Qed.

Lemma melody_run_good (py_pow : spec_float -> spec_float -> spec_float) (notes : list (list Z)) :
  forall st st', melody_run py_pow st notes = Ok st' -> mstate_good py_pow st -> mstate_good py_pow st'.
Proof.
  induction notes as [|n notes IH]; intros st st' H Hg; cbn [melody_run] in H.
  - injection H as <-. exact Hg.
  - pybind_inv H. exact (IH _ _ H (melody_step_good _ _ _ _ Ha Hg)).
Qed.

(** X23.  Every entry that [melody] returns is either a rest
    [[440, d, 0]] or a tone [k] of the table ([0 <= k <= 96], frequency
    [440 * halftone ** (k - 57)]) at one of the eight volumes 12, 24, 37,
    50, 62, 75, 87, 100 of the dynamics keys. *)
Theorem melody_output_shape (py_pow : spec_float -> spec_float -> spec_float) (notes : list Z) (l : list note_entry) :
  melody py_pow notes = Ok l -> Forall (good_entry py_pow) l.
Proof.
  unfold melody. intros H. pybind_inv H. injection H as <-.
  apply (melody_run_good _ _ _ _ Ha). split; [cbn; tauto|constructor].
Qed.

Lemma melody_output_shape_witness :
  exists l, melody (fun x _ => x) (cps "FF c4/8 r/2") = Ok l /\ Forall (good_entry (fun x _ => x)) l.
Proof.
  eexists. split; [cbv; reflexivity|].
  apply (melody_output_shape (fun x _ => x) (cps "FF c4/8 r/2")). cbv. reflexivity.
Defined.
